(** * The SSFN console bitmap renderer ([ssfn_putc])

    A shallow embedding of [kernel/init/framebuffer/ssfn.h]: the character
    table scan, the cursor control block, the fragment blitter and the
    scroll copy, followed by the properties of the renderer.

    Conventions of the embedding.
    - [int] values are mathematical integers; every [int] operation whose
      result can leave the 32-bit range is wrapped with [sint] (two's
      complement, what the target machines compute).
    - Bytes are integers read through [load8], which reduces modulo 256.
    - Pointers are byte addresses, integers as well, and pointer
      arithmetic is exact; a pixel pointer moves by [sizeof] bytes.
    - The font image is a read-only byte region addressed from [ssfn_src];
      the frame buffer lives in a flat byte memory addressed absolutely.
      The two are different objects: stores never change the font.
    - Multi-byte fields and pixels are little-endian (x86-64, AArch64 and
      RISC-V, the machines this kernel boots on).
    - Division by zero is a trap: the call has no result. *)

From Stdlib Require Import ZArith List Bool Lia.
From Stdlib Require String.
Import String.StringSyntax.
Delimit Scope string_scope with string.
Import ListNotations.
Local Open Scope Z_scope.

(** ** Machine integers and memory *)

Definition sint (z : Z) : Z := (z + 2147483648) mod 4294967296 - 2147483648.

Definition memory := Z -> Z.

Definition load8 (m : memory) (a : Z) : Z := m a mod 256.

Definition store8 (m : memory) (a v : Z) : memory :=
  fun a' => if a' =? a then v mod 256 else m a'.

(** [n] bytes of [v], least significant first, from address [a]. *)
Fixpoint store_le (n : nat) (m : memory) (a v : Z) : memory :=
  match n with
  | O => m
  | S n' => store_le n' (store8 m a v) (a + 1) (Z.shiftr v 8)
  end.

Fixpoint load_le (n : nat) (m : memory) (a : Z) : Z :=
  match n with
  | O => 0
  | S n' => load8 m a + 256 * load_le n' m (a + 1)
  end.

(** ** Constants of the header file *)

Definition SSFN_OK : Z := 0.
Definition SSFN_ERR_INVINP : Z := -4.
Definition SSFN_ERR_NOGLYPH : Z := -7.

(** The three pixel types selected by [SSFN_CONSOLEBITMAP_PALETTE],
    [SSFN_CONSOLEBITMAP_HICOLOR] and [SSFN_CONSOLEBITMAP_TRUECOLOR]. *)
Inductive SSFN_PIXEL := PALETTE | HICOLOR | TRUECOLOR.

Definition sizeof (px : SSFN_PIXEL) : Z :=
  match px with PALETTE => 1 | HICOLOR => 2 | TRUECOLOR => 4 end.

(** ** [ssfn_font_t]: the packed 32-byte header over the font image *)

Definition ssfn_font_t := memory.

Definition magic (f : ssfn_font_t) (k : Z) : Z := load8 f k.
Definition height (f : ssfn_font_t) : Z := load8 f 11.
Definition characters_offs (f : ssfn_font_t) : Z :=
  load8 f 16 + 256 * load8 f 17 + 65536 * load8 f 18 + 16777216 * load8 f 19.

(** ** [ssfn_buf_t]: the destination frame buffer context *)

Module buf.
Record t := mk {
  ptr : Z;   (* address of the buffer, 0 is the null pointer *)
  w : Z;     (* width (positive: ARGB, negative: ABGR pixels) *)
  h : Z;     (* height *)
  p : Z;     (* pitch, bytes per line *)
  x : Z;     (* cursor x *)
  y : Z;     (* cursor y *)
  fg : Z;    (* foreground color *)
  bg : Z     (* background color *)
}.
Definition set_x (d : t) (v : Z) : t := mk (ptr d) (w d) (h d) (p d) v (y d) (fg d) (bg d).
Definition set_y (d : t) (v : Z) : t := mk (ptr d) (w d) (h d) (p d) (x d) v (fg d) (bg d).
End buf.

Definition ssfn_buf_t := buf.t.

(** ** Character table scan (lines 276-281) *)

Inductive scan_result :=
  | Found (chr : Z)
  | Next (ptr i : Z).

(** The body of the [for] loop (lines 277-280): a skip marker adds its
    value to [i] and steps over its bytes, a record either is the one
    looked for or is stepped over. *)
Definition scan_entry (f : ssfn_font_t) (unicode ptr i : Z) : scan_result :=
  let b0 := load8 f ptr in
  if b0 =? 0xFF then Next (ptr + 1) (i + 65535)
  else if Z.land b0 0xC0 =? 0xC0 then
    let j := Z.lor (Z.shiftl (Z.land b0 0x3F) 8) (load8 f (ptr + 1)) in
    Next (ptr + 2) (i + j)
  else if Z.land b0 0xC0 =? 0x80 then
    let j := Z.land b0 0x3F in
    Next (ptr + 1) (i + j)
  else if i =? unicode then Found ptr
  else Next (ptr + 6 + load8 f (ptr + 1) * (if Z.land b0 0x40 =? 0 then 5 else 6)) i.

(** [for(ptr = ..., i = 0; i < 0x110000; i++)]: the loop runs while
    [i < 0x110000] and [i] grows by at least one per iteration, so [n]
    iterations are enough when [0x110000 - i <= n]. *)
Fixpoint scan (n : nat) (f : ssfn_font_t) (unicode ptr i : Z) : option Z :=
  match n with
  | O => None
  | S n' =>
    if i <? 0x110000 then
      match scan_entry f unicode ptr i with
      | Found chr => Some chr
      | Next ptr' i' => scan n' f unicode ptr' (i' + 1)
      end
    else None
  end.

(** [chr] after the loop: the glyph record of [unicode], if the table has one. *)
Definition lookup (f : ssfn_font_t) (unicode : Z) : option Z :=
  scan (Z.to_nat 0x110000) f unicode (characters_offs f) 0.

(** ** Pixel stores

    The blitter never reads the frame buffer, so its effect is the ordered
    list of its pixel stores.  A store records the pixel pointer [p], the
    loop column ([j] or [l]) and the destination column [ssfn_dst.x + l]
    at which it happens, and which assignment of the source it is. *)

Inductive paint :=
  | SetBit     (* [*p = ssfn_dst.fg], line 314 *)
  | ClearBit   (* [*p = ssfn_dst.bg], line 315 *)
  | FillRow.   (* [*p = ssfn_dst.bg], lines 306 and 322 *)

Record store := mkstore { st_paint : paint; st_l : Z; st_x : Z; st_p : Z }.

Definition color (dst : ssfn_buf_t) (k : paint) : Z :=
  match k with SetBit => buf.fg dst | _ => buf.bg dst end.

Definition store_pixel (px : SSFN_PIXEL) (m : memory) (a v : Z) : memory :=
  store_le (Z.to_nat (sizeof px)) m a v.

Definition load_pixel (px : SSFN_PIXEL) (m : memory) (a : Z) : Z :=
  load_le (Z.to_nat (sizeof px)) m a.

Definition commit (px : SSFN_PIXEL) (dst : ssfn_buf_t) (log : list store) (m : memory) : memory :=
  fold_left (fun m e => store_pixel px m (st_p e) (color dst (st_paint e))) log m.

(** ** The blitter (lines 297-323) *)

Section Blitter.
Variable px : SSFN_PIXEL.
Variable font : ssfn_font_t.
Variable dst : ssfn_buf_t.
Variables w s : Z.

Local Abbreviation sz := (sizeof px).

Definition in_width (c : Z) : bool := (w =? 0) || (sint (buf.x dst + c) <? w).
Definition in_height (y : Z) : bool := (buf.h dst =? 0) || (sint (buf.y dst + y) <? buf.h dst).

(** [for(p = o, j = 0; j < chr[2] && (!w || ssfn_dst.x + j < w); j++, p++)
      *p = ssfn_dst.bg;] *)
Fixpoint fill_row (n : nat) (cw p j : Z) : list store :=
  match n with
  | O => []
  | S n' =>
    if (j <? cw) && in_width j
    then mkstore FillRow j (sint (buf.x dst + j)) p :: fill_row n' cw (p + sz) (j + 1)
    else []
  end.

(** [for(; y < lim && (!ssfn_dst.h || ssfn_dst.y + y < ssfn_dst.h); y++, o += s)]
    around [fill_row]; [lim] is [ptr[1]] (line 304) or [chr[3]] (line 320). *)
Fixpoint fill_rows (n : nat) (lim cw y o : Z) : Z * Z * list store :=
  match n with
  | O => (y, o, [])
  | S n' =>
    if (y <? lim) && in_height y
    then let '(y', o', log) := fill_rows n' lim cw (y + 1) (o + s * sz) in
         (y', o', fill_row (Z.to_nat cw) cw o 0 ++ log)
    else (y, o, [])
  end.

(** The body of the pixel loop, lines 312-316, at column [l] with the
    mask and fragment pointer the previous column left. *)
Definition bitmap_pixel (frg m p l : Z) : Z * Z * list store :=
  let '(frg, m) := if m >? 0x80 then (frg + 1, 1) else (frg, m) in
  (frg, m,
   if (0 <=? sint (buf.x dst + l)) && in_width l then
     if negb (Z.land (load8 font frg) m =? 0)
     then [mkstore SetBit l (sint (buf.x dst + l)) p]
     else if negb (buf.bg dst =? 0)
          then [mkstore ClearBit l (sint (buf.x dst + l)) p]
          else []
   else []).

(** [for(p = o, l = 0; l < k; l++, p++, m <<= 1)] *)
Fixpoint bitmap_row (n : nat) (k frg m p l : Z) : Z * Z * list store :=
  match n with
  | O => (frg, m, [])
  | S n' =>
    if l <? k then
      let '(frg1, m1, here) := bitmap_pixel frg m p l in
      let '(frg', m', log) := bitmap_row n' k frg1 (Z.shiftl m1 1) (p + sz) (l + 1) in
      (frg', m', here ++ log)
    else (frg, m, [])
  end.

(** [for(m = 1; j && (!ssfn_dst.h || ssfn_dst.y + y < ssfn_dst.h); j--, y++, o += s)] *)
Fixpoint bitmap_rows (n : nat) (k frg m j y o : Z) : Z * Z * list store :=
  match n with
  | O => (y, o, [])
  | S n' =>
    if negb (j =? 0) && in_height y then
      let '(frg', m', row) := bitmap_row (Z.to_nat k) k frg m o 0 in
      let '(y', o', log) := bitmap_rows n' k frg' m' (j - 1) (y + 1) (o + s * sz) in
      (y', o', row ++ log)
    else (y, o, [])
  end.

(** Lines 300-301: the fragment's offset in the font image. *)
Definition fragment_offs (chr ptr : Z) : Z :=
  if negb (Z.land (load8 font chr) 0x40 =? 0)
  then sint (Z.lor (Z.lor (Z.lor (Z.shiftl (load8 font (ptr + 5)) 24)
                                 (Z.shiftl (load8 font (ptr + 4)) 16))
                          (Z.shiftl (load8 font (ptr + 3)) 8))
                   (load8 font (ptr + 2)))
  else Z.lor (Z.lor (Z.shiftl (load8 font (ptr + 4)) 16)
                    (Z.shiftl (load8 font (ptr + 3)) 8))
             (load8 font (ptr + 2)).

(** Lines 303-317: one bitmap fragment, the rows above it first. *)
Definition fragment (chr ptr frg y o : Z) : Z * Z * list store :=
  let lim := load8 font (ptr + 1) in
  let '(y1, o1, log1) :=
    if negb (buf.bg dst =? 0)
    then fill_rows (Z.to_nat (lim - y)) lim (load8 font (chr + 2)) y o
    else (lim, o + sint (sint (lim - y) * s) * sz, []) in
  let k := Z.shiftl (Z.land (load8 font frg) 0x1F + 1) 3 in
  let j := load8 font (frg + 1) + 1 in
  let '(y2, o2, log2) := bitmap_rows (Z.to_nat j) k (frg + 2) 1 j y1 o1 in
  (y2, o2, log1 ++ log2).

(** [for(i = 0; i < chr[1]; i++, ptr += chr[0] & 0x40 ? 6 : 5)];
    [n] counts the fragment references still to visit. *)
Fixpoint fragments (n : nat) (chr ptr y o : Z) : Z * Z * list store :=
  match n with
  | O => (y, o, [])
  | S n' =>
    let next := ptr + (if negb (Z.land (load8 font chr) 0x40 =? 0) then 6 else 5) in
    if (load8 font ptr =? 255) && (load8 font (ptr + 1) =? 255)
    then fragments n' chr next y o
    else
      let frg := fragment_offs chr ptr in
      if negb (Z.land (load8 font frg) 0xE0 =? 0x80)
      then fragments n' chr next y o
      else
        let '(y1, o1, log1) := fragment chr ptr frg y o in
        let '(y2, o2, log2) := fragments n' chr next y1 o1 in
        (y2, o2, log1 ++ log2)
  end.

(** Lines 297-323: all the stores of one glyph.  In the address of line
    297 the product [ssfn_dst.y * ssfn_dst.p] is an [int]; the product with
    [sizeof] is taken in [size_t] and added to the pointer. *)
Definition glyph (chr : Z) : list store :=
  let o := buf.ptr dst + sint (buf.y dst * buf.p dst) + buf.x dst * sz in
  let '(y, o1, log) := fragments (Z.to_nat (load8 font (chr + 1))) chr (chr + 6) 0 o in
  if negb (buf.bg dst =? 0)
  then log ++ snd (fill_rows (Z.to_nat (load8 font (chr + 3) - y))
                             (load8 font (chr + 3)) (load8 font (chr + 2)) y o1)
  else log.
End Blitter.

(** ** The control block (lines 283-294) *)

(** [for(l = 0; l < ssfn_dst.p; l++)
      ssfn_dst.ptr[k * ssfn_dst.p + l] = ssfn_dst.ptr[(k + i) * ssfn_dst.p + l];] *)
Fixpoint scroll_row (n : nat) (dst : ssfn_buf_t) (i k l : Z) (m : memory) : memory :=
  match n with
  | O => m
  | S n' =>
    if l <? buf.p dst then
      scroll_row n' dst i k (l + 1)
        (store8 m (buf.ptr dst + sint (sint (k * buf.p dst) + l))
                  (load8 m (buf.ptr dst + sint (sint (sint (k + i) * buf.p dst) + l))))
    else m
  end.

(** [for(k = 0; k < j; k++)] *)
Fixpoint scroll (n : nat) (dst : ssfn_buf_t) (i j k : Z) (m : memory) : memory :=
  match n with
  | O => m
  | S n' =>
    if k <? j then scroll n' dst i j (k + 1) (scroll_row (Z.to_nat (buf.p dst)) dst i k 0 m)
    else m
  end.

(** Line 283: [j = ssfn_dst.h - i - (ssfn_dst.h % i)], for [i] nonzero. *)
Definition last_line (dst : ssfn_buf_t) (i : Z) : Z :=
  sint (sint (buf.h dst - i) - Z.rem (buf.h dst) i).

(** Lines 284-287: tab stop and line wrap; [None] when [% chr[4]] divides by zero. *)
Definition wrap_cursor (f : ssfn_font_t) (dst : ssfn_buf_t) (unicode chr w i : Z) : option ssfn_buf_t :=
  let adv := load8 f (chr + 4) in
  let tabbed :=
    if unicode =? 9 then
      if adv =? 0 then None
      else Some (buf.set_x dst (sint (buf.x dst - Z.rem (buf.x dst) adv)))
    else Some dst in
  match tabbed with
  | None => None
  | Some d =>
    if sint (buf.x d + adv) >? w
    then Some (buf.set_y (buf.set_x d 0) (sint (buf.y d + i)))
    else Some d
  end.

(** Lines 284-288: the cursor after the tab stop, the line wrap and the
    newline advance; [chr] is the glyph the scan found, if any. *)
Definition advance (f : ssfn_font_t) (dst : ssfn_buf_t) (unicode : Z) (chr : option Z)
    (w i : Z) : option ssfn_buf_t :=
  let wrapped :=
    match chr with
    | Some c => if negb (w =? 0) then wrap_cursor f dst unicode c w i else Some dst
    | None => Some dst
    end in
  match wrapped with
  | None => None
  | Some d => Some (if unicode =? 10 then buf.set_y d (sint (buf.y d + i)) else d)
  end.

(** Lines 289-293. *)
Definition scroll_on_overflow (dst : ssfn_buf_t) (i j : Z) (m : memory) : ssfn_buf_t * memory :=
  if (j >? 0) && (buf.y dst >? j)
  then (buf.set_y dst j, scroll (Z.to_nat j) dst i j 0 m)
  else (dst, m).

(** ** [ssfn_putc] *)

(** The build of the renderer: the pixel type and whether
    [SSFN_CONSOLEBITMAP_CONTROL] is defined. *)
Record build := mkbuild {
  pixel : SSFN_PIXEL;
  SSFN_CONSOLEBITMAP_CONTROL : bool
}.

(** A call either traps or returns a status, leaving a new [ssfn_dst] and
    frame buffer memory; [log] lists the blitter's pixel stores. *)
Inductive outcome :=
  | Trap
  | Ret (status : Z) (dst : ssfn_buf_t) (m : memory) (log : list store).

Definition valid_input (ssfn_src : option ssfn_font_t) (dst : ssfn_buf_t) : bool :=
  match ssfn_src with
  | None => false
  | Some f =>
    (magic f 0 =? 83) && (magic f 1 =? 70) && (magic f 2 =? 78) && (magic f 3 =? 50)
    && negb (buf.ptr dst =? 0) && negb (buf.p dst =? 0)
  end.

(** Line 275: [w = ssfn_dst.w < 0 ? -ssfn_dst.w : ssfn_dst.w]. *)
Definition abs_width (dst : ssfn_buf_t) : Z :=
  if buf.w dst <? 0 then sint (- buf.w dst) else buf.w dst.

(** Lines 294-326: the early return for line terminators of the control
    block, the missing glyph, and the blit with the cursor advance. *)
Definition finish (b : build) (f : ssfn_font_t) (unicode : Z) (chr : option Z)
    (dst : ssfn_buf_t) (m : memory) : outcome :=
  if SSFN_CONSOLEBITMAP_CONTROL b && ((unicode =? 13) || (unicode =? 10))
  then Ret SSFN_OK (buf.set_x dst 0) m []
  else
    match chr with
    | None => Ret SSFN_ERR_NOGLYPH dst m []
    | Some c =>
      let s := buf.p dst / sizeof (pixel b) in
      let log := glyph (pixel b) f dst (abs_width dst) s c in
      Ret SSFN_OK
          (buf.set_y (buf.set_x dst (sint (buf.x dst + load8 f (c + 4))))
                     (sint (buf.y dst + load8 f (c + 5))))
          (commit (pixel b) dst log m) log
    end.

Definition ssfn_putc (b : build) (ssfn_src : option ssfn_font_t) (ssfn_dst : ssfn_buf_t)
    (m : memory) (unicode : Z) : outcome :=
  match ssfn_src with
  | None => Ret SSFN_ERR_INVINP ssfn_dst m []
  | Some f =>
    if negb (valid_input ssfn_src ssfn_dst) then Ret SSFN_ERR_INVINP ssfn_dst m []
    else
      let w := abs_width ssfn_dst in
      let chr := lookup f unicode in
      if SSFN_CONSOLEBITMAP_CONTROL b then
        let i := height f in
        if i =? 0 then Trap
        else
          let j := last_line ssfn_dst i in
          match advance f ssfn_dst unicode chr w i with
          | None => Trap
          | Some d =>
            let '(d', m') := scroll_on_overflow d i j m in
            finish b f unicode chr d' m'
          end
      else finish b f unicode chr ssfn_dst m
  end.


(** ** The bitmap of a fragment, by row and column

    What the fragment loop stores, written from the indices instead of the
    running mask [m] and pointer [frg]: pixel [l] of a row whose payload
    starts at [base] is bit [l mod 8], counted from the least significant
    bit, of byte [base + l / 8]. *)

Fixpoint zrange (a : Z) (n : nat) : list Z :=
  match n with
  | O => []
  | S n' => a :: zrange (a + 1) n'
  end.

Section Bitmap.
Variable px : SSFN_PIXEL.
Variable font : ssfn_font_t.
Variable dst : ssfn_buf_t.
Variables w s : Z.

Definition bit_pixel (base o l : Z) : list store :=
  if (0 <=? sint (buf.x dst + l)) && in_width dst w l then
    if Z.testbit (load8 font (base + l / 8)) (l mod 8)
    then [mkstore SetBit l (sint (buf.x dst + l)) (o + l * sizeof px)]
    else if negb (buf.bg dst =? 0)
         then [mkstore ClearBit l (sint (buf.x dst + l)) (o + l * sizeof px)]
         else []
  else [].

(** Row [r] of a [k]-pixel wide bitmap starts [r * (k / 8)] bytes into the
    payload and [r * s] pixels below [o]. *)
Definition bit_row (k base o r : Z) : list store :=
  flat_map (bit_pixel (base + r * (k / 8)) (o + r * (s * sizeof px)))
           (zrange 0 (Z.to_nat k)).

Definition bit_rows (k base o : Z) (rows : nat) : list store :=
  flat_map (bit_row k base o) (zrange 0 rows).

(** The rows, out of [n], that the destination height lets through from
    glyph row [y] on: the loop stops at the first clipped row. *)
Fixpoint visible_rows (n : nat) (y : Z) : nat :=
  match n with
  | O => O
  | S n' => if in_height dst y then S (visible_rows n' (y + 1)) else O
  end.

(** The mask and pointer with which the pixel loop reaches column [l] of a
    row whose payload starts at [base], after the reset of line 312. *)
Definition at_column (base l frg m : Z) : Prop :=
  (if m >? 0x80 then (frg + 1, 1) else (frg, m)) = (base + l / 8, 2 ^ (l mod 8)).
End Bitmap.

(** The fields of the context that a call never assigns. *)
Definition frame_of (d : ssfn_buf_t) : Z * Z * Z * Z * Z * Z :=
  (buf.ptr d, buf.w d, buf.h d, buf.p d, buf.fg d, buf.bg d).

(** The bytes of pixel store [e]. *)
Definition covers (px : SSFN_PIXEL) (e : store) (a : Z) : Prop :=
  st_p e <= a < st_p e + sizeof px.
(** ** Sample fonts and buffers *)

Definition image (l : list Z) : memory :=
  fun a => if a <? 0 then 0 else nth (Z.to_nat a) l 0.

(** A 32-byte header with the given cell height; fragments start at byte
    32 and the character table at byte 48. *)
Definition sample_header (hgt : Z) : list Z :=
  [83; 70; 78; 50;  0; 0; 0; 0;  0; 0; 8; hgt; 0; 0;  32; 0;
   48; 0; 0; 0;  0; 0; 0; 0;  0; 0; 0; 0;  0; 0; 0; 0].

Definition sample_font (hgt : Z) (frag table : list Z) : ssfn_font_t :=
  image (sample_header hgt ++ frag ++ repeat 0 (16 - length frag) ++ table).

(** Seventeen [0xFF] markers: 17 * 65536 code points skipped, the end of
    every table below. *)
Definition table_end : list Z := repeat 255 17.

(** A glyph record for one fragment stored at byte 32. *)
Definition sample_record (w h adv_x adv_y : Z) : list Z :=
  [0; 1; w; h; adv_x; adv_y;  0; 0;  32; 0; 0].

(** Code point [c] (below 64) mapped to the record, nothing else. *)
Definition table_of (c : Z) (rec : list Z) : list Z :=
  [128 + c - 1] ++ rec ++ table_end.

(** 'A' is code point 65: skip 64, skip 1, record. *)
Definition table_A (rec : list Z) : list Z :=
  [191; 128] ++ rec ++ table_end.

Definition blank : memory := fun _ => 0.
Definition ramp : memory := fun a => a mod 251.

Definition truecolor_console : build := mkbuild TRUECOLOR true.
Definition truecolor_plain : build := mkbuild TRUECOLOR false.

Definition long_skip_font : ssfn_font_t :=
  sample_font 16 [128; 0; 255] ([192; 5] ++ sample_record 8 16 8 0 ++ table_end).

Definition flat_font : ssfn_font_t :=
  sample_font 0 [128; 0; 255] (table_A (sample_record 8 16 8 0)).

Definition tab_font : ssfn_font_t :=
  sample_font 16 [128; 0; 0] (table_of 9 (sample_record 8 16 0 0)).


(** A font without any glyph, and one whose only glyph is the carriage
    return (code point 13), 8 pixels wide. *)
Definition bare_font : ssfn_font_t :=
  sample_font 16 [128; 0; 255] table_end.

Definition cr_font : ssfn_font_t :=
  sample_font 16 [128; 0; 255] (table_of 13 (sample_record 8 16 8 0)).

(** Glyph 'A' with one 8-pixel wide fragment of [rows + 1] rows, the
    payload given byte per row; cell [cw] by 16, advance 8. *)
Definition font_A (cw rows : Z) (payload : list Z) : ssfn_font_t :=
  sample_font 16 ([128; rows] ++ payload) (table_A (sample_record cw 16 8 0)).

Definition screen (x y fg bg : Z) : ssfn_buf_t := buf.mk 4096 16 64 64 x y fg bg.

(** Glyph 'A' in a cell 5 pixels wide and 1 high, its fragment 8 pixels
    wide with bits 0 to 4 set. *)
Definition narrow_font : ssfn_font_t :=
  sample_font 16 [128; 0; 31] (table_A (sample_record 5 1 6 0)).

(** ** The rest of the header file *)

(** [#define SSFN_TYPE_FAMILY(x) ((x)&15)] and
    [#define SSFN_TYPE_STYLE(x) (((x)>>4)&15)], on the font type byte. *)
Definition SSFN_TYPE_FAMILY (x : Z) : Z := Z.land x 15.
Definition SSFN_TYPE_STYLE (x : Z) : Z := Z.land (Z.shiftr x 4) 15.

(** [uint8_t type] of [ssfn_font_t], byte 8 of the packed header. *)
Definition type (f : ssfn_font_t) : Z := load8 f 8.

(** [const char *ssfn_errstr[]], indexed by the negated error code. *)
Local Open Scope string_scope.
Definition ssfn_errstr : list String.string :=
  [String.EmptyString;
   "Memory allocation error";
   "Bad file format";
   "No font face found";
   "Invalid input value";
   "Invalid style";
   "Invalid size";
   "Glyph not found"].
Local Close Scope string_scope.

(** ** Pixel addresses *)

(** The pixel pointer [o] of line 297, for the context the blitter
    starts with. *)
Definition pixel_origin (px : SSFN_PIXEL) (d : ssfn_buf_t) : Z :=
  buf.ptr d + sint (buf.y d * buf.p d) + buf.x d * sizeof px.

(** Address [p] is a whole number of pixels away from [o]. *)
Definition on_grid (px : SSFN_PIXEL) (o p : Z) : Prop :=
  exists k, p = o + k * sizeof px.

(** ** Glyphs without a bitmap *)

(** The size of a fragment reference, [chr[0] & 0x40 ? 6 : 5]. *)
Definition reference_size (font : ssfn_font_t) (chr : Z) : Z :=
  if negb (Z.land (load8 font chr) 0x40 =? 0) then 6 else 5.

(** The two [continue] tests of lines 299 and 302 on the reference at
    [ptr]: the [0xFFFF] sentinel, or a fragment that is not a bitmap. *)
Definition skipped (font : ssfn_font_t) (chr ptr : Z) : bool :=
  (load8 font ptr =? 255) && (load8 font (ptr + 1) =? 255)
  || negb (Z.land (load8 font (fragment_offs font chr ptr)) 0xE0 =? 0x80).

(** The background stores of a whole cell, [ch] rows of [cw] pixels from
    the pixel pointer of the cursor, row by row. *)
Definition cell_fill (px : SSFN_PIXEL) (d : ssfn_buf_t) (s cw ch : Z) : list store :=
  flat_map
    (fun r => map (fun j => mkstore FillRow j (sint (buf.x d + j))
                              (pixel_origin px d + r * (s * sizeof px) + j * sizeof px))
                  (zrange 0 (Z.to_nat cw)))
    (zrange 0 (Z.to_nat ch)).

(** A glyph record without fragments, 3 pixels wide and 2 high, for the
    space (code point 32), and one whose single reference is the sentinel. *)
Definition space_font : ssfn_font_t :=
  sample_font 16 [128; 0; 255] (table_of 32 [0; 0; 3; 2; 4; 0]).

Definition sentinel_font : ssfn_font_t :=
  sample_font 16 [128; 0; 255] (table_of 32 [0; 1; 3; 2; 4; 0; 255; 255; 32; 0; 0]).

(** A font whose tab glyph (code point 9) advances by 8 and has no
    fragment, the tab stop of an 8-pixel wide console font. *)
Definition tab8_font : ssfn_font_t :=
  sample_font 16 [128; 0; 255] (table_of 9 [0; 0; 8; 16; 8; 0]).

(** ** The stores of a glyph, by row and column *)

Section GlyphStores.
Variable px : SSFN_PIXEL.
Variable font : ssfn_font_t.
Variable dst : ssfn_buf_t.
Variables w s chr : Z.

(** The address of the pixel [r] rows below and [c] pixels right of the
    pixel pointer of line 297 ([o += s] per row, [p++] per column). *)
Definition pixel_at (r c : Z) : Z :=
  pixel_origin px dst + r * (s * sizeof px) + c * sizeof px.

(** Fragment reference [idx] of the glyph record at [chr], where the loop
    of line 298 has [ptr] in round [idx]. *)
Definition reference (idx : Z) : Z := chr + 6 + idx * reference_size font chr.

(** Reference [idx] leads to a bitmap fragment that the loop draws. *)
Definition drawn (idx : Z) : Prop :=
  0 <= idx < load8 font (chr + 1) /\
  skipped font chr (reference idx) = false.

(** Bit [l] of row [r] of the bitmap that reference [idx] leads to. *)
Definition fragment_bit (idx r l : Z) : bool :=
  let frg := fragment_offs font chr (reference idx) in
  let k := (Z.land (load8 font frg) 0x1F + 1) * 8 in
  Z.testbit (load8 font (frg + 2 + r * (k / 8) + l / 8)) (l mod 8).

(** [(r, l)] is a pixel of the bitmap that reference [idx] leads to. *)
Definition in_fragment (idx r l : Z) : Prop :=
  let frg := fragment_offs font chr (reference idx) in
  drawn idx /\
  0 <= r <= load8 font (frg + 1) /\
  0 <= l < (Z.land (load8 font frg) 0x1F + 1) * 8.

(** A store of the background fill loops (lines 304-307 and 320-322):
    glyph row [r], column [c] of the declared cell width. *)
Definition fill_store (e : store) : Prop :=
  buf.bg dst <> 0 /\
  exists r c,
    0 <= r /\ in_height dst r = true /\
    0 <= c < load8 font (chr + 2) /\ in_width dst w c = true /\
    e = mkstore FillRow c (sint (buf.x dst + c)) (pixel_at r c).

(** A store of the bitmap loop (lines 310-317): pixel [(r, l)] of the
    fragment of reference [idx], whose first row is drawn on glyph row
    [top]; on a transparent background that is the reference's [ptr[1]]. *)
Definition bit_store (e : store) : Prop :=
  exists idx top r l,
    in_fragment idx r l /\
    0 <= top /\ (buf.bg dst = 0 -> top = load8 font (reference idx + 1)) /\
    in_height dst (top + r) = true /\
    0 <= sint (buf.x dst + l) /\ in_width dst w l = true /\
    (fragment_bit idx r l = false -> buf.bg dst <> 0) /\
    e = mkstore (if fragment_bit idx r l then SetBit else ClearBit)
                l (sint (buf.x dst + l)) (pixel_at (top + r) l).

(** The destination pixel at address [a] lies under a set bit of one of
    the glyph's bitmaps, drawn from the row its reference gives. *)
Definition foreground (a : Z) : Prop :=
  exists idx r l,
    in_fragment idx r l /\ fragment_bit idx r l = true /\
    a = pixel_at (load8 font (reference idx + 1) + r) l.

(** The state of the fragment loop when it reaches a reference: the row
    pointer [o] is [y] rows below the pixel pointer of line 297. *)
Definition row_state (y o : Z) : Prop :=
  0 <= y /\ (buf.bg dst = 0 -> y <= 511) /\
  o = pixel_origin px dst + y * (s * sizeof px).
End GlyphStores.

(** ** Tables of skip markers *)

(** The three skip markers of lines 277-279, with the value they carry. *)
Inductive marker :=
  | SkipBlock
  | SkipLong (j : Z)
  | SkipShort (j : Z).

(** The bytes of a marker in the character table. *)
Definition marker_bytes (k : marker) : list Z :=
  match k with
  | SkipBlock => [0xFF]
  | SkipLong j => [0xC0 + j / 256; j mod 256]
  | SkipShort j => [0x80 + j]
  end.

(** The values a marker can carry: 14 bits less the [0xFF] first byte for
    the long one, 6 bits for the short one. *)
Definition marker_ok (k : marker) : Prop :=
  match k with
  | SkipBlock => True
  | SkipLong j => 0 <= j < 0x3F00
  | SkipShort j => 0 <= j < 64
  end.

(** The code points a marker passes over, the [i++] of the loop included. *)
Definition marker_skips (k : marker) : Z :=
  match k with
  | SkipBlock => 65536
  | SkipLong j => j + 1
  | SkipShort j => j + 1
  end.

Definition markers_skip (ms : list marker) : Z :=
  fold_right (fun k n => marker_skips k + n) 0 ms.

(** The image holds [bytes] from address [a] on. *)
Fixpoint holds (f : memory) (a : Z) (bytes : list Z) : Prop :=
  match bytes with
  | [] => True
  | b :: rest => load8 f a = b /\ holds f (a + 1) rest
  end.

(** A table of three kinds of markers before the closing [0xFF] run. *)
Definition marker_font : ssfn_font_t :=
  sample_font 16 [128; 0; 255]
    (marker_bytes (SkipShort 9) ++ marker_bytes (SkipLong 300) ++ table_end).

(** Glyph 'A' in a cell 20 pixels wide and 2 high, its one-row fragment
    of 8 set bits drawn on glyph row 1. *)
Definition wide_font : ssfn_font_t :=
  sample_font 16 [128; 0; 255] (table_A [0; 1; 20; 2; 8; 0;  0; 1; 32; 0; 0]).
(** ** Basic facts *)

Lemma load8_range (m : memory) (a : Z) : 0 <= load8 m a < 256.
Proof. unfold load8. apply Z.mod_pos_bound. lia. Qed.

Lemma set_x_x (d : ssfn_buf_t) (v : Z) : buf.x (buf.set_x d v) = v.
Proof. reflexivity. Qed.

Lemma set_y_y (d : ssfn_buf_t) (v : Z) : buf.y (buf.set_y d v) = v.
Proof. reflexivity. Qed.

Lemma scroll_on_overflow_idle (d : ssfn_buf_t) (i j : Z) (m : memory) :
  j <= 0 \/ buf.y d <= j -> scroll_on_overflow d i j m = (d, m).
Proof.
  intros H. unfold scroll_on_overflow.
  destruct (j >? 0) eqn:Hj; destruct (buf.y d >? j) eqn:Hy; simpl; try reflexivity.
  lia.
Qed.

Lemma valid_input_font (src : option ssfn_font_t) (dst : ssfn_buf_t) :
  valid_input src dst = true -> exists f, src = Some f.
Proof. destruct src as [f|]; simpl; [eauto | discriminate]. Qed.

(** No entry of the table moves the counter back. *)
Lemma scan_entry_grows (f : ssfn_font_t) (u ptr i ptr' i' : Z) :
  scan_entry f u ptr i = Next ptr' i' -> i <= i'.
Proof.
  unfold scan_entry; cbv zeta.
  pose proof (load8_range f ptr) as Hb. pose proof (load8_range f (ptr + 1)) as Hb1.
  destruct (load8 f ptr =? 255); [intros [= <- <-]; lia|].
  destruct (Z.land (load8 f ptr) 192 =? 192).
  { assert (0 <= Z.lor (Z.shiftl (Z.land (load8 f ptr) 63) 8) (load8 f (ptr + 1))).
    { apply Z.lor_nonneg; split; [|lia].
      apply Z.shiftl_nonneg, Z.land_nonneg. lia. }
    revert H. generalize (Z.lor (Z.shiftl (Z.land (load8 f ptr) 63) 8) (load8 f (ptr + 1))).
    intros j Hj [= <- <-]. lia. }
  destruct (Z.land (load8 f ptr) 192 =? 128).
  { assert (0 <= Z.land (load8 f ptr) 63) as H by (apply Z.land_nonneg; lia).
    revert H. generalize (Z.land (load8 f ptr) 63).
    intros j Hj [= <- <-]. lia. }
  destruct (i =? u); [discriminate|].
  intros [= <- <-]. lia.
Qed.

(** Once the iteration bound covers the distance to [0x110000], more
    iterations change nothing: the bound of [lookup] is never the reason
    the scan stops. *)
Lemma scan_bound_enough (n : nat) : forall (f : ssfn_font_t) (u ptr i : Z),
  0x110000 - i <= Z.of_nat n -> scan (S n) f u ptr i = scan n f u ptr i.
Proof.
  induction n as [|n IH]; intros f u ptr i Hn.
  - simpl. destruct (i <? 1114112) eqn:Hi; [lia | reflexivity].
  - change (scan (S (S n)) f u ptr i)
      with (if i <? 0x110000 then
              match scan_entry f u ptr i with
              | Found chr => Some chr
              | Next ptr' i' => scan (S n) f u ptr' (i' + 1)
              end
            else None).
    change (scan (S n) f u ptr i)
      with (if i <? 0x110000 then
              match scan_entry f u ptr i with
              | Found chr => Some chr
              | Next ptr' i' => scan n f u ptr' (i' + 1)
              end
            else None).
    destruct (i <? 1114112); [|reflexivity].
    destruct (scan_entry f u ptr i) as [chr|ptr' i'] eqn:Hs; [reflexivity|].
    apply IH. apply scan_entry_grows in Hs. lia.
Qed.

(** ** Invalid input *)

(** C7: a null font pointer, a magic byte other than 'S','F','N','2', a
    null destination pointer or a zero pitch makes [ssfn_putc] return
    [SSFN_ERR_INVINP] whatever the character table holds; the context, the
    frame buffer and the cursor are those of the caller and nothing is
    painted. *)
Theorem invalid_input_rejected (b : build) (src : option ssfn_font_t)
    (dst : ssfn_buf_t) (m : memory) (u : Z) :
  src = None \/
  (exists f, src = Some f /\
     (magic f 0 <> 83 \/ magic f 1 <> 70 \/ magic f 2 <> 78 \/ magic f 3 <> 50)) \/
  buf.ptr dst = 0 \/ buf.p dst = 0 ->
  ssfn_putc b src dst m u = Ret SSFN_ERR_INVINP dst m [].
Proof.
  intros H. unfold ssfn_putc.
  destruct src as [f|]; [|reflexivity].
  replace (valid_input (Some f) dst) with false; [reflexivity|].
  symmetry. simpl.
  destruct H as [H | [(f' & [= <-] & H) | [H | H]]].
  - discriminate.
  - destruct (magic f 0 =? 83) eqn:E0; [|reflexivity].
    destruct (magic f 1 =? 70) eqn:E1; [|reflexivity].
    destruct (magic f 2 =? 78) eqn:E2; [|reflexivity].
    destruct (magic f 3 =? 50) eqn:E3; [|reflexivity].
    apply Z.eqb_eq in E0, E1, E2, E3. lia.
  - rewrite H. apply andb_false_iff. left. apply andb_false_iff. right. reflexivity.
  - rewrite H. apply andb_false_iff. right. reflexivity.
Qed.

Lemma invalid_input_rejected_witness :
  ssfn_putc truecolor_console
    (Some (image [83; 70; 78; 49])) (buf.mk 4096 16 16 64 3 5 1 2) ramp 65
  = Ret SSFN_ERR_INVINP (buf.mk 4096 16 16 64 3 5 1 2) ramp [].
Proof.
  apply invalid_input_rejected.
  right; left. exists (image [83; 70; 78; 49]). split; [reflexivity|].
  right; right; right. vm_compute. discriminate.
Defined.

(** ** Division by zero in the control block *)

(** Lines 284-288 fail only on the [%] of the tab stop. *)
Lemma advance_trap (f : ssfn_font_t) (dst : ssfn_buf_t) (u : Z) (chr : option Z) (w i : Z) :
  advance f dst u chr w i = None <->
  u = 9 /\ w <> 0 /\ exists c, chr = Some c /\ load8 f (c + 4) = 0.
Proof.
  unfold advance, wrap_cursor.
  destruct chr as [c|].
  2:{ split; [discriminate | intros (_ & _ & c & [=] & _)]. }
  destruct (w =? 0) eqn:Hw; simpl negb; cbv iota.
  { apply Z.eqb_eq in Hw. split; [discriminate | intros (_ & H & _); contradiction]. }
  apply Z.eqb_neq in Hw.
  destruct (u =? 9) eqn:Hu.
  - apply Z.eqb_eq in Hu.
    destruct (load8 f (c + 4) =? 0) eqn:Ha.
    + apply Z.eqb_eq in Ha. split; [|reflexivity].
      intros _. repeat split; auto. exists c. auto.
    + apply Z.eqb_neq in Ha. split.
      * destruct (sint _ >? w); discriminate.
      * intros (_ & _ & c' & [= <-] & H). contradiction.
  - apply Z.eqb_neq in Hu. split.
    + destruct (sint _ >? w); discriminate.
    + intros (H & _). contradiction.
Qed.

Lemma finish_returns (b : build) (f : ssfn_font_t) (u : Z) (chr : option Z)
    (d : ssfn_buf_t) (m : memory) :
  finish b f u chr d m <> Trap.
Proof.
  unfold finish.
  destruct (SSFN_CONSOLEBITMAP_CONTROL b && ((u =? 13) || (u =? 10))); [discriminate|].
  destruct chr; discriminate.
Qed.

(** C10: with the control block compiled in, a call on valid input
    divides by zero exactly when the font's cell height is zero (line 283,
    reached by every such call) or when the code point is a tab whose glyph
    was found, the width is nonzero and the glyph's horizontal advance is
    zero (line 285).  Without the control block no call traps. *)
Theorem modulo_by_zero (b : build) (src : option ssfn_font_t) (dst : ssfn_buf_t)
    (m : memory) (u : Z) :
  ssfn_putc b src dst m u = Trap <->
  exists f, src = Some f /\ valid_input src dst = true /\
    SSFN_CONSOLEBITMAP_CONTROL b = true /\
    (height f = 0 \/
     (u = 9 /\ abs_width dst <> 0 /\
      exists c, lookup f u = Some c /\ load8 f (c + 4) = 0)).
Proof.
  unfold ssfn_putc. destruct src as [f|].
  2:{ split; [discriminate | intros (f & [=] & _)]. }
  destruct (valid_input (Some f) dst) eqn:Hv; simpl negb; cbv iota.
  2:{ split; [discriminate | intros (f' & _ & [=] & _)]. }
  destruct (SSFN_CONSOLEBITMAP_CONTROL b) eqn:Hc.
  2:{ split; [intros H; exfalso; exact (finish_returns _ _ _ _ _ _ H)
             | intros (f' & _ & _ & [=] & _)]. }
  destruct (height f =? 0) eqn:Hh.
  { apply Z.eqb_eq in Hh. split; [|reflexivity].
    intros _. exists f. repeat split; auto. }
  apply Z.eqb_neq in Hh.
  destruct (advance f dst u (lookup f u) (abs_width dst) (height f)) as [d|] eqn:Ha.
  - destruct (scroll_on_overflow d (height f) (last_line dst (height f)) m) as [d' m'].
    split; [intros H; exfalso; exact (finish_returns _ _ _ _ _ _ H)|].
    intros (f' & [= <-] & _ & _ & [H | H]); [contradiction|].
    apply advance_trap with (dst := dst) (i := height f) in H. congruence.
  - apply advance_trap in Ha. split; [|reflexivity].
    intros _. exists f. repeat split; auto.
Qed.

Lemma modulo_by_zero_witness :
  ssfn_putc truecolor_console (Some flat_font) (buf.mk 4096 16 64 64 0 0 1 0) blank 13 = Trap /\
  ssfn_putc truecolor_console (Some tab_font) (buf.mk 4096 16 64 64 0 0 1 0) blank 9 = Trap.
Proof.
  split.
  - apply (proj2 (modulo_by_zero truecolor_console (Some flat_font)
                    (buf.mk 4096 16 64 64 0 0 1 0) blank 13)).
    exists flat_font. repeat split. left. vm_compute. reflexivity.
  - apply (proj2 (modulo_by_zero truecolor_console (Some tab_font)
                    (buf.mk 4096 16 64 64 0 0 1 0) blank 9)).
    exists tab_font. repeat split. right. repeat split.
    + vm_compute. discriminate.
    + exists 49. split; vm_compute; reflexivity.
Defined.

(** ** Line terminators *)

(** C8, as the code has it: for a carriage return or newline on valid
    input (control block compiled in, cell height nonzero) the call returns
    [SSFN_OK] with the cursor x at 0 and paints no glyph, whatever the
    character table holds.  The table has been scanned before: the cursor
    the call leaves is the one lines 284-293 compute from the scan's
    result, with x reset. *)
Theorem line_terminator_returns (b : build) (f : ssfn_font_t) (dst : ssfn_buf_t)
    (m : memory) (u : Z) :
  valid_input (Some f) dst = true ->
  SSFN_CONSOLEBITMAP_CONTROL b = true ->
  height f <> 0 ->
  u = 10 \/ u = 13 ->
  exists d d' m',
    advance f dst u (lookup f u) (abs_width dst) (height f) = Some d /\
    scroll_on_overflow d (height f) (last_line dst (height f)) m = (d', m') /\
    ssfn_putc b (Some f) dst m u = Ret SSFN_OK (buf.set_x d' 0) m' [] /\
    buf.x (buf.set_x d' 0) = 0.
Proof.
  intros Hv Hc Hh Hu. unfold ssfn_putc. rewrite Hv, Hc. simpl negb. cbv iota.
  destruct (height f =? 0) eqn:E; [apply Z.eqb_eq in E; contradiction|].
  destruct (advance f dst u (lookup f u) (abs_width dst) (height f)) as [d|] eqn:Ha.
  2:{ apply advance_trap in Ha. destruct Ha as (H9 & _). lia. }
  destruct (scroll_on_overflow d (height f) (last_line dst (height f)) m) as [d' m'] eqn:Hs.
  exists d, d', m'. repeat split; [exact Hs|].
  unfold finish. rewrite Hc.
  replace ((u =? 13) || (u =? 10)) with true; [reflexivity|].
  destruct Hu as [-> | ->]; reflexivity.
Qed.

Lemma line_terminator_returns_witness :
  exists d d' m',
    advance cr_font (buf.mk 4096 10 64 64 5 0 1 0) 13 (lookup cr_font 13)
            (abs_width (buf.mk 4096 10 64 64 5 0 1 0)) (height cr_font) = Some d /\
    scroll_on_overflow d (height cr_font)
      (last_line (buf.mk 4096 10 64 64 5 0 1 0) (height cr_font)) blank = (d', m') /\
    ssfn_putc truecolor_console (Some cr_font) (buf.mk 4096 10 64 64 5 0 1 0) blank 13
      = Ret SSFN_OK (buf.set_x d' 0) m' [] /\
    buf.x (buf.set_x d' 0) = 0.
Proof.
  apply line_terminator_returns.
  - vm_compute; reflexivity.
  - reflexivity.
  - vm_compute; discriminate.
  - right; reflexivity.
Defined.

(** The scan runs before the control block and its result is used: the
    same carriage return on the same buffer leaves the cursor on another
    line when the table has a glyph for it. *)
Lemma line_terminator_counterexample :
  ssfn_putc truecolor_console (Some bare_font) (buf.mk 4096 10 64 64 5 0 1 0) blank 13
    = Ret SSFN_OK (buf.mk 4096 10 64 64 0 0 1 0) blank [] /\
  ssfn_putc truecolor_console (Some cr_font) (buf.mk 4096 10 64 64 5 0 1 0) blank 13
    = Ret SSFN_OK (buf.mk 4096 10 64 64 0 16 1 0) blank [].
Proof. split; vm_compute; reflexivity. Qed.

(** ** Missing glyphs *)

(** C2, as the code has it: for a code point the table does not hold,
    [ssfn_putc] returns [SSFN_ERR_NOGLYPH] and leaves the context, the
    cursor and the frame buffer as they were when the control block is not
    compiled in, and also when it is, provided the code point is neither
    newline nor carriage return, the cell height is nonzero and no scroll
    is due ([j <= 0] or [y <= j] for [j] of line 283). *)
Theorem missing_glyph (b : build) (f : ssfn_font_t) (dst : ssfn_buf_t)
    (m : memory) (u : Z) :
  valid_input (Some f) dst = true ->
  lookup f u = None ->
  SSFN_CONSOLEBITMAP_CONTROL b = false \/
  (u <> 10 /\ u <> 13 /\ height f <> 0 /\
   (last_line dst (height f) <= 0 \/ buf.y dst <= last_line dst (height f))) ->
  ssfn_putc b (Some f) dst m u = Ret SSFN_ERR_NOGLYPH dst m [].
Proof.
  intros Hv Hl Hc. unfold ssfn_putc. rewrite Hv, Hl. simpl negb. cbv iota.
  destruct (SSFN_CONSOLEBITMAP_CONTROL b) eqn:E.
  - destruct Hc as [Hc | (H10 & H13 & Hh & Hj)]; [discriminate|].
    destruct (height f =? 0) eqn:Eh; [apply Z.eqb_eq in Eh; contradiction|].
    unfold advance.
    replace (u =? 10) with false by (symmetry; apply Z.eqb_neq; assumption).
    rewrite scroll_on_overflow_idle by assumption.
    unfold finish.
    replace (u =? 10) with false by (symmetry; apply Z.eqb_neq; assumption).
    replace (u =? 13) with false by (symmetry; apply Z.eqb_neq; assumption).
    rewrite andb_false_r. reflexivity.
  - unfold finish. rewrite E. reflexivity.
Qed.

Lemma missing_glyph_witness :
  ssfn_putc truecolor_console (Some bare_font) (buf.mk 4096 16 64 64 8 16 1 2) ramp 65
  = Ret SSFN_ERR_NOGLYPH (buf.mk 4096 16 64 64 8 16 1 2) ramp [].
Proof.
  apply missing_glyph.
  - vm_compute; reflexivity.
  - vm_compute; reflexivity.
  - right. repeat split; try (vm_compute; discriminate).
    right. vm_compute. discriminate.
Defined.

(** With the control block compiled in, a newline the table does not hold
    returns [SSFN_OK] and moves the cursor, and a missing glyph asked for
    with the cursor below the last line scrolls the buffer. *)
Lemma missing_glyph_counterexample :
  lookup bare_font 10 = None /\
  ssfn_putc truecolor_console (Some bare_font) (buf.mk 4096 16 64 64 8 16 1 2) ramp 10
    = Ret SSFN_OK (buf.mk 4096 16 64 64 0 32 1 2) ramp [] /\
  lookup bare_font 65 = None /\
  ssfn_putc truecolor_console (Some bare_font) (buf.mk 4096 16 32 64 8 20 1 2) ramp 65
    = Ret SSFN_ERR_NOGLYPH (buf.mk 4096 16 32 64 8 16 1 2)
        (scroll 16 (buf.mk 4096 16 32 64 8 20 1 2) 16 16 0 ramp) [] /\
  scroll 16 (buf.mk 4096 16 32 64 8 20 1 2) 16 16 0 ramp 4096 = 100 /\
  ramp 4096 = 80.
Proof.
  split; [vm_compute; reflexivity|].
  split; [reflexivity|].
  split; [vm_compute; reflexivity|].
  split; [reflexivity|].
  split; vm_compute; reflexivity.
Qed.

(** ** The fragment loop against the bitmap by index *)

Lemma land_pow2_testbit (b q : Z) :
  0 <= q -> (Z.land b (2 ^ q) =? 0) = negb (Z.testbit b q).
Proof.
  intros Hq. destruct (Z.testbit b q) eqn:E; simpl.
  - apply Z.eqb_neq. intros H0.
    assert (H1 : Z.testbit (Z.land b (2 ^ q)) q = false) by (rewrite H0; apply Z.bits_0).
    rewrite Z.land_spec, E, Z.pow2_bits_true in H1 by lia. discriminate.
  - apply Z.eqb_eq. apply Z.bits_inj'. intros n Hn.
    rewrite Z.land_spec, Z.bits_0.
    destruct (Z.eq_dec n q) as [-> | Hne].
    + rewrite E. reflexivity.
    + rewrite Z.pow2_bits_false by lia. apply andb_false_r.
Qed.

Lemma mod8_cases (l : Z) :
  l mod 8 = 0 \/ l mod 8 = 1 \/ l mod 8 = 2 \/ l mod 8 = 3 \/
  l mod 8 = 4 \/ l mod 8 = 5 \/ l mod 8 = 6 \/ l mod 8 = 7.
Proof. pose proof (Z.mod_pos_bound l 8). lia. Qed.

(** The mask doubles from column to column and wraps to the next byte
    after bit 7. *)
Lemma at_column_next (base l frg m : Z) :
  0 <= l ->
  (frg, m) = (base + l / 8, 2 ^ (l mod 8)) ->
  at_column base (l + 1) frg (Z.shiftl m 1).
Proof.
  intros Hl [= -> ->]. unfold at_column.
  rewrite Z.shiftl_mul_pow2 by lia.
  assert (Hd : l = 8 * (l / 8) + l mod 8) by (apply Z.div_mod; lia).
  destruct (mod8_cases l) as [H|[H|[H|[H|[H|[H|[H|H]]]]]]]; rewrite H;
    match goal with
    | |- context [2 ^ ?q * 2 ^ 1] =>
      let v := eval vm_compute in (2 ^ q * 2 ^ 1) in
      change (2 ^ q * 2 ^ 1) with v;
      let c := eval vm_compute in (v >? 128) in
      change (v >? 128) with c; cbv iota
    end;
    f_equal.
  all: try (Z.div_mod_to_equations; lia).
  all: replace ((l + 1) mod 8) with ((l mod 8 + 1) mod 8)
         by (rewrite Z.add_mod_idemp_l by lia; reflexivity);
       rewrite H; reflexivity.
Qed.

Section BitmapRefinement.
Variable px : SSFN_PIXEL.
Variable font : ssfn_font_t.
Variable dst : ssfn_buf_t.
Variables w s : Z.

Lemma bitmap_pixel_bits (base frg m p l : Z) :
  0 <= l ->
  at_column base l frg m ->
  bitmap_pixel font dst w frg m (p + l * sizeof px) l
  = (base + l / 8, 2 ^ (l mod 8), bit_pixel px font dst w base p l).
Proof.
  intros Hl Hat. unfold bitmap_pixel, at_column in *.
  rewrite Hat. unfold bit_pixel.
  rewrite land_pow2_testbit by (pose proof (Z.mod_pos_bound l 8); lia).
  rewrite negb_involutive. reflexivity.
Qed.

Lemma bitmap_row_bits (n : nat) : forall k base frg m p l,
  0 <= l <= k ->
  k - l <= Z.of_nat n ->
  at_column base l frg m ->
  exists frg' m',
    bitmap_row px font dst w n k frg m (p + l * sizeof px) l
    = (frg', m', flat_map (bit_pixel px font dst w base p) (zrange l (Z.to_nat (k - l)))) /\
    at_column base k frg' m'.
Proof.
  induction n as [|n IH]; intros k base frg m p l Hl Hn Hat.
  - assert (l = k) by lia. subst l.
    exists frg, m. rewrite Z.sub_diag. simpl. auto.
  - cbn [bitmap_row].
    destruct (l <? k) eqn:Hlt.
    + apply Z.ltb_lt in Hlt.
      rewrite (bitmap_pixel_bits base) by (lia || assumption).
      destruct (IH k base (base + l / 8) (Z.shiftl (2 ^ (l mod 8)) 1) p (l + 1))
        as (frg' & m' & Hrow & Hat'); [lia | lia | apply at_column_next; [lia | reflexivity] |].
      replace (p + l * sizeof px + sizeof px) with (p + (l + 1) * sizeof px) by ring.
      rewrite Hrow. exists frg', m'. split; [|assumption].
      replace (Z.to_nat (k - l)) with (S (Z.to_nat (k - (l + 1)))) by lia.
      reflexivity.
    + apply Z.ltb_ge in Hlt. assert (l = k) by lia. subst l.
      exists frg, m. rewrite Z.sub_diag. simpl. auto.
Qed.

(** A row of a whole number of bytes leaves the mask and pointer ready for
    the row that follows it in the payload. *)
Lemma at_column_row_end (k base frg m : Z) :
  0 <= k -> k mod 8 = 0 ->
  at_column base k frg m -> at_column (base + k / 8) 0 frg m.
Proof.
  unfold at_column. intros Hk Hm ->. rewrite Hm. f_equal. change (0 / 8) with 0. ring.
Qed.

Lemma bitmap_rows_bits (n : nat) : forall k base frg m y o r,
  0 <= k -> k mod 8 = 0 ->
  at_column (base + r * (k / 8)) 0 frg m ->
  bitmap_rows px font dst w s n k frg m (Z.of_nat n) y (o + r * (s * sizeof px))
  = (y + Z.of_nat (visible_rows dst n y),
     o + (r + Z.of_nat (visible_rows dst n y)) * (s * sizeof px),
     flat_map (bit_row px font dst w s k base o) (zrange r (visible_rows dst n y))).
Proof.
  induction n as [|n IH]; intros k base frg m y o r Hk Hm Hat.
  - cbn [bitmap_rows visible_rows zrange flat_map Z.of_nat].
    rewrite !Z.add_0_r. reflexivity.
  - cbn [bitmap_rows visible_rows].
    replace (Z.of_nat (S n) =? 0) with false by (symmetry; apply Z.eqb_neq; lia).
    simpl negb. cbv iota. rewrite andb_true_l.
    destruct (in_height dst y) eqn:Hin.
    + destruct (bitmap_row_bits (Z.to_nat k) k (base + r * (k / 8)) frg m
                  (o + r * (s * sizeof px)) 0)
        as (frg' & m' & Hrow & Hat'); [lia | lia | assumption |].
      rewrite Z.mul_0_l, Z.add_0_r, Z.sub_0_r in Hrow. rewrite Hrow.
      replace (Z.of_nat (S n) - 1) with (Z.of_nat n) by lia.
      replace (o + r * (s * sizeof px) + s * sizeof px)
        with (o + (r + 1) * (s * sizeof px)) by ring.
      rewrite (IH k base frg' m' (y + 1) o (r + 1)); try assumption.
      2:{ replace (base + (r + 1) * (k / 8)) with (base + r * (k / 8) + k / 8) by ring.
          apply at_column_row_end; assumption. }
      cbn [zrange flat_map]. rewrite Nat2Z.inj_succ. unfold Z.succ.
      f_equal. f_equal; ring.
    + cbn [zrange flat_map Z.of_nat]. rewrite !Z.add_0_r. reflexivity.
Qed.

(** The loop as line 310 enters it: mask 1 on the first payload byte. *)
Lemma bitmap_rows_from_start (k j base y o : Z) :
  0 <= k -> k mod 8 = 0 -> 0 <= j ->
  bitmap_rows px font dst w s (Z.to_nat j) k base 1 j y o
  = (y + Z.of_nat (visible_rows dst (Z.to_nat j) y),
     o + Z.of_nat (visible_rows dst (Z.to_nat j) y) * (s * sizeof px),
     bit_rows px font dst w s k base o (visible_rows dst (Z.to_nat j) y)).
Proof.
  intros Hk Hm Hj.
  pose proof (bitmap_rows_bits (Z.to_nat j) k base base 1 y o 0 Hk Hm) as H.
  rewrite Z2Nat.id in H by assumption.
  replace (o + 0 * (s * sizeof px)) with o in H by ring.
  rewrite H; [reflexivity|].
  unfold at_column. change (0 / 8) with 0. rewrite Z.mul_0_l, !Z.add_0_r. reflexivity.
Qed.

(** The row width [k] of line 309 is a positive whole number of bytes. *)
Lemma row_width_bytes (d : Z) :
  0 <= d < 256 ->
  Z.shiftl (Z.land d 0x1F + 1) 3 = (Z.land d 0x1F + 1) * 8 /\
  8 <= (Z.land d 0x1F + 1) * 8 <= 256 /\
  ((Z.land d 0x1F + 1) * 8) mod 8 = 0.
Proof.
  intros Hd. rewrite Z.shiftl_mul_pow2 by lia. change (2 ^ 3) with 8.
  assert (0 <= Z.land d 31 < 32).
  { change 31 with (Z.ones 5). rewrite Z.land_ones by lia.
    apply Z.mod_pos_bound. lia. }
  repeat split; try lia. apply Z.mod_mul. lia.
Qed.
End BitmapRefinement.

(** ** Bit order and size of a bitmap fragment *)

(** C1, as the code has it: lines 309-317 store, for the rows the
    destination height lets through, exactly the stores of [bit_rows]:
    pixel [l] of a row is decided by bit [l mod 8] of payload byte [l / 8]
    of that row, counted from the least significant bit, so the least
    significant bit is the leftmost of a byte's 8 pixels.  A set bit is a
    [SetBit] store (the foreground color); a clear bit is a [ClearBit]
    store (the background color) when the background is nonzero and no
    store at all when it is 0. *)
Theorem bitmap_rows_lsb_first (px : SSFN_PIXEL) (font : ssfn_font_t) (dst : ssfn_buf_t)
    (w s frg y o : Z) :
  let k := Z.shiftl (Z.land (load8 font frg) 0x1F + 1) 3 in
  let j := load8 font (frg + 1) + 1 in
  let rows := visible_rows dst (Z.to_nat j) y in
  bitmap_rows px font dst w s (Z.to_nat j) k (frg + 2) 1 j y o
  = (y + Z.of_nat rows, o + Z.of_nat rows * (s * sizeof px),
     bit_rows px font dst w s k (frg + 2) o rows).
Proof.
  intros k j rows.
  pose proof (load8_range font frg) as Hd.
  pose proof (load8_range font (frg + 1)) as Hr.
  destruct (row_width_bytes (load8 font frg) Hd) as (Hk & Hk8 & Hkm).
  fold k in Hk.
  apply bitmap_rows_from_start; [lia | rewrite Hk; assumption | unfold j; lia].
Qed.

(** A payload byte [0x80] paints the rightmost of its 8 pixels, a byte
    [0x01] the leftmost. *)
Lemma bit_order_counterexample :
  Z.testbit (load8 (font_A 8 0 [128]) 34) 7 = true /\
  ssfn_putc truecolor_plain (Some (font_A 8 0 [128])) (screen 0 0 16777215 0) blank 65
    = Ret SSFN_OK (screen 8 0 16777215 0)
        (commit TRUECOLOR (screen 0 0 16777215 0) [mkstore SetBit 7 7 (4096 + 7 * 4)] blank)
        [mkstore SetBit 7 7 (4096 + 7 * 4)] /\
  load_pixel TRUECOLOR
    (commit TRUECOLOR (screen 0 0 16777215 0) [mkstore SetBit 7 7 (4096 + 7 * 4)] blank)
    4096 = 0 /\
  load_pixel TRUECOLOR
    (commit TRUECOLOR (screen 0 0 16777215 0) [mkstore SetBit 7 7 (4096 + 7 * 4)] blank)
    (4096 + 7 * 4) = 16777215 /\
  Z.testbit (load8 (font_A 8 0 [1]) 34) 0 = true /\
  ssfn_putc truecolor_plain (Some (font_A 8 0 [1])) (screen 0 0 16777215 0) blank 65
    = Ret SSFN_OK (screen 8 0 16777215 0)
        (commit TRUECOLOR (screen 0 0 16777215 0) [mkstore SetBit 0 0 4096] blank)
        [mkstore SetBit 0 0 4096] /\
  load_pixel TRUECOLOR
    (commit TRUECOLOR (screen 0 0 16777215 0) [mkstore SetBit 0 0 4096] blank) 4096
  = 16777215.
Proof.
  split; [vm_compute; reflexivity|].
  split; [reflexivity|].
  split; [vm_compute; reflexivity|].
  split; [vm_compute; reflexivity|].
  split; [vm_compute; reflexivity|].
  split; [reflexivity|].
  vm_compute; reflexivity.
Qed.

Lemma visible_rows_all (dst : ssfn_buf_t) (n : nat) : forall y,
  (forall r, 0 <= r < Z.of_nat n -> in_height dst (y + r) = true) ->
  visible_rows dst n y = n.
Proof.
  induction n as [|n IH]; intros y H; [reflexivity|].
  cbn [visible_rows].
  replace (in_height dst y) with true by (symmetry; rewrite <- (Z.add_0_r y); apply H; lia).
  f_equal. apply IH. intros r Hr.
  replace (y + 1 + r) with (y + (r + 1)) by ring. apply H. lia.
Qed.

Lemma length_zrange (n : nat) : forall a, length (zrange a n) = n.
Proof. induction n as [|n IH]; intros a; simpl; [reflexivity | f_equal; apply IH]. Qed.

Lemma in_zrange (n : nat) : forall a z, In z (zrange a n) -> a <= z < a + Z.of_nat n.
Proof.
  induction n as [|n IH]; intros a z; simpl; [contradiction|].
  intros [<- | H]; [lia | apply IH in H; lia].
Qed.

Lemma length_flat_map_const {A B : Type} (f : A -> list B) (c : nat) (l : list A) :
  (forall a, In a l -> length (f a) = c) ->
  length (flat_map f l) = (length l * c)%nat.
Proof.
  induction l as [|a l IH]; intros H; simpl; [reflexivity|].
  rewrite length_app, H, IH; [reflexivity | | left; reflexivity].
  intros a' Ha'. apply H. right. assumption.
Qed.

(** With an opaque background and every column inside the width, a row
    stores one pixel per column. *)
Lemma length_bit_row (px : SSFN_PIXEL) (font : ssfn_font_t) (dst : ssfn_buf_t)
    (w s k base o r : Z) :
  buf.bg dst <> 0 ->
  (forall l, 0 <= l < k -> 0 <= sint (buf.x dst + l) /\ in_width dst w l = true) ->
  length (bit_row px font dst w s k base o r) = Z.to_nat k.
Proof.
  intros Hbg Hin. unfold bit_row.
  rewrite (length_flat_map_const _ 1%nat).
  - rewrite length_zrange. lia.
  - intros l Hl. apply in_zrange in Hl.
    destruct (Z_le_gt_dec k 0) as [Hk | Hk].
    { replace (Z.to_nat k) with O in Hl by lia. simpl in Hl. lia. }
    destruct (Hin l) as (H0 & Hw); [lia|].
    unfold bit_pixel. rewrite Hw.
    replace (0 <=? sint (buf.x dst + l)) with true by (symmetry; apply Z.leb_le; assumption).
    replace (buf.bg dst =? 0) with false by (symmetry; apply Z.eqb_neq; assumption).
    simpl. destruct (Z.testbit _ _); reflexivity.
Qed.


(** C6, as the code has it: [fragment], lines 303-317, draws the
    fragment's row-count byte plus one rows when the destination height
    clips none of them, each [((descriptor & 0x1F) + 1) * 8] pixels wide.
    With [(y1, o1, fill)] what the rows above the fragment leave (lines
    303-308), the glyph row and the row pointer advance by
    [frg[1] + 1] rows, the stores that follow [fill] are those of
    [frg[1] + 1] bitmap rows of that width read from [frg + 2], and with an
    opaque background and no column clipped that is one store per pixel. *)
Theorem fragment_size (px : SSFN_PIXEL) (font : ssfn_font_t) (dst : ssfn_buf_t)
    (w s chr ptr frg y o y1 o1 : Z) (fill : list store) :
  let lim := load8 font (ptr + 1) in
  let k := (Z.land (load8 font frg) 0x1F + 1) * 8 in
  let rows := load8 font (frg + 1) + 1 in
  (if negb (buf.bg dst =? 0)
   then fill_rows px dst w s (Z.to_nat (lim - y)) lim (load8 font (chr + 2)) y o
   else (lim, o + sint (sint (lim - y) * s) * sizeof px, [])) = (y1, o1, fill) ->
  (forall r, 0 <= r < rows -> in_height dst (y1 + r) = true) ->
  fragment px font dst w s chr ptr frg y o
  = (y1 + rows, o1 + rows * (s * sizeof px),
     fill ++ bit_rows px font dst w s k (frg + 2) o1 (Z.to_nat rows)) /\
  (buf.bg dst <> 0 ->
   (forall l, 0 <= l < k -> 0 <= sint (buf.x dst + l) /\ in_width dst w l = true) ->
   Z.of_nat (length (bit_rows px font dst w s k (frg + 2) o1 (Z.to_nat rows))) = rows * k).
Proof.
  intros lim k rows Hpre Hvis.
  pose proof (load8_range font frg) as Hd.
  pose proof (load8_range font (frg + 1)) as Hr.
  destruct (row_width_bytes (load8 font frg) Hd) as (Hk & Hk8 & Hkm).
  fold k in Hk, Hk8, Hkm.
  split.
  - unfold fragment. fold lim. rewrite Hpre. rewrite Hk. fold rows.
    rewrite (bitmap_rows_from_start px font dst w s k rows (frg + 2) y1 o1)
      by (try assumption; unfold rows; lia).
    rewrite visible_rows_all by (intros r Hr'; apply Hvis; lia).
    rewrite Z2Nat.id by (unfold rows; lia). reflexivity.
  - intros Hbg Hin. unfold bit_rows.
    rewrite (length_flat_map_const _ (Z.to_nat k)).
    + rewrite length_zrange. unfold rows. lia.
    + intros r _. apply length_bit_row; assumption.
Qed.

Lemma fragment_size_witness :
  fragment TRUECOLOR (font_A 8 1 [128; 3]) (screen 0 0 5 9) 16 16 50 56 32 0 4096
  = (0 + (load8 (font_A 8 1 [128; 3]) (32 + 1) + 1),
     4096 + (load8 (font_A 8 1 [128; 3]) (32 + 1) + 1) * (16 * sizeof TRUECOLOR),
     [] ++ bit_rows TRUECOLOR (font_A 8 1 [128; 3]) (screen 0 0 5 9) 16 16
             ((Z.land (load8 (font_A 8 1 [128; 3]) 32) 0x1F + 1) * 8) (32 + 2) 4096
             (Z.to_nat (load8 (font_A 8 1 [128; 3]) (32 + 1) + 1))) /\
  (buf.bg (screen 0 0 5 9) <> 0 ->
   (forall l, 0 <= l < (Z.land (load8 (font_A 8 1 [128; 3]) 32) 0x1F + 1) * 8 ->
      0 <= sint (buf.x (screen 0 0 5 9) + l) /\ in_width (screen 0 0 5 9) 16 l = true) ->
   Z.of_nat (length (bit_rows TRUECOLOR (font_A 8 1 [128; 3]) (screen 0 0 5 9) 16 16
                       ((Z.land (load8 (font_A 8 1 [128; 3]) 32) 0x1F + 1) * 8) (32 + 2) 4096
                       (Z.to_nat (load8 (font_A 8 1 [128; 3]) (32 + 1) + 1))))
   = (load8 (font_A 8 1 [128; 3]) (32 + 1) + 1)
     * ((Z.land (load8 (font_A 8 1 [128; 3]) 32) 0x1F + 1) * 8)).
Proof.
  apply (fragment_size TRUECOLOR (font_A 8 1 [128; 3]) (screen 0 0 5 9) 16 16 50 56 32 0 4096
           0 4096 []).
  - reflexivity.
  - intros r Hr.
    assert (E : load8 (font_A 8 1 [128; 3]) (32 + 1) = 1) by (vm_compute; reflexivity).
    rewrite E in Hr.
    assert (r = 0 \/ r = 1) as [-> | ->] by lia; vm_compute; reflexivity.
Defined.

(** A fragment whose row-count byte is 0 is drawn as one row, and one
    whose row-count byte is 1 as two. *)
Lemma fragment_size_counterexample :
  load8 (font_A 8 0 [255]) 33 = 0 /\
  Z.land (load8 (font_A 8 0 [255]) 32) 0xE0 = 0x80 /\
  ssfn_putc truecolor_plain (Some (font_A 8 0 [255])) (screen 0 0 5 0) blank 65
  = Ret SSFN_OK (screen 8 0 5 0)
      (commit TRUECOLOR (screen 0 0 5 0)
         [mkstore SetBit 0 0 4096; mkstore SetBit 1 1 4100; mkstore SetBit 2 2 4104;
          mkstore SetBit 3 3 4108; mkstore SetBit 4 4 4112; mkstore SetBit 5 5 4116;
          mkstore SetBit 6 6 4120; mkstore SetBit 7 7 4124] blank)
      [mkstore SetBit 0 0 4096; mkstore SetBit 1 1 4100; mkstore SetBit 2 2 4104;
       mkstore SetBit 3 3 4108; mkstore SetBit 4 4 4112; mkstore SetBit 5 5 4116;
       mkstore SetBit 6 6 4120; mkstore SetBit 7 7 4124] /\
  load8 (font_A 8 1 [1; 1]) 33 = 1 /\
  ssfn_putc truecolor_plain (Some (font_A 8 1 [1; 1])) (screen 0 0 5 0) blank 65
  = Ret SSFN_OK (screen 8 0 5 0)
      (commit TRUECOLOR (screen 0 0 5 0)
         [mkstore SetBit 0 0 4096; mkstore SetBit 0 0 (4096 + 64)] blank)
      [mkstore SetBit 0 0 4096; mkstore SetBit 0 0 (4096 + 64)].
Proof.
  split; [vm_compute; reflexivity|].
  split; [vm_compute; reflexivity|].
  split; [reflexivity|].
  split; [vm_compute; reflexivity|].
  reflexivity.
Qed.

(** ** What every store of a glyph satisfies *)

Section StoreInvariant.
Variable px : SSFN_PIXEL.
Variable font : ssfn_font_t.
Variable dst : ssfn_buf_t.
Variables w s cw : Z.
Variable P : store -> Prop.

Hypothesis P_fill : buf.bg dst <> 0 -> forall j p,
  0 <= j < cw -> in_width dst w j = true ->
  P (mkstore FillRow j (sint (buf.x dst + j)) p).
Hypothesis P_set : forall l p,
  0 <= l < 256 -> 0 <= sint (buf.x dst + l) -> in_width dst w l = true ->
  P (mkstore SetBit l (sint (buf.x dst + l)) p).
Hypothesis P_clear : buf.bg dst <> 0 -> forall l p,
  0 <= l < 256 -> 0 <= sint (buf.x dst + l) -> in_width dst w l = true ->
  P (mkstore ClearBit l (sint (buf.x dst + l)) p).

Lemma fill_row_inv (Hbg : buf.bg dst <> 0) (n : nat) : forall p j e,
  0 <= j -> In e (fill_row px dst w n cw p j) -> P e.
Proof.
  induction n as [|n IH]; intros p j e Hj; cbn [fill_row]; [contradiction|].
  destruct (j <? cw) eqn:Hlt; [|contradiction].
  destruct (in_width dst w j) eqn:Hin; [|contradiction].
  apply Z.ltb_lt in Hlt. cbn [andb In].
  intros [<- | H].
  - apply P_fill; [assumption | lia | assumption].
  - apply (IH (p + sizeof px) (j + 1)); [lia | assumption].
Qed.

Lemma fill_rows_inv (Hbg : buf.bg dst <> 0) (n : nat) : forall lim y o e,
  In e (snd (fill_rows px dst w s n lim cw y o)) -> P e.
Proof.
  induction n as [|n IH]; intros lim y o e; cbn [fill_rows]; [contradiction|].
  destruct ((y <? lim) && in_height dst y); [|contradiction].
  specialize (IH lim (y + 1) (o + s * sizeof px) e).
  destruct (fill_rows px dst w s n lim cw (y + 1) (o + s * sizeof px)) as [[y' o'] log].
  cbn [snd] in *. intros H. apply in_app_or in H. destruct H as [H | H].
  - apply (fill_row_inv Hbg) in H; [assumption | lia].
  - apply IH. assumption.
Qed.

Lemma bitmap_pixel_inv (frg m p l : Z) (e : store) :
  0 <= l < 256 -> In e (snd (bitmap_pixel font dst w frg m p l)) -> P e.
Proof.
  intros Hl. unfold bitmap_pixel.
  destruct (m >? 128); cbn [snd];
    (destruct (0 <=? sint (buf.x dst + l)) eqn:H0; [|contradiction];
     destruct (in_width dst w l) eqn:Hin; [|contradiction];
     apply Z.leb_le in H0; cbn [andb];
     match goal with |- context [negb (Z.land ?a ?b =? 0)] =>
       destruct (negb (Z.land a b =? 0)) end;
     [ intros [<- | []]; apply P_set; assumption |];
     destruct (buf.bg dst =? 0) eqn:Hbg; [contradiction|];
     apply Z.eqb_neq in Hbg; cbn [negb];
     intros [<- | []]; apply P_clear; assumption).
Qed.

Lemma bitmap_row_inv (n : nat) : forall k frg m p l e,
  k <= 256 -> 0 <= l ->
  In e (snd (bitmap_row px font dst w n k frg m p l)) -> P e.
Proof.
  induction n as [|n IH]; intros k frg m p l e Hk Hl; cbn [bitmap_row]; [contradiction|].
  destruct (l <? k) eqn:Hlt; [|contradiction].
  apply Z.ltb_lt in Hlt.
  pose proof (bitmap_pixel_inv frg m p l e) as Hpix.
  destruct (bitmap_pixel font dst w frg m p l) as [[frg1 m1] here].
  specialize (IH k frg1 (Z.shiftl m1 1) (p + sizeof px) (l + 1) e).
  destruct (bitmap_row px font dst w n k frg1 (Z.shiftl m1 1) (p + sizeof px) (l + 1))
    as [[frg' m'] log].
  cbn [snd] in *. intros H. apply in_app_or in H. destruct H as [H | H].
  - apply Hpix; [lia | assumption].
  - apply IH; [assumption | lia | assumption].
Qed.

Lemma bitmap_rows_inv (n : nat) : forall k frg m j y o e,
  k <= 256 ->
  In e (snd (bitmap_rows px font dst w s n k frg m j y o)) -> P e.
Proof.
  induction n as [|n IH]; intros k frg m j y o e Hk; cbn [bitmap_rows]; [contradiction|].
  destruct (negb (j =? 0) && in_height dst y); [|contradiction].
  pose proof (bitmap_row_inv (Z.to_nat k) k frg m o 0 e Hk (Z.le_refl 0)) as Hrow.
  destruct (bitmap_row px font dst w (Z.to_nat k) k frg m o 0) as [[frg' m'] row].
  specialize (IH k frg' m' (j - 1) (y + 1) (o + s * sizeof px) e Hk).
  destruct (bitmap_rows px font dst w s n k frg' m' (j - 1) (y + 1) (o + s * sizeof px))
    as [[y' o'] log].
  cbn [snd] in *. intros H. apply in_app_or in H. destruct H as [H | H]; auto.
Qed.

Lemma fragment_inv (chr ptr frg y o : Z) (e : store) :
  cw = load8 font (chr + 2) ->
  In e (snd (fragment px font dst w s chr ptr frg y o)) -> P e.
Proof.
  intros Hcw. unfold fragment.
  pose proof (load8_range font frg) as Hd.
  destruct (row_width_bytes (load8 font frg) Hd) as (Hk & Hk8 & _).
  set (k := Z.shiftl (Z.land (load8 font frg) 31 + 1) 3) in *.
  assert (Hfill : forall y1 o1 log1,
    (if negb (buf.bg dst =? 0)
     then fill_rows px dst w s (Z.to_nat (load8 font (ptr + 1) - y))
            (load8 font (ptr + 1)) (load8 font (chr + 2)) y o
     else (load8 font (ptr + 1),
           o + sint (sint (load8 font (ptr + 1) - y) * s) * sizeof px, []))
    = (y1, o1, log1) -> In e log1 -> P e).
  { intros y1 o1 log1. destruct (buf.bg dst =? 0) eqn:Hbg; cbn [negb].
    - intros [= _ _ <-] [].
    - apply Z.eqb_neq in Hbg. rewrite <- Hcw. intros Heq Hin.
      apply (fill_rows_inv Hbg (Z.to_nat (load8 font (ptr + 1) - y))
               (load8 font (ptr + 1)) y o e).
      rewrite Heq. assumption. }
  destruct (if negb (buf.bg dst =? 0) then _ else _) as [[y1 o1] log1].
  pose proof (bitmap_rows_inv (Z.to_nat (load8 font (frg + 1) + 1)) k (frg + 2) 1
                (load8 font (frg + 1) + 1) y1 o1 e) as Hrows.
  destruct (bitmap_rows px font dst w s (Z.to_nat (load8 font (frg + 1) + 1)) k (frg + 2) 1
              (load8 font (frg + 1) + 1) y1 o1) as [[y2 o2] log2].
  cbn [snd] in *. intros H. apply in_app_or in H. destruct H as [H | H].
  - apply (Hfill y1 o1 log1 eq_refl H).
  - apply Hrows; [lia | assumption].
Qed.

Lemma fragments_inv (n : nat) : forall chr ptr y o e,
  cw = load8 font (chr + 2) ->
  In e (snd (fragments px font dst w s n chr ptr y o)) -> P e.
Proof.
  induction n as [|n IH]; intros chr ptr y o e Hcw; cbn [fragments]; [contradiction|].
  destruct ((load8 font ptr =? 255) && (load8 font (ptr + 1) =? 255)); [apply IH; assumption|].
  destruct (negb (Z.land (load8 font (fragment_offs font chr ptr)) 224 =? 128));
    [apply IH; assumption|].
  pose proof (fragment_inv chr ptr (fragment_offs font chr ptr) y o e Hcw) as Hfrag.
  destruct (fragment px font dst w s chr ptr (fragment_offs font chr ptr) y o)
    as [[y1 o1] log1].
  match goal with
  | |- context [fragments px font dst w s n chr ?nx y1 o1] =>
    specialize (IH chr nx y1 o1 e Hcw);
    destruct (fragments px font dst w s n chr nx y1 o1) as [[y2 o2] log2]
  end.
  cbn [snd] in *. intros H. apply in_app_or in H. destruct H as [H | H]; auto.
Qed.

Lemma glyph_inv (chr : Z) (e : store) :
  cw = load8 font (chr + 2) ->
  In e (glyph px font dst w s chr) -> P e.
Proof.
  intros Hcw. unfold glyph.
  match goal with
  | |- context [fragments px font dst w s ?n chr ?pt 0 ?o] =>
    pose proof (fragments_inv n chr pt 0 o e Hcw) as Hfr;
    destruct (fragments px font dst w s n chr pt 0 o) as [[y o1] log]
  end.
  cbn [snd] in Hfr.
  destruct (buf.bg dst =? 0) eqn:Hbg; cbn [negb]; [assumption|].
  apply Z.eqb_neq in Hbg.
  intros H. apply in_app_or in H. destruct H as [H | H]; [auto|].
  rewrite <- Hcw in H. apply (fill_rows_inv Hbg) in H. assumption.
Qed.
End StoreInvariant.

(** ** The shape of a returning call *)

Lemma advance_frame (f : ssfn_font_t) (dst d : ssfn_buf_t) (u : Z) (chr : option Z) (w i : Z) :
  advance f dst u chr w i = Some d -> frame_of d = frame_of dst.
Proof.
  unfold advance, wrap_cursor.
  destruct chr as [c|].
  - destruct (negb (w =? 0)).
    + destruct (u =? 9) eqn:E9.
      * destruct (load8 f (c + 4) =? 0); [discriminate|].
        destruct (sint _ >? w); destruct (u =? 10); intros [= <-]; reflexivity.
      * destruct (sint _ >? w); destruct (u =? 10); intros [= <-]; reflexivity.
    + destruct (u =? 10); intros [= <-]; reflexivity.
  - destruct (u =? 10); intros [= <-]; reflexivity.
Qed.

Lemma scroll_on_overflow_frame (d d' : ssfn_buf_t) (i j : Z) (m m' : memory) :
  scroll_on_overflow d i j m = (d', m') -> frame_of d' = frame_of d.
Proof.
  unfold scroll_on_overflow.
  destruct ((j >? 0) && (buf.y d >? j)); intros [= <- _]; reflexivity.
Qed.

Lemma frame_of_abs_width (d d' : ssfn_buf_t) :
  frame_of d = frame_of d' -> abs_width d = abs_width d'.
Proof. unfold frame_of, abs_width. intros [= _ -> _ _ _ _]. reflexivity. Qed.

Lemma frame_of_bg (d d' : ssfn_buf_t) :
  frame_of d = frame_of d' -> buf.bg d = buf.bg d'.
Proof. unfold frame_of. intros [= _ _ _ _ _ ->]. reflexivity. Qed.

Lemma ssfn_putc_invalid (b : build) (src : option ssfn_font_t) (dst : ssfn_buf_t)
    (m : memory) (u : Z) :
  valid_input src dst = false -> ssfn_putc b src dst m u = Ret SSFN_ERR_INVINP dst m [].
Proof.
  intros H. unfold ssfn_putc. destruct src; [rewrite H|]; reflexivity.
Qed.

(** A call on valid input that returns has gone through the control block
    (if compiled in), which left a context [d1] and a memory [m1], and then
    either stored nothing or blitted the glyph of the code point on them. *)
Lemma ssfn_putc_blit (b : build) (f : ssfn_font_t) (dst : ssfn_buf_t) (m : memory) (u : Z)
    (status : Z) (d' : ssfn_buf_t) (m' : memory) (log : list store) :
  valid_input (Some f) dst = true ->
  ssfn_putc b (Some f) dst m u = Ret status d' m' log ->
  exists d1 m1,
    frame_of d1 = frame_of dst /\
    (if SSFN_CONSOLEBITMAP_CONTROL b
     then exists d,
            advance f dst u (lookup f u) (abs_width dst) (height f) = Some d /\
            scroll_on_overflow d (height f) (last_line dst (height f)) m = (d1, m1)
     else d1 = dst /\ m1 = m) /\
    ((log = [] /\ m' = m1) \/
     exists c, lookup f u = Some c /\
       log = glyph (pixel b) f d1 (abs_width d1) (buf.p d1 / sizeof (pixel b)) c /\
       m' = commit (pixel b) d1 log m1).
Proof.
  intros Hv. unfold ssfn_putc. rewrite Hv. cbn [negb].
  assert (Hfin : forall d1 m1,
    finish b f u (lookup f u) d1 m1 = Ret status d' m' log ->
    (log = [] /\ m' = m1) \/
    exists c, lookup f u = Some c /\
      log = glyph (pixel b) f d1 (abs_width d1) (buf.p d1 / sizeof (pixel b)) c /\
      m' = commit (pixel b) d1 log m1).
  { intros d1 m1. unfold finish.
    destruct (SSFN_CONSOLEBITMAP_CONTROL b && ((u =? 13) || (u =? 10))).
    - intros [= _ _ <- <-]. left. auto.
    - destruct (lookup f u) as [c|].
      + intros [= _ _ <- <-]. right. exists c. auto.
      + intros [= _ _ <- <-]. left. auto. }
  destruct (SSFN_CONSOLEBITMAP_CONTROL b) eqn:Hc.
  - destruct (height f =? 0); [discriminate|].
    destruct (advance f dst u (lookup f u) (abs_width dst) (height f)) as [d|] eqn:Ha;
      [|discriminate].
    destruct (scroll_on_overflow d (height f) (last_line dst (height f)) m) as [d1 m1] eqn:Hs.
    intros H. exists d1, m1. split; [|split].
    + rewrite (scroll_on_overflow_frame _ _ _ _ _ _ Hs). apply (advance_frame _ _ _ _ _ _ _ Ha).
    + exists d. auto.
    + apply Hfin. assumption.
  - intros H. exists dst, m. split; [reflexivity | split; [auto | apply Hfin; assumption]].
Qed.


(** ** Frame of the pixel stores *)

Lemma store8_other (m : memory) (a v a' : Z) : a' <> a -> store8 m a v a' = m a'.
Proof.
  intros H. unfold store8.
  replace (a' =? a) with false by (symmetry; apply Z.eqb_neq; assumption). reflexivity.
Qed.

Lemma store_le_frame (n : nat) : forall (m : memory) (a v a' : Z),
  ~ (a <= a' < a + Z.of_nat n) -> store_le n m a v a' = m a'.
Proof.
  induction n as [|n IH]; intros m a v a' H; cbn [store_le]; [reflexivity|].
  rewrite IH by lia. apply store8_other. lia.
Qed.

Lemma store_pixel_frame (px : SSFN_PIXEL) (m : memory) (a v a' : Z) :
  ~ (a <= a' < a + sizeof px) -> store_pixel px m a v a' = m a'.
Proof.
  intros H. unfold store_pixel. apply store_le_frame.
  rewrite Z2Nat.id by (destruct px; simpl; lia). assumption.
Qed.

Lemma commit_frame (px : SSFN_PIXEL) (dst : ssfn_buf_t) (log : list store) :
  forall (m : memory) (a : Z),
  (forall e, In e log -> ~ covers px e a) -> commit px dst log m a = m a.
Proof.
  unfold commit, covers.
  induction log as [|e log IH]; intros m a H; cbn [fold_left]; [reflexivity|].
  rewrite IH by (intros e' He'; apply H; right; assumption).
  apply store_pixel_frame. apply H. left. reflexivity.
Qed.

(** A pixel read back after its store is the color reduced to the pixel
    type. *)
Lemma load_store_pixel (px : SSFN_PIXEL) (m : memory) (a v : Z) :
  load_pixel px (store_pixel px m a v) a = v mod 2 ^ (8 * sizeof px).
Proof.
  unfold load_pixel, store_pixel.
  destruct px.
  all: cbn [sizeof].
  all: match goal with |- context [Z.to_nat ?n] =>
         let k := eval vm_compute in (Z.to_nat n) in change (Z.to_nat n) with k end.
  all: cbn [store_le load_le]; unfold load8, store8; rewrite ?Z.shiftr_div_pow2 by lia.
  all: repeat match goal with
    | |- context [?x =? ?y] =>
      first [ replace (x =? y) with true by (symmetry; apply Z.eqb_eq; lia)
            | replace (x =? y) with false by (symmetry; apply Z.eqb_neq; lia) ]
    end.
  all: cbv iota; rewrite ?Z.mod_mod by lia.
  all: change (2 ^ 8) with 256; change (2 ^ (8 * 1)) with 256;
    change (2 ^ (8 * 2)) with 65536; change (2 ^ (8 * 4)) with 4294967296.
  all: Z.div_mod_to_equations; lia.
Qed.


(** ** The scroll copy *)

Lemma sint_small (z : Z) : -2147483648 <= z < 2147483648 -> sint z = z.
Proof. intros H. unfold sint. rewrite Z.mod_small by lia. ring. Qed.

Lemma load8_load8 (m : memory) (a : Z) : load8 m a mod 256 = load8 m a.
Proof. unfold load8. apply Z.mod_mod. lia. Qed.

Section Scroll.
Variable dst : ssfn_buf_t.
Variables i j : Z.

Hypothesis i_pos : 0 < i.
Hypothesis p_pos : 0 < buf.p dst.
Hypothesis in_range : (j + i) * buf.p dst <= 2147483648.

Lemma scroll_index (k l : Z) :
  0 <= k < j -> 0 <= l < buf.p dst ->
  sint (sint (k * buf.p dst) + l) = k * buf.p dst + l /\
  sint (sint (sint (k + i) * buf.p dst) + l) = (k + i) * buf.p dst + l.
Proof.
  intros Hk Hl.
  assert (H1 : (k + i + 1) * buf.p dst <= (j + i) * buf.p dst)
    by (apply Z.mul_le_mono_nonneg_r; lia).
  assert (H2 : 0 <= k * buf.p dst) by (apply Z.mul_nonneg_nonneg; lia).
  assert (H3 : k * buf.p dst <= (k + i) * buf.p dst)
    by (apply Z.mul_le_mono_nonneg_r; lia).
  assert (H4 : k + i <= (k + i) * buf.p dst).
  { rewrite <- (Z.mul_1_r (k + i)) at 1. apply Z.mul_le_mono_nonneg_l; lia. }
  assert (H5 : (k + i + 1) * buf.p dst = (k + i) * buf.p dst + buf.p dst) by ring.
  split.
  - rewrite (sint_small (k * buf.p dst)) by lia. apply sint_small. lia.
  - rewrite (sint_small (k + i)) by lia.
    rewrite (sint_small ((k + i) * buf.p dst)) by lia. apply sint_small. lia.
Qed.

(** One row: bytes [l] to the end of row [k] receive the bytes [i] rows
    below them, the rest of memory is untouched. *)
Lemma scroll_row_spec (n : nat) : forall (k l : Z) (m : memory) (a : Z),
  0 <= k < j -> 0 <= l -> buf.p dst - l <= Z.of_nat n ->
  scroll_row n dst i k l m a =
    if (buf.ptr dst + k * buf.p dst + l <=? a) && (a <? buf.ptr dst + (k + 1) * buf.p dst)
    then load8 m (a + i * buf.p dst)
    else m a.
Proof.
  induction n as [|n IH]; intros k l m a Hk Hl Hn.
  - cbn [scroll_row].
    destruct (buf.ptr dst + k * buf.p dst + l <=? a) eqn:E1;
      destruct (a <? buf.ptr dst + (k + 1) * buf.p dst) eqn:E2; try reflexivity.
    apply Z.leb_le in E1. apply Z.ltb_lt in E2. simpl in Hn. lia.
  - cbn [scroll_row]. destruct (l <? buf.p dst) eqn:Hlt.
    + apply Z.ltb_lt in Hlt.
      destruct (scroll_index k l Hk (conj Hl Hlt)) as (-> & ->).
      rewrite IH by lia.
      assert (Hip : buf.p dst <= i * buf.p dst).
      { rewrite <- (Z.mul_1_l (buf.p dst)) at 1. apply Z.mul_le_mono_nonneg_r; lia. }
      destruct (buf.ptr dst + k * buf.p dst + (l + 1) <=? a) eqn:E1;
        destruct (a <? buf.ptr dst + (k + 1) * buf.p dst) eqn:E2; cbn [andb].
      * apply Z.leb_le in E1. apply Z.ltb_lt in E2.
        replace (buf.ptr dst + k * buf.p dst + l <=? a) with true
          by (symmetry; apply Z.leb_le; lia).
        cbn [andb]. unfold load8 at 1. rewrite store8_other by lia. reflexivity.
      * apply Z.ltb_ge in E2. rewrite andb_false_r. apply store8_other. lia.
      * apply Z.leb_gt in E1. apply Z.ltb_lt in E2.
        destruct (Z.eq_dec a (buf.ptr dst + k * buf.p dst + l)) as [-> | Hne].
        -- rewrite Z.leb_refl. cbn [andb]. unfold store8.
           match goal with |- context [?x =? ?y] =>
             replace (x =? y) with true by (symmetry; apply Z.eqb_eq; ring) end.
           rewrite load8_load8. f_equal. ring.
        -- replace (buf.ptr dst + k * buf.p dst + l <=? a) with false
             by (symmetry; apply Z.leb_gt; lia).
           apply store8_other. lia.
      * apply Z.ltb_ge in E2. rewrite andb_false_r. apply store8_other. lia.
    + apply Z.ltb_ge in Hlt.
      destruct (buf.ptr dst + k * buf.p dst + l <=? a) eqn:E1;
        destruct (a <? buf.ptr dst + (k + 1) * buf.p dst) eqn:E2; try reflexivity.
      apply Z.leb_le in E1. apply Z.ltb_lt in E2. lia.
Qed.

(** All rows from [k] on: every byte of rows [k] to [j - 1] receives the
    byte one cell height below it. *)
Lemma scroll_spec (n : nat) : forall (k : Z) (m : memory) (a : Z),
  0 <= k -> j - k <= Z.of_nat n ->
  scroll n dst i j k m a =
    if (buf.ptr dst + k * buf.p dst <=? a) && (a <? buf.ptr dst + j * buf.p dst)
    then load8 m (a + i * buf.p dst)
    else m a.
Proof.
  induction n as [|n IH]; intros k m a Hk Hn.
  - cbn [scroll].
    destruct (buf.ptr dst + k * buf.p dst <=? a) eqn:E1;
      destruct (a <? buf.ptr dst + j * buf.p dst) eqn:E2; try reflexivity.
    apply Z.leb_le in E1. apply Z.ltb_lt in E2. simpl in Hn.
    assert (j * buf.p dst <= k * buf.p dst) by (apply Z.mul_le_mono_nonneg_r; lia). lia.
  - cbn [scroll]. destruct (k <? j) eqn:Hlt.
    + apply Z.ltb_lt in Hlt.
      rewrite IH by lia.
      assert (Hip : buf.p dst <= i * buf.p dst).
      { rewrite <- (Z.mul_1_l (buf.p dst)) at 1. apply Z.mul_le_mono_nonneg_r; lia. }
      assert (Hk1 : (k + 1) * buf.p dst = k * buf.p dst + buf.p dst) by ring.
      assert (Hkj : (k + 1) * buf.p dst <= j * buf.p dst)
        by (apply Z.mul_le_mono_nonneg_r; lia).
      destruct (buf.ptr dst + (k + 1) * buf.p dst <=? a) eqn:E1;
        destruct (a <? buf.ptr dst + j * buf.p dst) eqn:E2; cbn [andb].
      * apply Z.leb_le in E1. apply Z.ltb_lt in E2.
        replace (buf.ptr dst + k * buf.p dst <=? a) with true
          by (symmetry; apply Z.leb_le; lia).
        cbn [andb]. unfold load8 at 1.
        rewrite scroll_row_spec by lia.
        replace (a + i * buf.p dst <? buf.ptr dst + (k + 1) * buf.p dst) with false
          by (symmetry; apply Z.ltb_ge; lia).
        rewrite andb_false_r. reflexivity.
      * apply Z.ltb_ge in E2. rewrite andb_false_r.
        rewrite scroll_row_spec by lia.
        replace (a <? buf.ptr dst + (k + 1) * buf.p dst) with false
          by (symmetry; apply Z.ltb_ge; lia).
        rewrite andb_false_r. reflexivity.
      * apply Z.leb_gt in E1. apply Z.ltb_lt in E2.
        rewrite scroll_row_spec by lia. rewrite Z.add_0_r.
        replace (a <? buf.ptr dst + (k + 1) * buf.p dst) with true
          by (symmetry; apply Z.ltb_lt; lia).
        rewrite !andb_true_r. reflexivity.
      * apply Z.leb_gt in E1. apply Z.ltb_ge in E2. lia.
    + apply Z.ltb_ge in Hlt.
      destruct (buf.ptr dst + k * buf.p dst <=? a) eqn:E1;
        destruct (a <? buf.ptr dst + j * buf.p dst) eqn:E2; try reflexivity.
      apply Z.leb_le in E1. apply Z.ltb_lt in E2.
      assert (j * buf.p dst <= k * buf.p dst) by (apply Z.mul_le_mono_nonneg_r; lia). lia.
Qed.
End Scroll.

Lemma frame_of_ptr_p (d d' : ssfn_buf_t) :
  frame_of d = frame_of d' -> buf.ptr d = buf.ptr d' /\ buf.p d = buf.p d'.
Proof. unfold frame_of. intros [= -> _ _ -> _ _]. auto. Qed.

(** ** Scroll on overflow *)

(** C3, as the code has it: let [i] be the font's cell height and
    [j = h - i - (h % i)] (line 283), and let the control block have
    advanced the cursor (lines 284-288).  When [j] is positive and the
    cursor y exceeds [j], the call goes on with y set to [j] on a memory
    in which every byte of the first [j] rows holds the byte that was one
    cell height ([i] rows) below it and every other byte is unchanged.
    When [j <= 0] (a destination height below two cell heights) or
    [y <= j], the call goes on with the advanced cursor and the memory
    untouched. *)
Theorem scroll_on_overflow_shift (b : build) (f : ssfn_font_t) (dst : ssfn_buf_t)
    (m : memory) (u : Z) (d : ssfn_buf_t) :
  let i := height f in
  let j := last_line dst i in
  valid_input (Some f) dst = true ->
  SSFN_CONSOLEBITMAP_CONTROL b = true ->
  i <> 0 ->
  advance f dst u (lookup f u) (abs_width dst) i = Some d ->
  (0 < j < buf.y d -> 0 < buf.p dst -> (j + i) * buf.p dst <= 2147483648 ->
   exists m1,
     ssfn_putc b (Some f) dst m u = finish b f u (lookup f u) (buf.set_y d j) m1 /\
     (forall a, buf.ptr dst <= a < buf.ptr dst + j * buf.p dst ->
                m1 a = load8 m (a + i * buf.p dst)) /\
     (forall a, ~ (buf.ptr dst <= a < buf.ptr dst + j * buf.p dst) -> m1 a = m a)) /\
  (j <= 0 \/ buf.y d <= j ->
   ssfn_putc b (Some f) dst m u = finish b f u (lookup f u) d m).
Proof.
  intros i j Hv Hc Hi Ha.
  assert (Hput : ssfn_putc b (Some f) dst m u =
                 let '(d', m') := scroll_on_overflow d i j m in
                 finish b f u (lookup f u) d' m').
  { unfold ssfn_putc. rewrite Hv, Hc. cbn [negb]. fold i.
    replace (i =? 0) with false by (symmetry; apply Z.eqb_neq; assumption).
    rewrite Ha. reflexivity. }
  destruct (frame_of_ptr_p _ _ (advance_frame _ _ _ _ _ _ _ Ha)) as (Hptr & Hp).
  split.
  - intros Hj Hpp Hrange.
    exists (scroll (Z.to_nat j) d i j 0 m). split; [|split].
    + rewrite Hput. unfold scroll_on_overflow.
      replace (j >? 0) with true by (symmetry; apply Z.gtb_lt; lia).
      replace (buf.y d >? j) with true by (symmetry; apply Z.gtb_lt; lia).
      reflexivity.
    + intros a Hin.
      assert (Hi' : 0 < i) by (pose proof (load8_range f 11); unfold i, height in *; lia).
      rewrite (scroll_spec d i j Hi') by (rewrite ?Hp; lia).
      rewrite Hptr, Hp, Z.mul_0_l, Z.add_0_r.
      replace (buf.ptr dst <=? a) with true by (symmetry; apply Z.leb_le; lia).
      replace (a <? buf.ptr dst + j * buf.p dst) with true by (symmetry; apply Z.ltb_lt; lia).
      reflexivity.
    + intros a Hout.
      assert (Hi' : 0 < i) by (pose proof (load8_range f 11); unfold i, height in *; lia).
      rewrite (scroll_spec d i j Hi') by (rewrite ?Hp; lia).
      rewrite Hptr, Hp, Z.mul_0_l, Z.add_0_r.
      destruct (buf.ptr dst <=? a) eqn:E1;
        destruct (a <? buf.ptr dst + j * buf.p dst) eqn:E2; try reflexivity.
      apply Z.leb_le in E1. apply Z.ltb_lt in E2. lia.
  - intros Hj. rewrite Hput. rewrite scroll_on_overflow_idle by assumption. reflexivity.
Qed.

Lemma scroll_on_overflow_shift_witness :
  (0 < 16 < 20 -> 0 < 64 -> (16 + 16) * 64 <= 2147483648 ->
   exists m1,
     ssfn_putc truecolor_console (Some bare_font) (buf.mk 4096 16 32 64 8 20 1 2) ramp 65
     = finish truecolor_console bare_font 65 (lookup bare_font 65)
         (buf.set_y (buf.mk 4096 16 32 64 8 20 1 2) 16) m1 /\
     (forall a, 4096 <= a < 4096 + 16 * 64 -> m1 a = load8 ramp (a + 16 * 64)) /\
     (forall a, ~ (4096 <= a < 4096 + 16 * 64) -> m1 a = ramp a)) /\
  (16 <= 0 \/ 20 <= 16 ->
   ssfn_putc truecolor_console (Some bare_font) (buf.mk 4096 16 32 64 8 20 1 2) ramp 65
   = finish truecolor_console bare_font 65 (lookup bare_font 65)
       (buf.mk 4096 16 32 64 8 20 1 2) ramp).
Proof.
  apply (scroll_on_overflow_shift truecolor_console bare_font
           (buf.mk 4096 16 32 64 8 20 1 2) ramp 65 (buf.mk 4096 16 32 64 8 20 1 2)).
  - vm_compute. reflexivity.
  - reflexivity.
  - vm_compute. discriminate.
  - vm_compute. reflexivity.
Defined.

(** A destination 20 rows high with a 16-row cell: after the newline the
    cursor y is 16, above [h - i = 4], and nothing scrolls. *)
Lemma scroll_on_overflow_counterexample :
  height bare_font = 16 /\
  ssfn_putc truecolor_console (Some bare_font) (buf.mk 4096 16 20 64 0 0 1 0) ramp 10
  = Ret SSFN_OK (buf.mk 4096 16 20 64 0 16 1 0) ramp [] /\
  16 > buf.h (buf.mk 4096 16 20 64 0 0 1 0) - height bare_font /\
  ssfn_putc truecolor_console (Some bare_font) (buf.mk 4096 16 31 64 0 16 1 0) ramp 10
  = Ret SSFN_OK (buf.mk 4096 16 31 64 0 32 1 0) ramp [].
Proof.
  split; [vm_compute; reflexivity|].
  split; [reflexivity|].
  split; [vm_compute; reflexivity|].
  reflexivity.
Qed.

(** ** A rendered glyph, end to end *)

(** An 8 by 8 glyph with every bit set, drawn at the origin of a 16 by 16
    buffer with a transparent background: 64 stores, the 8 by 8 block holds
    the foreground color, the pixel to its right is untouched and the
    cursor has moved by the glyph's advance. *)
Example all_foreground_glyph :
  exists log,
    ssfn_putc truecolor_plain (Some (font_A 8 7 (repeat 255 8)))
      (buf.mk 4096 16 16 64 0 0 4294967295 0) blank 65
    = Ret SSFN_OK (buf.mk 4096 16 16 64 8 0 4294967295 0)
        (commit TRUECOLOR (buf.mk 4096 16 16 64 0 0 4294967295 0) log blank) log /\
    length log = 64%nat /\
    forallb (fun r =>
      forallb (fun c =>
        load_pixel TRUECOLOR
          (commit TRUECOLOR (buf.mk 4096 16 16 64 0 0 4294967295 0) log blank)
          (4096 + r * 64 + c * 4) =? 4294967295)
        (zrange 0 8))
      (zrange 0 8) = true /\
    load_pixel TRUECOLOR
      (commit TRUECOLOR (buf.mk 4096 16 16 64 0 0 4294967295 0) log blank)
      (4096 + 8 * 4) = 0.
Proof.
  eexists. split; [reflexivity|].
  split; [vm_compute; reflexivity|].
  split; vm_compute; reflexivity.
Qed.

(** ** What the scan can find *)

Lemma zrange_in (n : nat) : forall a z, a <= z < a + Z.of_nat n -> In z (zrange a n).
Proof.
  induction n as [|n IH]; intros a z H; [lia|].
  cbn [zrange In]. destruct (Z.eq_dec a z) as [-> | Hne]; [left; reflexivity|].
  right. apply IH. lia.
Qed.

(** The two skip tests of lines 278-279 catch exactly the bytes with the
    top bit set. *)
Lemma top_bit_tests (b : Z) :
  0 <= b < 256 ->
  (Z.land b 0xC0 =? 0xC0) || (Z.land b 0xC0 =? 0x80) = (128 <=? b).
Proof.
  intros Hb.
  assert (H : forallb (fun b => Bool.eqb ((Z.land b 0xC0 =? 0xC0) || (Z.land b 0xC0 =? 0x80))
                                         (128 <=? b)) (zrange 0 256) = true)
    by (vm_compute; reflexivity).
  rewrite forallb_forall in H. specialize (H b (zrange_in 256 0 b ltac:(lia))).
  apply Bool.eqb_prop in H. exact H.
Qed.

Lemma scan_entry_found (f : ssfn_font_t) (u ptr i c : Z) :
  scan_entry f u ptr i = Found c -> c = ptr /\ i = u /\ load8 f ptr < 128.
Proof.
  unfold scan_entry; cbv zeta.
  pose proof (load8_range f ptr) as Hb.
  pose proof (top_bit_tests _ Hb) as Ht.
  destruct (load8 f ptr =? 255); [discriminate|].
  destruct (Z.land (load8 f ptr) 192 =? 192); [discriminate|].
  destruct (Z.land (load8 f ptr) 192 =? 128); [discriminate|].
  destruct (i =? u) eqn:E; [|discriminate].
  intros [= <-]. apply Z.eqb_eq in E.
  cbn [orb] in Ht. symmetry in Ht. apply Z.leb_gt in Ht. auto.
Qed.

Lemma scan_entry_forward (f : ssfn_font_t) (u ptr i ptr' i' : Z) :
  scan_entry f u ptr i = Next ptr' i' -> ptr < ptr'.
Proof.
  unfold scan_entry; cbv zeta.
  pose proof (load8_range f (ptr + 1)) as Hb1.
  destruct (load8 f ptr =? 255); [intros [= <- _]; lia|].
  destruct (Z.land (load8 f ptr) 192 =? 192); [intros [= <- _]; lia|].
  destruct (Z.land (load8 f ptr) 192 =? 128); [intros [= <- _]; lia|].
  destruct (i =? u); [discriminate|].
  intros [= <- _].
  destruct (Z.land (load8 f ptr) 64 =? 0); lia.
Qed.

Lemma scan_some (n : nat) : forall (f : ssfn_font_t) (u ptr i c : Z),
  0 <= i ->
  scan n f u ptr i = Some c ->
  0 <= u < 0x110000 /\ ptr <= c /\ load8 f c < 128.
Proof.
  induction n as [|n IH]; intros f u ptr i c Hi; cbn [scan]; [discriminate|].
  destruct (i <? 1114112) eqn:Hlt; [|discriminate].
  apply Z.ltb_lt in Hlt.
  destruct (scan_entry f u ptr i) as [c'|ptr' i'] eqn:He.
  - intros [= <-]. apply scan_entry_found in He. destruct He as (-> & <- & Hb).
    repeat split; try lia.
  - intros Hs. pose proof (scan_entry_grows _ _ _ _ _ _ He) as Hg.
    pose proof (scan_entry_forward _ _ _ _ _ _ He) as Hf.
    apply IH in Hs; [|lia]. destruct Hs as (Hu & Hc & Hb). repeat split; try lia.
Qed.

(** X1: the scan only ever finds code points of the Unicode range: a
    code point below 0 or from [0x110000] on has no glyph in any font. *)
Theorem lookup_unicode_range (f : ssfn_font_t) (u c : Z) :
  lookup f u = Some c -> 0 <= u < 0x110000.
Proof.
  unfold lookup. intros H. apply scan_some in H; [tauto | lia].
Qed.

Lemma lookup_unicode_range_witness : 0 <= 65 < 0x110000.
Proof.
  apply (lookup_unicode_range (font_A 8 0 [1]) 65 50). vm_compute. reflexivity.
Defined.

(** X2: the record the scan returns lies at or after the start of the
    character table and its first byte has the top bit clear: the scan
    never takes a skip marker for a glyph record. *)
Theorem lookup_is_record (f : ssfn_font_t) (u c : Z) :
  lookup f u = Some c -> characters_offs f <= c /\ load8 f c < 128.
Proof.
  unfold lookup. intros H. apply scan_some in H; [tauto | lia].
Qed.

Lemma lookup_is_record_witness :
  characters_offs (font_A 8 0 [1]) <= 50 /\ load8 (font_A 8 0 [1]) 50 < 128.
Proof.
  apply (lookup_is_record (font_A 8 0 [1]) 65 50). vm_compute. reflexivity.
Defined.


(** ** Status and context of a returning call *)

Lemma finish_frame (b : build) (f : ssfn_font_t) (u : Z) (chr : option Z)
    (d : ssfn_buf_t) (m : memory) (st : Z) (d' : ssfn_buf_t) (m' : memory) (log : list store) :
  finish b f u chr d m = Ret st d' m' log -> frame_of d' = frame_of d.
Proof.
  unfold finish.
  destruct (SSFN_CONSOLEBITMAP_CONTROL b && ((u =? 13) || (u =? 10))).
  - intros [= _ <- _ _]. reflexivity.
  - destruct chr as [c|]; intros [= _ <- _ _]; reflexivity.
Qed.

(** X4: a call never assigns the buffer pointer, the width, the height,
    the pitch or the two colors of the destination context: whatever it
    returns, only the cursor fields can differ from the caller's. *)
Theorem context_frame (b : build) (src : option ssfn_font_t) (dst : ssfn_buf_t) (m : memory)
    (u st : Z) (d' : ssfn_buf_t) (m' : memory) (log : list store) :
  ssfn_putc b src dst m u = Ret st d' m' log ->
  buf.ptr d' = buf.ptr dst /\ buf.w d' = buf.w dst /\ buf.h d' = buf.h dst /\
  buf.p d' = buf.p dst /\ buf.fg d' = buf.fg dst /\ buf.bg d' = buf.bg dst.
Proof.
  intros H.
  assert (Hfr : frame_of d' = frame_of dst).
  { destruct (valid_input src dst) eqn:Hv.
    2:{ rewrite ssfn_putc_invalid in H by assumption. injection H as _ <- _ _. reflexivity. }
    destruct src as [f|]; [|discriminate].
    unfold ssfn_putc in H. rewrite Hv in H. cbn [negb] in H.
    destruct (SSFN_CONSOLEBITMAP_CONTROL b).
    - destruct (height f =? 0); [discriminate|].
      destruct (advance f dst u (lookup f u) (abs_width dst) (height f)) as [d|] eqn:Ha;
        [|discriminate].
      destruct (scroll_on_overflow d (height f) (last_line dst (height f)) m)
        as [d1 m1] eqn:Hs.
      rewrite (finish_frame _ _ _ _ _ _ _ _ _ _ H).
      rewrite (scroll_on_overflow_frame _ _ _ _ _ _ Hs).
      apply (advance_frame _ _ _ _ _ _ _ Ha).
    - apply (finish_frame _ _ _ _ _ _ _ _ _ _ H). }
  unfold frame_of in Hfr. injection Hfr as -> -> -> -> -> ->. repeat split.
Qed.

Lemma context_frame_witness :
  buf.ptr (screen 8 0 5 0) = buf.ptr (screen 0 0 5 0) /\
  buf.w (screen 8 0 5 0) = buf.w (screen 0 0 5 0) /\
  buf.h (screen 8 0 5 0) = buf.h (screen 0 0 5 0) /\
  buf.p (screen 8 0 5 0) = buf.p (screen 0 0 5 0) /\
  buf.fg (screen 8 0 5 0) = buf.fg (screen 0 0 5 0) /\
  buf.bg (screen 8 0 5 0) = buf.bg (screen 0 0 5 0).
Proof.
  apply (context_frame truecolor_plain (Some (font_A 8 0 [1])) (screen 0 0 5 0) blank 65
           SSFN_OK (screen 8 0 5 0)
           (commit TRUECOLOR (screen 0 0 5 0) [mkstore SetBit 0 0 4096] blank)
           [mkstore SetBit 0 0 4096]).
  reflexivity.
Defined.

(** X6: the status a call returns, negated, is an index into
    [ssfn_errstr], and the entry there is the empty string exactly for
    [SSFN_OK]; the two errors of the renderer have the messages "Invalid
    input value" and "Glyph not found". *)
Theorem status_message (b : build) (src : option ssfn_font_t) (dst : ssfn_buf_t) (m : memory)
    (u st : Z) (d' : ssfn_buf_t) (m' : memory) (log : list store) :
  ssfn_putc b src dst m u = Ret st d' m' log ->
  0 <= - st < Z.of_nat (length ssfn_errstr) /\
  exists msg, nth_error ssfn_errstr (Z.to_nat (- st)) = Some msg /\
    (st = SSFN_OK -> msg = String.EmptyString) /\
    (st = SSFN_ERR_INVINP -> msg = "Invalid input value"%string) /\
    (st = SSFN_ERR_NOGLYPH -> msg = "Glyph not found"%string) /\
    (msg = String.EmptyString -> st = SSFN_OK).
Proof.
  intros H.
  assert (Hst : st = SSFN_OK \/ st = SSFN_ERR_INVINP \/ st = SSFN_ERR_NOGLYPH).
  { destruct (valid_input src dst) eqn:Hv.
    2:{ rewrite ssfn_putc_invalid in H by assumption. injection H as <- _ _ _. auto. }
    destruct src as [f|]; [|discriminate].
    destruct (ssfn_putc_blit _ _ _ _ _ _ _ _ _ Hv H) as (d1 & m1 & _ & _ & _).
    unfold ssfn_putc in H. rewrite Hv in H. cbn [negb] in H.
    assert (Hfin : forall d m0, finish b f u (lookup f u) d m0 = Ret st d' m' log ->
              st = SSFN_OK \/ st = SSFN_ERR_INVINP \/ st = SSFN_ERR_NOGLYPH).
    { intros d m0. unfold finish.
      destruct (SSFN_CONSOLEBITMAP_CONTROL b && ((u =? 13) || (u =? 10))).
      - intros [= <- _ _ _]. auto.
      - destruct (lookup f u); intros [= <- _ _ _]; auto. }
    destruct (SSFN_CONSOLEBITMAP_CONTROL b).
    - destruct (height f =? 0); [discriminate|].
      destruct (advance f dst u (lookup f u) (abs_width dst) (height f)) as [d|];
        [|discriminate].
      destruct (scroll_on_overflow d (height f) (last_line dst (height f)) m) as [d2 m2].
      apply (Hfin _ _ H).
    - apply (Hfin _ _ H). }
  destruct Hst as [-> | [-> | ->]].
  - split; [vm_compute; split; [discriminate | reflexivity]|].
    exists String.EmptyString. repeat split; try reflexivity; try discriminate.
  - split; [vm_compute; split; [discriminate | reflexivity]|].
    exists "Invalid input value"%string. repeat split; try reflexivity; try discriminate.
  - split; [vm_compute; split; [discriminate | reflexivity]|].
    exists "Glyph not found"%string. repeat split; try reflexivity; try discriminate.
Qed.

Lemma status_message_witness :
  0 <= - SSFN_ERR_NOGLYPH < Z.of_nat (length ssfn_errstr) /\
  exists msg, nth_error ssfn_errstr (Z.to_nat (- SSFN_ERR_NOGLYPH)) = Some msg /\
    (SSFN_ERR_NOGLYPH = SSFN_OK -> msg = String.EmptyString) /\
    (SSFN_ERR_NOGLYPH = SSFN_ERR_INVINP -> msg = "Invalid input value"%string) /\
    (SSFN_ERR_NOGLYPH = SSFN_ERR_NOGLYPH -> msg = "Glyph not found"%string) /\
    (msg = String.EmptyString -> SSFN_ERR_NOGLYPH = SSFN_OK).
Proof.
  apply (status_message truecolor_console (Some bare_font) (screen 8 16 1 2) ramp 65
           SSFN_ERR_NOGLYPH (screen 8 16 1 2) ramp []).
  reflexivity.
Defined.

(** ** The font type byte *)

Lemma lor_disjoint (a b : Z) : Z.land a b = 0 -> Z.lor a b = a + b.
Proof.
  intros H. rewrite <- (Z.lxor_lor a b H). symmetry. apply Z.add_nocarry_lxor. exact H.
Qed.

(** A value below [2 ^ n] and a multiple of [2 ^ n] share no bit. *)
Lemma land_low_high (a b n : Z) :
  0 <= n -> 0 <= a < 2 ^ n -> Z.land a (b * 2 ^ n) = 0.
Proof.
  intros Hn Ha. apply Z.bits_inj'. intros k Hk. rewrite Z.land_spec, Z.bits_0.
  destruct (Z_lt_le_dec k n) as [Hlt | Hge].
  - rewrite Z.mul_pow2_bits_low by lia. apply andb_false_r.
  - rewrite <- (Z.mod_small a (2 ^ n)) by lia.
    rewrite Z.mod_pow2_bits_high by lia. reflexivity.
Qed.

(** X7: the family and style macros split the type byte into its two
    nibbles and lose nothing of it: both are between 0 and 15 and the
    low 8 bits of [x] are [SSFN_TYPE_FAMILY(x) | SSFN_TYPE_STYLE(x) << 4]. *)
Theorem type_family_style (x : Z) :
  0 <= SSFN_TYPE_FAMILY x < 16 /\
  0 <= SSFN_TYPE_STYLE x < 16 /\
  Z.lor (SSFN_TYPE_FAMILY x) (Z.shiftl (SSFN_TYPE_STYLE x) 4) = x mod 256.
Proof.
  unfold SSFN_TYPE_FAMILY, SSFN_TYPE_STYLE.
  change 15 with (Z.ones 4). rewrite !Z.land_ones by lia.
  rewrite Z.shiftr_div_pow2, Z.shiftl_mul_pow2 by lia. change (2 ^ 4) with 16.
  assert (H1 : 0 <= x mod 16 < 16) by (apply Z.mod_pos_bound; lia).
  assert (H2 : 0 <= (x / 16) mod 16 < 16) by (apply Z.mod_pos_bound; lia).
  repeat split; try lia.
  rewrite lor_disjoint.
  - Z.div_mod_to_equations. lia.
  - apply (land_low_high (x mod 16) ((x / 16) mod 16) 4); [lia|]. change (2 ^ 4) with 16. lia.
Qed.

(** ** Fragment references *)

Lemma lor_high_low (hi lo n : Z) :
  0 <= n -> 0 <= lo < 2 ^ n -> Z.lor (hi * 2 ^ n) lo = hi * 2 ^ n + lo.
Proof.
  intros Hn Hlo. apply lor_disjoint. rewrite Z.land_comm. apply land_low_high; assumption.
Qed.

(** X8: the offset of a fragment reference is the little-endian value of
    its offset bytes: 3 bytes when bit [0x40] of the glyph's first byte is
    clear, which keeps it below [2 ^ 24], and 4 bytes, as an [int], when
    it is set. *)
Theorem fragment_offs_little_endian (font : ssfn_font_t) (chr ptr : Z) :
  let b2 := load8 font (ptr + 2) in
  let b3 := load8 font (ptr + 3) in
  let b4 := load8 font (ptr + 4) in
  let b5 := load8 font (ptr + 5) in
  (Z.land (load8 font chr) 0x40 = 0 ->
   fragment_offs font chr ptr = b2 + 256 * b3 + 65536 * b4 /\
   0 <= fragment_offs font chr ptr < 16777216) /\
  (Z.land (load8 font chr) 0x40 <> 0 ->
   fragment_offs font chr ptr = sint (b2 + 256 * b3 + 65536 * b4 + 16777216 * b5)).
Proof.
  intros b2 b3 b4 b5.
  pose proof (load8_range font (ptr + 2)) as H2.
  pose proof (load8_range font (ptr + 3)) as H3.
  pose proof (load8_range font (ptr + 4)) as H4.
  pose proof (load8_range font (ptr + 5)) as H5.
  fold b2 in H2. fold b3 in H3. fold b4 in H4. fold b5 in H5.
  unfold fragment_offs. fold b2 b3 b4 b5.
  rewrite !Z.shiftl_mul_pow2 by lia.
  split.
  - intros Hn. rewrite Hn. cbn [Z.eqb negb].
    rewrite (lor_high_low b4 (b3 * 2 ^ 8) 16) by lia.
    replace (b4 * 2 ^ 16 + b3 * 2 ^ 8) with ((b4 * 2 ^ 8 + b3) * 2 ^ 8)
      by (change (2 ^ 16) with (2 ^ 8 * 2 ^ 8); ring).
    rewrite (lor_high_low _ b2 8) by lia.
    change (2 ^ 8) with 256. lia.
  - intros Hn. replace (Z.land (load8 font chr) 64 =? 0) with false
      by (symmetry; apply Z.eqb_neq; assumption).
    cbn [negb]. f_equal.
    rewrite (lor_high_low b5 (b4 * 2 ^ 16) 24) by lia.
    replace (b5 * 2 ^ 24 + b4 * 2 ^ 16) with ((b5 * 2 ^ 8 + b4) * 2 ^ 16)
      by (change (2 ^ 24) with (2 ^ 8 * 2 ^ 16); ring).
    rewrite (lor_high_low _ (b3 * 2 ^ 8) 16) by lia.
    replace ((b5 * 2 ^ 8 + b4) * 2 ^ 16 + b3 * 2 ^ 8)
      with (((b5 * 2 ^ 8 + b4) * 2 ^ 8 + b3) * 2 ^ 8)
      by (change (2 ^ 16) with (2 ^ 8 * 2 ^ 8); ring).
    rewrite (lor_high_low _ b2 8) by lia.
    change (2 ^ 8) with 256. lia.
Qed.

Lemma fragment_offs_little_endian_witness :
  fragment_offs (font_A 8 0 [1]) 50 56
  = load8 (font_A 8 0 [1]) (56 + 2) + 256 * load8 (font_A 8 0 [1]) (56 + 3)
    + 65536 * load8 (font_A 8 0 [1]) (56 + 4) /\
  0 <= fragment_offs (font_A 8 0 [1]) 50 56 < 16777216.
Proof.
  apply (proj1 (fragment_offs_little_endian (font_A 8 0 [1]) 50 56)).
  vm_compute. reflexivity.
Defined.

(** ** A cursor outside the destination *)

Lemma no_store (l : list store) : (forall e, In e l -> False) -> l = [].
Proof. destruct l as [|e l]; [reflexivity|]. intros H. destruct (H e). left. reflexivity. Qed.

(** X9: in a build without the control block, a glyph drawn with the
    cursor x at or right of a nonzero destination width paints nothing:
    the call returns [SSFN_OK], the memory is untouched and the cursor
    still advances by the glyph's advance. *)
Theorem right_of_width (b : build) (f : ssfn_font_t) (dst : ssfn_buf_t) (m : memory)
    (u c : Z) :
  valid_input (Some f) dst = true ->
  SSFN_CONSOLEBITMAP_CONTROL b = false ->
  lookup f u = Some c ->
  0 < abs_width dst <= buf.x dst ->
  buf.x dst + 256 <= 2147483648 ->
  ssfn_putc b (Some f) dst m u
  = Ret SSFN_OK
      (buf.set_y (buf.set_x dst (sint (buf.x dst + load8 f (c + 4))))
                 (sint (buf.y dst + load8 f (c + 5))))
      m [].
Proof.
  intros Hv Hc Hl Hw Hx.
  unfold ssfn_putc. rewrite Hv, Hc, Hl. cbn [negb]. unfold finish. rewrite Hc. cbn [andb].
  assert (Hout : forall l, 0 <= l < 256 -> in_width dst (abs_width dst) l = false).
  { intros l Hl'. unfold in_width.
    replace (abs_width dst =? 0) with false by (symmetry; apply Z.eqb_neq; lia).
    rewrite sint_small by lia. cbn [orb]. apply Z.ltb_ge. lia. }
  assert (E : glyph (pixel b) f dst (abs_width dst) (buf.p dst / sizeof (pixel b)) c = []).
  { apply no_store. intros e He.
    refine (glyph_inv (pixel b) f dst (abs_width dst) (buf.p dst / sizeof (pixel b))
              (load8 f (c + 2)) (fun _ => False) _ _ _ c e eq_refl He).
    - intros _ j p Hj Hin. pose proof (load8_range f (c + 2)).
      rewrite Hout in Hin by lia. discriminate.
    - intros l p Hl' _ Hin. rewrite Hout in Hin by lia. discriminate.
    - intros _ l p Hl' _ Hin. rewrite Hout in Hin by lia. discriminate. }
  rewrite E. reflexivity.
Qed.

Lemma right_of_width_witness :
  ssfn_putc truecolor_plain (Some (font_A 8 0 [255])) (screen 16 0 5 9) ramp 65
  = Ret SSFN_OK
      (buf.set_y (buf.set_x (screen 16 0 5 9)
                    (sint (buf.x (screen 16 0 5 9) + load8 (font_A 8 0 [255]) (50 + 4))))
                 (sint (buf.y (screen 16 0 5 9) + load8 (font_A 8 0 [255]) (50 + 5))))
      ramp [].
Proof.
  apply right_of_width.
  - vm_compute; reflexivity.
  - reflexivity.
  - vm_compute; reflexivity.
  - vm_compute. split; [reflexivity | discriminate].
  - vm_compute. discriminate.
Defined.

Section BelowHeight.
Variable px : SSFN_PIXEL.
Variable font : ssfn_font_t.
Variable dst : ssfn_buf_t.
Variables w s : Z.

Hypothesis h_pos : 0 < buf.h dst.
Hypothesis y_below : buf.h dst <= buf.y dst.
Hypothesis y_range : buf.y dst + 256 <= 2147483648.

Lemma in_height_below (y : Z) : 0 <= y < 256 -> in_height dst y = false.
Proof.
  intros Hy. unfold in_height.
  replace (buf.h dst =? 0) with false by (symmetry; apply Z.eqb_neq; lia).
  rewrite sint_small by lia. cbn [orb]. apply Z.ltb_ge. lia.
Qed.

Lemma fill_rows_below (n : nat) (lim cw y o : Z) :
  0 <= y < 256 -> fill_rows px dst w s n lim cw y o = (y, o, []).
Proof.
  intros Hy. destruct n as [|n]; [reflexivity|]. cbn [fill_rows].
  rewrite in_height_below by assumption. rewrite andb_false_r. reflexivity.
Qed.

Lemma bitmap_rows_below (n : nat) (k frg m j y o : Z) :
  0 <= y < 256 -> bitmap_rows px font dst w s n k frg m j y o = (y, o, []).
Proof.
  intros Hy. destruct n as [|n]; [reflexivity|]. cbn [bitmap_rows].
  rewrite in_height_below by assumption. rewrite andb_false_r. reflexivity.
Qed.

Lemma fragment_below (chr ptr frg y o : Z) :
  0 <= y < 256 ->
  exists y' o', fragment px font dst w s chr ptr frg y o = (y', o', []) /\ 0 <= y' < 256.
Proof.
  intros Hy. unfold fragment.
  pose proof (load8_range font (ptr + 1)) as Hlim.
  destruct (negb (buf.bg dst =? 0)).
  - rewrite fill_rows_below by assumption. rewrite bitmap_rows_below by assumption.
    eauto.
  - rewrite bitmap_rows_below by assumption. eauto.
Qed.

Lemma fragments_below (n : nat) : forall chr ptr y o,
  0 <= y < 256 ->
  exists y' o', fragments px font dst w s n chr ptr y o = (y', o', []) /\ 0 <= y' < 256.
Proof.
  induction n as [|n IH]; intros chr ptr y o Hy; cbn [fragments]; [eauto|].
  destruct ((load8 font ptr =? 255) && (load8 font (ptr + 1) =? 255)); [apply IH; assumption|].
  destruct (negb (Z.land (load8 font (fragment_offs font chr ptr)) 224 =? 128));
    [apply IH; assumption|].
  destruct (fragment_below chr ptr (fragment_offs font chr ptr) y o Hy)
    as (y1 & o1 & -> & Hy1).
  match goal with
  | |- context [fragments px font dst w s n chr ?nx y1 o1] =>
    destruct (IH chr nx y1 o1 Hy1) as (y2 & o2 & -> & Hy2)
  end.
  eauto.
Qed.

Lemma glyph_below (chr : Z) : glyph px font dst w s chr = [].
Proof.
  unfold glyph.
  match goal with
  | |- context [fragments px font dst w s ?n chr ?pt 0 ?o] =>
    destruct (fragments_below n chr pt 0 o ltac:(lia)) as (y & o1 & -> & Hy)
  end.
  destruct (negb (buf.bg dst =? 0)); [|reflexivity].
  rewrite fill_rows_below by assumption. reflexivity.
Qed.
End BelowHeight.

(** X10: in a build without the control block, a glyph drawn with the
    cursor y at or below a positive destination height paints nothing:
    the call returns [SSFN_OK], the memory is untouched and the cursor
    still advances by the glyph's advance. *)
Theorem below_height (b : build) (f : ssfn_font_t) (dst : ssfn_buf_t) (m : memory)
    (u c : Z) :
  valid_input (Some f) dst = true ->
  SSFN_CONSOLEBITMAP_CONTROL b = false ->
  lookup f u = Some c ->
  0 < buf.h dst <= buf.y dst ->
  buf.y dst + 256 <= 2147483648 ->
  ssfn_putc b (Some f) dst m u
  = Ret SSFN_OK
      (buf.set_y (buf.set_x dst (sint (buf.x dst + load8 f (c + 4))))
                 (sint (buf.y dst + load8 f (c + 5))))
      m [].
Proof.
  intros Hv Hc Hl Hh Hy.
  unfold ssfn_putc. rewrite Hv, Hc, Hl. cbn [negb]. unfold finish. rewrite Hc. cbn [andb].
  rewrite glyph_below by lia. reflexivity.
Qed.

Lemma below_height_witness :
  ssfn_putc truecolor_plain (Some (font_A 8 0 [255])) (screen 0 64 5 9) ramp 65
  = Ret SSFN_OK
      (buf.set_y (buf.set_x (screen 0 64 5 9)
                    (sint (buf.x (screen 0 64 5 9) + load8 (font_A 8 0 [255]) (50 + 4))))
                 (sint (buf.y (screen 0 64 5 9) + load8 (font_A 8 0 [255]) (50 + 5))))
      ramp [].
Proof.
  apply below_height.
  - vm_compute; reflexivity.
  - reflexivity.
  - vm_compute; reflexivity.
  - vm_compute. split; [reflexivity | discriminate].
  - vm_compute. discriminate.
Defined.

(** ** Pixel stores are aligned with each other *)

Lemma on_grid_refl (px : SSFN_PIXEL) (o : Z) : on_grid px o o.
Proof. exists 0. ring. Qed.

Lemma on_grid_step (px : SSFN_PIXEL) (o p a : Z) :
  on_grid px o p -> on_grid px o (p + a * sizeof px).
Proof. intros (k & ->). exists (k + a). ring. Qed.

Lemma on_grid_next (px : SSFN_PIXEL) (o p : Z) :
  on_grid px o p -> on_grid px o (p + sizeof px).
Proof. intros (k & ->). exists (k + 1). ring. Qed.

Section Grid.
Variable px : SSFN_PIXEL.
Variable font : ssfn_font_t.
Variable dst : ssfn_buf_t.
Variables w s o0 : Z.

Lemma fill_row_grid (n : nat) : forall cw p j e,
  on_grid px o0 p -> In e (fill_row px dst w n cw p j) -> on_grid px o0 (st_p e).
Proof.
  induction n as [|n IH]; intros cw p j e Hp; cbn [fill_row]; [contradiction|].
  destruct ((j <? cw) && in_width dst w j); [|contradiction].
  intros [<- | H]; [exact Hp|].
  apply (IH cw (p + sizeof px) (j + 1)); [apply on_grid_next|]; assumption.
Qed.

Lemma fill_rows_grid (n : nat) : forall lim cw y o,
  on_grid px o0 o ->
  on_grid px o0 (snd (fst (fill_rows px dst w s n lim cw y o))) /\
  forall e, In e (snd (fill_rows px dst w s n lim cw y o)) -> on_grid px o0 (st_p e).
Proof.
  induction n as [|n IH]; intros lim cw y o Ho; cbn [fill_rows]; [split; [exact Ho | contradiction]|].
  destruct ((y <? lim) && in_height dst y); [|split; [exact Ho | contradiction]].
  destruct (IH lim cw (y + 1) (o + s * sizeof px) (on_grid_step px o0 o s Ho)) as (Ho' & Hlog).
  destruct (fill_rows px dst w s n lim cw (y + 1) (o + s * sizeof px)) as [[y' o'] log].
  cbn [fst snd] in *. split; [exact Ho'|].
  intros e He. apply in_app_or in He. destruct He as [He | He]; [|auto].
  apply (fill_row_grid _ _ _ _ _ Ho He).
Qed.

Lemma bitmap_row_grid (n : nat) : forall k frg m p l e,
  on_grid px o0 p ->
  In e (snd (bitmap_row px font dst w n k frg m p l)) -> on_grid px o0 (st_p e).
Proof.
  induction n as [|n IH]; intros k frg m p l e Hp; cbn [bitmap_row]; [contradiction|].
  destruct (l <? k); [|contradiction].
  assert (Hpix : forall e, In e (snd (bitmap_pixel font dst w frg m p l)) -> st_p e = p).
  { intros e0. unfold bitmap_pixel.
    destruct (m >? 128); cbn [snd];
      (destruct ((0 <=? sint (buf.x dst + l)) && in_width dst w l); [|contradiction];
       match goal with |- context [negb (Z.land ?a ?b =? 0)] =>
         destruct (negb (Z.land a b =? 0)) end;
       [intros [<- | []]; reflexivity|];
       destruct (negb (buf.bg dst =? 0)); [|contradiction];
       intros [<- | []]; reflexivity). }
  destruct (bitmap_pixel font dst w frg m p l) as [[frg1 m1] here].
  specialize (IH k frg1 (Z.shiftl m1 1) (p + sizeof px) (l + 1) e (on_grid_next px o0 p Hp)).
  destruct (bitmap_row px font dst w n k frg1 (Z.shiftl m1 1) (p + sizeof px) (l + 1))
    as [[frg' m'] log].
  cbn [snd] in *. intros H. apply in_app_or in H. destruct H as [H | H]; [|auto].
  rewrite (Hpix e H). exact Hp.
Qed.

Lemma bitmap_rows_grid (n : nat) : forall k frg m j y o,
  on_grid px o0 o ->
  on_grid px o0 (snd (fst (bitmap_rows px font dst w s n k frg m j y o))) /\
  forall e, In e (snd (bitmap_rows px font dst w s n k frg m j y o)) -> on_grid px o0 (st_p e).
Proof.
  induction n as [|n IH]; intros k frg m j y o Ho; cbn [bitmap_rows];
    [split; [exact Ho | contradiction]|].
  destruct (negb (j =? 0) && in_height dst y); [|split; [exact Ho | contradiction]].
  pose proof (fun e => bitmap_row_grid (Z.to_nat k) k frg m o 0 e Ho) as Hrow.
  destruct (bitmap_row px font dst w (Z.to_nat k) k frg m o 0) as [[frg' m'] row].
  destruct (IH k frg' m' (j - 1) (y + 1) (o + s * sizeof px) (on_grid_step px o0 o s Ho))
    as (Ho' & Hlog).
  destruct (bitmap_rows px font dst w s n k frg' m' (j - 1) (y + 1) (o + s * sizeof px))
    as [[y' o'] log].
  cbn [fst snd] in *. split; [exact Ho'|].
  intros e He. apply in_app_or in He. destruct He as [He | He]; auto.
Qed.

Lemma fragment_grid (chr ptr frg y o : Z) :
  on_grid px o0 o ->
  on_grid px o0 (snd (fst (fragment px font dst w s chr ptr frg y o))) /\
  forall e, In e (snd (fragment px font dst w s chr ptr frg y o)) -> on_grid px o0 (st_p e).
Proof.
  intros Ho. unfold fragment.
  assert (Hfill :
    on_grid px o0
      (snd (fst (if negb (buf.bg dst =? 0)
                 then fill_rows px dst w s (Z.to_nat (load8 font (ptr + 1) - y))
                        (load8 font (ptr + 1)) (load8 font (chr + 2)) y o
                 else (load8 font (ptr + 1),
                       o + sint (sint (load8 font (ptr + 1) - y) * s) * sizeof px, [])))) /\
    forall e,
      In e (snd (if negb (buf.bg dst =? 0)
                 then fill_rows px dst w s (Z.to_nat (load8 font (ptr + 1) - y))
                        (load8 font (ptr + 1)) (load8 font (chr + 2)) y o
                 else (load8 font (ptr + 1),
                       o + sint (sint (load8 font (ptr + 1) - y) * s) * sizeof px, []))) ->
      on_grid px o0 (st_p e)).
  { destruct (negb (buf.bg dst =? 0)).
    - apply fill_rows_grid. exact Ho.
    - cbn [fst snd]. split; [apply on_grid_step; exact Ho | contradiction]. }
  destruct (if negb (buf.bg dst =? 0) then _ else _) as [[y1 o1] log1].
  cbn [fst snd] in Hfill. destruct Hfill as (Ho1 & Hlog1).
  match goal with
  | |- context [bitmap_rows px font dst w s ?n ?k ?fr 1 ?j y1 o1] =>
    destruct (bitmap_rows_grid n k fr 1 j y1 o1 Ho1) as (Ho2 & Hlog2);
    destruct (bitmap_rows px font dst w s n k fr 1 j y1 o1) as [[y2 o2] log2]
  end.
  cbn [fst snd] in *. split; [exact Ho2|].
  intros e He. apply in_app_or in He. destruct He as [He | He]; auto.
Qed.

Lemma fragments_grid (n : nat) : forall chr ptr y o,
  on_grid px o0 o ->
  on_grid px o0 (snd (fst (fragments px font dst w s n chr ptr y o))) /\
  forall e, In e (snd (fragments px font dst w s n chr ptr y o)) -> on_grid px o0 (st_p e).
Proof.
  induction n as [|n IH]; intros chr ptr y o Ho; cbn [fragments];
    [split; [exact Ho | contradiction]|].
  destruct ((load8 font ptr =? 255) && (load8 font (ptr + 1) =? 255)); [apply IH; exact Ho|].
  destruct (negb (Z.land (load8 font (fragment_offs font chr ptr)) 224 =? 128));
    [apply IH; exact Ho|].
  destruct (fragment_grid chr ptr (fragment_offs font chr ptr) y o Ho) as (Ho1 & Hlog1).
  destruct (fragment px font dst w s chr ptr (fragment_offs font chr ptr) y o)
    as [[y1 o1] log1].
  cbn [fst snd] in Ho1, Hlog1.
  match goal with
  | |- context [fragments px font dst w s n chr ?nx y1 o1] =>
    destruct (IH chr nx y1 o1 Ho1) as (Ho2 & Hlog2);
    destruct (fragments px font dst w s n chr nx y1 o1) as [[y2 o2] log2]
  end.
  cbn [fst snd] in *. split; [exact Ho2|].
  intros e He. apply in_app_or in He. destruct He as [He | He]; auto.
Qed.
End Grid.

Lemma glyph_grid (px : SSFN_PIXEL) (font : ssfn_font_t) (d : ssfn_buf_t) (w s chr : Z) :
  forall e, In e (glyph px font d w s chr) -> on_grid px (pixel_origin px d) (st_p e).
Proof.
  intros e. unfold glyph. fold (pixel_origin px d).
  match goal with
  | |- context [fragments px font d w s ?n chr ?pt 0 ?o] =>
    destruct (fragments_grid px font d w s (pixel_origin px d) n chr pt 0 o
                (on_grid_refl px _)) as (Ho1 & Hlog1);
    destruct (fragments px font d w s n chr pt 0 o) as [[y o1] log]
  end.
  cbn [fst snd] in *.
  destruct (negb (buf.bg d =? 0)); [|apply Hlog1].
  intros He. apply in_app_or in He. destruct He as [He | He]; [auto|].
  revert He. apply (fill_rows_grid px d w s (pixel_origin px d)). exact Ho1.
Qed.

(** ** The pixels a call has painted *)

Lemma load_le_ext (n : nat) : forall (m1 m2 : memory) (a : Z),
  (forall c, a <= c < a + Z.of_nat n -> m1 c = m2 c) ->
  load_le n m1 a = load_le n m2 a.
Proof.
  induction n as [|n IH]; intros m1 m2 a H; cbn [load_le]; [reflexivity|].
  unfold load8. rewrite (H a) by lia. f_equal. f_equal.
  apply IH. intros c Hc. apply H. lia.
Qed.

Lemma load_pixel_ext (px : SSFN_PIXEL) (m1 m2 : memory) (a : Z) :
  (forall c, a <= c < a + sizeof px -> m1 c = m2 c) ->
  load_pixel px m1 a = load_pixel px m2 a.
Proof.
  intros H. unfold load_pixel. apply load_le_ext.
  intros c Hc. apply H. rewrite Z2Nat.id in Hc by (destruct px; simpl; lia). exact Hc.
Qed.

(** Two pixels of one grid are the same pixel or share no byte. *)
Lemma on_grid_apart (px : SSFN_PIXEL) (o a a' c : Z) :
  on_grid px o a -> on_grid px o a' -> a <> a' ->
  a <= c < a + sizeof px -> ~ (a' <= c < a' + sizeof px).
Proof.
  intros (k & ->) (k' & ->) Hne Hc. destruct px; cbn [sizeof] in *; lia.
Qed.

(** After the stores of a log on one grid, a pixel the log stores to
    holds the color of the last store to it. *)
Lemma commit_last (px : SSFN_PIXEL) (dst : ssfn_buf_t) (o : Z) (log : list store) :
  forall (m : memory),
  (forall e, In e log -> on_grid px o (st_p e)) ->
  forall e, In e log ->
  exists e', In e' log /\ st_p e' = st_p e /\
    load_pixel px (commit px dst log m) (st_p e)
    = color dst (st_paint e') mod 2 ^ (8 * sizeof px).
Proof.
  induction log as [|e0 rest IH]; intros m Hgrid e He; [contradiction|].
  change (commit px dst (e0 :: rest) m)
    with (commit px dst rest (store_pixel px m (st_p e0) (color dst (st_paint e0)))).
  destruct (Exists_dec (fun e' => st_p e' = st_p e) rest
              (fun e' => Z.eq_dec (st_p e') (st_p e))) as [Hex | Hno].
  - apply Exists_exists in Hex. destruct Hex as (e1 & He1 & Hp1).
    destruct (IH (store_pixel px m (st_p e0) (color dst (st_paint e0)))
                 (fun e' H => Hgrid e' (or_intror H)) e1 He1) as (e' & He' & Hp' & Hload).
    exists e'. split; [right; exact He'|]. split; [congruence|].
    rewrite <- Hp1. exact Hload.
  - assert (Hall : forall e', In e' rest -> st_p e' <> st_p e).
    { intros e' He' Heq. apply Hno. apply Exists_exists. eauto. }
    assert (e0 = e) as <-.
    { destruct He as [H | H]; [exact H|]. destruct (Hall e H). reflexivity. }
    exists e0. split; [left; reflexivity|]. split; [reflexivity|].
    rewrite <- (load_store_pixel px m (st_p e0) (color dst (st_paint e0))).
    apply load_pixel_ext. intros c Hc. apply commit_frame.
    intros e' He'. unfold covers.
    apply (on_grid_apart px o (st_p e0) (st_p e') c).
    + apply Hgrid. left. reflexivity.
    + apply Hgrid. right. exact He'.
    + intros Heq. apply (Hall e' He'). symmetry. exact Heq.
    + exact Hc.
Qed.

(** X11: all the pixel stores of a call lie on one pixel grid, the one
    of the pixel pointer line 297 computes from the cursor: any two of
    them write the same pixel or disjoint bytes, never overlapping halves
    of pixels.  Without the control block the grid is that of the caller's
    cursor. *)
Theorem stores_on_grid (b : build) (f : ssfn_font_t) (dst : ssfn_buf_t) (m : memory)
    (u st : Z) (d' : ssfn_buf_t) (m' : memory) (log : list store) :
  valid_input (Some f) dst = true ->
  ssfn_putc b (Some f) dst m u = Ret st d' m' log ->
  exists d1,
    frame_of d1 = frame_of dst /\
    (SSFN_CONSOLEBITMAP_CONTROL b = false -> d1 = dst) /\
    (forall e, In e log -> on_grid (pixel b) (pixel_origin (pixel b) d1) (st_p e)) /\
    (forall e e' c, In e log -> In e' log -> st_p e <> st_p e' ->
       covers (pixel b) e c -> ~ covers (pixel b) e' c).
Proof.
  intros Hv H.
  destruct (ssfn_putc_blit _ _ _ _ _ _ _ _ _ Hv H) as (d1 & m1 & Hfr & Hctl & Hlog).
  exists d1. split; [exact Hfr|]. split.
  { intros Hc. rewrite Hc in Hctl. apply Hctl. }
  assert (Hgrid : forall e, In e log -> on_grid (pixel b) (pixel_origin (pixel b) d1) (st_p e)).
  { destruct Hlog as [(-> & _) | (c & _ & -> & _)]; [intros e []|]. apply glyph_grid. }
  split; [exact Hgrid|].
  intros e e' c He He' Hne Hc. unfold covers in *.
  apply (on_grid_apart (pixel b) (pixel_origin (pixel b) d1) (st_p e) (st_p e') c); auto.
Qed.

Lemma stores_on_grid_witness :
  exists d1,
    frame_of d1 = frame_of (screen 0 0 5 9) /\
    (SSFN_CONSOLEBITMAP_CONTROL truecolor_plain = false -> d1 = screen 0 0 5 9) /\
    (forall e,
       In e [mkstore SetBit 0 0 4096; mkstore SetBit 1 1 4100; mkstore SetBit 2 2 4104;
             mkstore SetBit 3 3 4108; mkstore SetBit 4 4 4112; mkstore ClearBit 5 5 4116;
             mkstore ClearBit 6 6 4120; mkstore ClearBit 7 7 4124] ->
       on_grid TRUECOLOR (pixel_origin TRUECOLOR d1) (st_p e)) /\
    (forall e e' c,
       In e [mkstore SetBit 0 0 4096; mkstore SetBit 1 1 4100; mkstore SetBit 2 2 4104;
             mkstore SetBit 3 3 4108; mkstore SetBit 4 4 4112; mkstore ClearBit 5 5 4116;
             mkstore ClearBit 6 6 4120; mkstore ClearBit 7 7 4124] ->
       In e' [mkstore SetBit 0 0 4096; mkstore SetBit 1 1 4100; mkstore SetBit 2 2 4104;
              mkstore SetBit 3 3 4108; mkstore SetBit 4 4 4112; mkstore ClearBit 5 5 4116;
              mkstore ClearBit 6 6 4120; mkstore ClearBit 7 7 4124] ->
       st_p e <> st_p e' -> covers TRUECOLOR e c -> ~ covers TRUECOLOR e' c).
Proof.
  apply (stores_on_grid truecolor_plain narrow_font (screen 0 0 5 9) blank 65 SSFN_OK
           (screen 6 0 5 9)
           (commit TRUECOLOR (screen 0 0 5 9)
              [mkstore SetBit 0 0 4096; mkstore SetBit 1 1 4100; mkstore SetBit 2 2 4104;
               mkstore SetBit 3 3 4108; mkstore SetBit 4 4 4112; mkstore ClearBit 5 5 4116;
               mkstore ClearBit 6 6 4120; mkstore ClearBit 7 7 4124] blank)).
  - vm_compute. reflexivity.
  - reflexivity.
Defined.


(** ** Glyphs without a bitmap fragment *)

Lemma fragments_skipped (px : SSFN_PIXEL) (font : ssfn_font_t) (dst : ssfn_buf_t) (w s : Z)
    (n : nat) : forall chr ptr y o,
  (forall k, 0 <= k < Z.of_nat n ->
     skipped font chr (ptr + k * reference_size font chr) = true) ->
  fragments px font dst w s n chr ptr y o = (y, o, []).
Proof.
  induction n as [|n IH]; intros chr ptr y o H; cbn [fragments]; [reflexivity|].
  fold (reference_size font chr).
  assert (Hrest : fragments px font dst w s n chr (ptr + reference_size font chr) y o
                  = (y, o, [])).
  { apply IH. intros k Hk.
    replace (ptr + reference_size font chr + k * reference_size font chr)
      with (ptr + (k + 1) * reference_size font chr) by ring.
    apply H. lia. }
  specialize (H 0 ltac:(lia)). rewrite Z.mul_0_l, Z.add_0_r in H.
  unfold skipped in H.
  destruct ((load8 font ptr =? 255) && (load8 font (ptr + 1) =? 255)); [exact Hrest|].
  cbn [orb] in H. rewrite H. exact Hrest.
Qed.

(** X13: a glyph none of whose fragment references leads to a bitmap (no
    reference at all, [0xFFFF] sentinels, other fragment kinds) is drawn on
    a transparent background without a single store: in a build without
    the control block the call returns [SSFN_OK], leaves the memory as it
    was and advances the cursor. *)
Theorem blank_glyph_transparent (b : build) (f : ssfn_font_t) (dst : ssfn_buf_t) (m : memory)
    (u c : Z) :
  valid_input (Some f) dst = true ->
  SSFN_CONSOLEBITMAP_CONTROL b = false ->
  lookup f u = Some c ->
  (forall k, 0 <= k < load8 f (c + 1) ->
     skipped f c (c + 6 + k * reference_size f c) = true) ->
  buf.bg dst = 0 ->
  ssfn_putc b (Some f) dst m u
  = Ret SSFN_OK
      (buf.set_y (buf.set_x dst (sint (buf.x dst + load8 f (c + 4))))
                 (sint (buf.y dst + load8 f (c + 5))))
      m [].
Proof.
  intros Hv Hc Hl Hskip Hbg.
  unfold ssfn_putc. rewrite Hv, Hc, Hl. cbn [negb]. unfold finish. rewrite Hc. cbn [andb].
  unfold glyph. rewrite fragments_skipped.
  - rewrite Hbg. reflexivity.
  - intros k Hk. apply Hskip. pose proof (load8_range f (c + 1)). lia.
Qed.

Lemma blank_glyph_transparent_witness :
  ssfn_putc truecolor_plain (Some sentinel_font) (screen 1 1 5 0) ramp 32
  = Ret SSFN_OK
      (buf.set_y (buf.set_x (screen 1 1 5 0)
                    (sint (buf.x (screen 1 1 5 0) + load8 sentinel_font (49 + 4))))
                 (sint (buf.y (screen 1 1 5 0) + load8 sentinel_font (49 + 5))))
      ramp [].
Proof.
  apply blank_glyph_transparent.
  - vm_compute; reflexivity.
  - reflexivity.
  - vm_compute; reflexivity.
  - intros k Hk.
    assert (E : load8 sentinel_font (49 + 1) = 1) by (vm_compute; reflexivity).
    rewrite E in Hk. assert (k = 0) as -> by lia. vm_compute. reflexivity.
  - reflexivity.
Defined.

Section FillAll.
Variable px : SSFN_PIXEL.
Variable dst : ssfn_buf_t.
Variables w s cw : Z.

Hypothesis columns_in : forall j, 0 <= j < cw -> in_width dst w j = true.

Lemma fill_row_all (n : nat) : forall p j,
  0 <= j -> cw - j <= Z.of_nat n ->
  fill_row px dst w n cw (p + j * sizeof px) j
  = map (fun j' => mkstore FillRow j' (sint (buf.x dst + j')) (p + j' * sizeof px))
        (zrange j (Z.to_nat (cw - j))).
Proof.
  induction n as [|n IH]; intros p j Hj Hn.
  - replace (Z.to_nat (cw - j)) with O by lia. reflexivity.
  - cbn [fill_row]. destruct (j <? cw) eqn:Hlt.
    + apply Z.ltb_lt in Hlt. rewrite columns_in by lia. cbn [andb].
      replace (Z.to_nat (cw - j)) with (S (Z.to_nat (cw - (j + 1)))) by lia.
      cbn [zrange map]. f_equal.
      replace (p + j * sizeof px + sizeof px) with (p + (j + 1) * sizeof px) by ring.
      apply IH; lia.
    + apply Z.ltb_ge in Hlt. replace (Z.to_nat (cw - j)) with O by lia. reflexivity.
Qed.

Lemma fill_rows_all (n : nat) : forall lim y o r,
  (forall y', y <= y' < lim -> in_height dst y' = true) ->
  Z.of_nat n = lim - y ->
  fill_rows px dst w s n lim cw y (o + r * (s * sizeof px))
  = (lim, o + (r + Z.of_nat n) * (s * sizeof px),
     flat_map
       (fun r' => map (fun j => mkstore FillRow j (sint (buf.x dst + j))
                                  (o + r' * (s * sizeof px) + j * sizeof px))
                      (zrange 0 (Z.to_nat cw)))
       (zrange r n)).
Proof.
  induction n as [|n IH]; intros lim y o r Hrows Hn.
  - cbn [fill_rows zrange flat_map Z.of_nat]. rewrite Z.add_0_r.
    replace y with lim by (simpl in Hn; lia). reflexivity.
  - cbn [fill_rows]. rewrite Nat2Z.inj_succ in Hn.
    replace (y <? lim) with true by (symmetry; apply Z.ltb_lt; lia).
    rewrite Hrows by lia. cbn [andb].
    replace (o + r * (s * sizeof px) + s * sizeof px)
      with (o + (r + 1) * (s * sizeof px)) by ring.
    rewrite (IH lim (y + 1) o (r + 1)) by (try lia; intros y' Hy'; apply Hrows; lia).
    pose proof (fill_row_all (Z.to_nat cw) (o + r * (s * sizeof px)) 0) as Hrow.
    rewrite Z.mul_0_l, Z.add_0_r, Z.sub_0_r in Hrow. rewrite Hrow by lia.
    cbn [zrange flat_map]. rewrite Nat2Z.inj_succ. unfold Z.succ.
    f_equal. f_equal. ring.
Qed.
End FillAll.

Lemma in_cell_fill (px : SSFN_PIXEL) (d : ssfn_buf_t) (s cw ch r j : Z) :
  0 <= r < ch -> 0 <= j < cw ->
  In (mkstore FillRow j (sint (buf.x d + j))
        (pixel_origin px d + r * (s * sizeof px) + j * sizeof px))
     (cell_fill px d s cw ch).
Proof.
  intros Hr Hj. unfold cell_fill. apply in_flat_map. exists r. split.
  - apply zrange_in. lia.
  - apply in_map_iff. exists j. split; [reflexivity|]. apply zrange_in. lia.
Qed.

Lemma cell_fill_paint (px : SSFN_PIXEL) (d : ssfn_buf_t) (s cw ch : Z) (e : store) :
  In e (cell_fill px d s cw ch) -> st_paint e = FillRow.
Proof.
  unfold cell_fill. intros H. apply in_flat_map in H. destruct H as (r & _ & H).
  apply in_map_iff in H. destruct H as (j & <- & _). reflexivity.
Qed.

(** X14: on an opaque background, a glyph none of whose fragment
    references leads to a bitmap (a space, for instance) gets its whole
    declared cell filled: when the destination clips neither its columns
    nor its rows, the stores of the call are those of [cell_fill], one per
    pixel of the cell, and afterwards every pixel of the cell holds the
    background color reduced to the pixel type.  (Build without the
    control block.) *)
Theorem blank_glyph_opaque (b : build) (f : ssfn_font_t) (dst : ssfn_buf_t) (m : memory)
    (u c : Z) :
  let cw := load8 f (c + 2) in
  let ch := load8 f (c + 3) in
  let s := buf.p dst / sizeof (pixel b) in
  valid_input (Some f) dst = true ->
  SSFN_CONSOLEBITMAP_CONTROL b = false ->
  lookup f u = Some c ->
  (forall k, 0 <= k < load8 f (c + 1) ->
     skipped f c (c + 6 + k * reference_size f c) = true) ->
  buf.bg dst <> 0 ->
  -2147483648 <= buf.x dst -> -2147483648 <= buf.y dst ->
  buf.x dst + 256 <= 2147483648 -> buf.y dst + 256 <= 2147483648 ->
  abs_width dst = 0 \/ buf.x dst + cw <= abs_width dst ->
  buf.h dst = 0 \/ buf.y dst + ch <= buf.h dst ->
  exists m',
    ssfn_putc b (Some f) dst m u
    = Ret SSFN_OK
        (buf.set_y (buf.set_x dst (sint (buf.x dst + load8 f (c + 4))))
                   (sint (buf.y dst + load8 f (c + 5))))
        m' (cell_fill (pixel b) dst s cw ch) /\
    forall r j, 0 <= r < ch -> 0 <= j < cw ->
      load_pixel (pixel b) m'
        (pixel_origin (pixel b) dst + r * (s * sizeof (pixel b)) + j * sizeof (pixel b))
      = buf.bg dst mod 2 ^ (8 * sizeof (pixel b)).
Proof.
  intros cw ch s Hv Hc Hl Hskip Hbg Hx0 Hy0 Hx Hy Hw Hh.
  pose proof (load8_range f (c + 1)) as Hn.
  pose proof (load8_range f (c + 2)) as Hcw. fold cw in Hcw.
  pose proof (load8_range f (c + 3)) as Hch. fold ch in Hch.
  assert (Hcols : forall j, 0 <= j < cw -> in_width dst (abs_width dst) j = true).
  { intros j Hj. unfold in_width. destruct Hw as [-> | Hw]; [reflexivity|].
    rewrite sint_small by lia. apply orb_true_iff. right. apply Z.ltb_lt. lia. }
  assert (Hrows : forall y, 0 <= y < ch -> in_height dst y = true).
  { intros y Hy'. unfold in_height. destruct Hh as [-> | Hh]; [reflexivity|].
    rewrite sint_small by lia. apply orb_true_iff. right. apply Z.ltb_lt. lia. }
  assert (E : glyph (pixel b) f dst (abs_width dst) s c = cell_fill (pixel b) dst s cw ch).
  { unfold glyph. fold (pixel_origin (pixel b) dst).
    rewrite fragments_skipped by (intros k Hk; apply Hskip; lia).
    replace (buf.bg dst =? 0) with false by (symmetry; apply Z.eqb_neq; assumption).
    cbn [negb app]. fold cw ch. rewrite Z.sub_0_r.
    pose proof (fill_rows_all (pixel b) dst (abs_width dst) s cw Hcols (Z.to_nat ch)
                  ch 0 (pixel_origin (pixel b) dst) 0) as Hfill.
    rewrite Z.mul_0_l, Z.add_0_r in Hfill.
    rewrite Hfill by (try lia; intros y' Hy'; apply Hrows; lia).
    reflexivity. }
  exists (commit (pixel b) dst (cell_fill (pixel b) dst s cw ch) m).
  split.
  - unfold ssfn_putc. rewrite Hv, Hc, Hl. cbn [negb]. unfold finish. rewrite Hc. cbn [andb].
    fold s. rewrite E. reflexivity.
  - intros r j Hr Hj.
    destruct (commit_last (pixel b) dst (pixel_origin (pixel b) dst)
                (cell_fill (pixel b) dst s cw ch) m)
      with (e := mkstore FillRow j (sint (buf.x dst + j))
                   (pixel_origin (pixel b) dst + r * (s * sizeof (pixel b))
                    + j * sizeof (pixel b)))
      as (e' & He' & _ & Hload).
    + rewrite <- E. apply glyph_grid.
    + apply in_cell_fill; assumption.
    + cbn [st_p] in Hload. rewrite Hload.
      rewrite (cell_fill_paint _ _ _ _ _ _ He'). reflexivity.
Qed.

Lemma blank_glyph_opaque_witness :
  exists m',
    ssfn_putc truecolor_plain (Some space_font) (screen 1 1 5 9) ramp 32
    = Ret SSFN_OK
        (buf.set_y (buf.set_x (screen 1 1 5 9)
                      (sint (buf.x (screen 1 1 5 9) + load8 space_font (49 + 4))))
                   (sint (buf.y (screen 1 1 5 9) + load8 space_font (49 + 5))))
        m' (cell_fill (pixel truecolor_plain) (screen 1 1 5 9)
              (buf.p (screen 1 1 5 9) / sizeof (pixel truecolor_plain))
              (load8 space_font (49 + 2)) (load8 space_font (49 + 3))) /\
    forall r j, 0 <= r < load8 space_font (49 + 3) -> 0 <= j < load8 space_font (49 + 2) ->
      load_pixel (pixel truecolor_plain) m'
        (pixel_origin (pixel truecolor_plain) (screen 1 1 5 9)
         + r * (buf.p (screen 1 1 5 9) / sizeof (pixel truecolor_plain)
                * sizeof (pixel truecolor_plain))
         + j * sizeof (pixel truecolor_plain))
      = buf.bg (screen 1 1 5 9) mod 2 ^ (8 * sizeof (pixel truecolor_plain)).
Proof.
  apply (blank_glyph_opaque truecolor_plain space_font (screen 1 1 5 9) ramp 32 49).
  - vm_compute; reflexivity.
  - reflexivity.
  - vm_compute; reflexivity.
  - intros k Hk.
    assert (E : load8 space_font (49 + 1) = 0) by (vm_compute; reflexivity).
    rewrite E in Hk. lia.
  - vm_compute; discriminate.
  - vm_compute; discriminate.
  - vm_compute; discriminate.
  - vm_compute; discriminate.
  - vm_compute; discriminate.
  - right. vm_compute. discriminate.
  - right. vm_compute. discriminate.
Defined.

(** ** Cursor movement of the control block *)

Lemma scroll_on_overflow_x (d d' : ssfn_buf_t) (i j : Z) (m m' : memory) :
  scroll_on_overflow d i j m = (d', m') -> buf.x d' = buf.x d.
Proof.
  unfold scroll_on_overflow.
  destruct ((j >? 0) && (buf.y d >? j)); intros [= <- _]; reflexivity.
Qed.

Lemma scroll_on_overflow_y (d d' : ssfn_buf_t) (i j : Z) (m m' : memory) :
  scroll_on_overflow d i j m = (d', m') ->
  (0 < j -> buf.y d' <= j) /\ (buf.y d' = buf.y d \/ buf.y d' = j).
Proof.
  unfold scroll_on_overflow.
  destruct (j >? 0) eqn:Hj; destruct (buf.y d >? j) eqn:Hy; cbn [andb];
    intros [= <- _]; cbn [buf.set_y buf.y]; split; auto; lia.
Qed.

(** X15: a tab whose glyph is found moves the cursor to a tab stop: with
    [adv] the glyph's nonzero horizontal advance and [t] the largest
    multiple of [adv] not above the cursor x, the call returns [SSFN_OK]
    with x at [t + adv] when that does not pass the width, and at [adv],
    on the next line, when it does.  Either way the new x is a multiple of
    [adv]. *)
Theorem tab_stop (b : build) (f : ssfn_font_t) (dst : ssfn_buf_t) (m : memory) (c : Z) :
  let adv := load8 f (c + 4) in
  let t := adv * (buf.x dst / adv) in
  valid_input (Some f) dst = true ->
  SSFN_CONSOLEBITMAP_CONTROL b = true ->
  height f <> 0 ->
  lookup f 9 = Some c ->
  adv <> 0 ->
  abs_width dst <> 0 ->
  0 <= buf.x dst -> buf.x dst + 256 <= 2147483648 ->
  exists d' m' log,
    ssfn_putc b (Some f) dst m 9 = Ret SSFN_OK d' m' log /\
    buf.x d' = (if t + adv >? abs_width dst then adv else t + adv) /\
    buf.x d' mod adv = 0 /\
    (t + adv <= abs_width dst -> buf.x dst < buf.x d' <= buf.x dst + adv).
Proof.
  intros adv t Hv Hc Hh Hl Hadv Hw Hx0 Hx.
  pose proof (load8_range f (c + 4)) as Ha. fold adv in Ha.
  assert (Hdm : buf.x dst = adv * (buf.x dst / adv) + buf.x dst mod adv)
    by (apply Z.div_mod; lia).
  assert (Hmod : 0 <= buf.x dst mod adv < adv) by (apply Z.mod_pos_bound; lia).
  fold t in Hdm.
  assert (Ht : 0 <= t) by (unfold t; apply Z.mul_nonneg_nonneg; [lia | apply Z.div_pos; lia]).
  assert (Hsnap : sint (buf.x dst - Z.rem (buf.x dst) adv) = t).
  { rewrite Z.rem_mod_nonneg by lia. rewrite sint_small by lia. lia. }
  assert (Hadvance : exists d,
    advance f dst 9 (Some c) (abs_width dst) (height f) = Some d /\
    buf.x d = (if t + adv >? abs_width dst then 0 else t)).
  { unfold advance, wrap_cursor. fold adv.
    replace (abs_width dst =? 0) with false by (symmetry; apply Z.eqb_neq; assumption).
    replace (adv =? 0) with false by (symmetry; apply Z.eqb_neq; assumption).
    change (9 =? 9) with true. change (9 =? 10) with false.
    cbn [negb buf.set_x buf.x]. rewrite Hsnap.
    rewrite (sint_small (t + adv)) by lia.
    destruct (t + adv >? abs_width dst); eexists; split; reflexivity. }
  destruct Hadvance as (d & Hd & Hxd).
  destruct (scroll_on_overflow d (height f) (last_line dst (height f)) m) as [d1 m1] eqn:Hs.
  pose proof (scroll_on_overflow_x _ _ _ _ _ _ Hs) as Hx1.
  eexists. eexists. eexists. split.
  - unfold ssfn_putc. rewrite Hv, Hc, Hl. cbn [negb].
    replace (height f =? 0) with false by (symmetry; apply Z.eqb_neq; assumption).
    rewrite Hd, Hs. unfold finish. rewrite Hc.
    change (9 =? 13) with false. change (9 =? 10) with false. cbn [orb andb]. reflexivity.
  - cbn [buf.set_y buf.set_x buf.x]. fold adv. rewrite Hx1, Hxd.
    destruct (t + adv >? abs_width dst) eqn:Hwrap.
    + rewrite sint_small by lia. split; [reflexivity|]. split.
      * cbn [Z.add]. apply Z.mod_same. lia.
      * apply Z.gtb_lt in Hwrap. lia.
    + rewrite sint_small by lia. split; [reflexivity|]. split.
      * unfold t. rewrite Z.add_comm, Z.mul_comm. rewrite Z.mod_add by lia.
        apply Z.mod_same. lia.
      * lia.
Qed.

Lemma tab_stop_witness :
  exists d' m' log,
    ssfn_putc truecolor_console (Some tab8_font) (buf.mk 4096 64 64 256 13 0 5 0) ramp 9
      = Ret SSFN_OK d' m' log /\
    buf.x d' = (if load8 tab8_font (49 + 4) * (13 / load8 tab8_font (49 + 4))
                   + load8 tab8_font (49 + 4) >? abs_width (buf.mk 4096 64 64 256 13 0 5 0)
                then load8 tab8_font (49 + 4)
                else load8 tab8_font (49 + 4) * (13 / load8 tab8_font (49 + 4))
                     + load8 tab8_font (49 + 4)) /\
    buf.x d' mod load8 tab8_font (49 + 4) = 0 /\
    (load8 tab8_font (49 + 4) * (13 / load8 tab8_font (49 + 4)) + load8 tab8_font (49 + 4)
     <= abs_width (buf.mk 4096 64 64 256 13 0 5 0) ->
     13 < buf.x d' <= 13 + load8 tab8_font (49 + 4)).
Proof.
  apply (tab_stop truecolor_console tab8_font (buf.mk 4096 64 64 256 13 0 5 0) ramp 49).
  - vm_compute; reflexivity.
  - reflexivity.
  - vm_compute; discriminate.
  - vm_compute; reflexivity.
  - vm_compute; discriminate.
  - vm_compute; discriminate.
  - vm_compute; discriminate.
  - vm_compute; discriminate.
Defined.

Lemma last_line_fits (dst : ssfn_buf_t) (i : Z) :
  0 < i -> 0 <= buf.h dst < 2147483648 -> i <= buf.h dst ->
  last_line dst i = buf.h dst - i - buf.h dst mod i /\
  last_line dst i + i <= buf.h dst /\
  last_line dst i mod i = 0.
Proof.
  intros Hi Hh Hle. unfold last_line.
  rewrite Z.rem_mod_nonneg by lia.
  pose proof (Z.mod_pos_bound (buf.h dst) i Hi) as Hm.
  assert (Hmle : buf.h dst mod i <= buf.h dst) by (apply Z.mod_le; lia).
  rewrite (sint_small (buf.h dst - i)) by lia. rewrite sint_small by lia.
  split; [reflexivity|]. split; [lia|].
  pose proof (Z.div_mod (buf.h dst) i ltac:(lia)) as Hdm.
  replace (buf.h dst - i - buf.h dst mod i) with ((buf.h dst / i - 1) * i) by lia.
  apply Z.mod_mul. lia.
Qed.


(** X17: line wrap.  With the control block, for a code point other than
    tab, newline and carriage return whose glyph is found and a nonzero
    width, the glyph is drawn where the cursor is when [x + advance] does
    not exceed the width, leaving x at [x + advance]; when it does exceed
    the width the cursor first goes to column 0, the glyph is drawn from
    there (every store's destination column is its glyph column) and x is
    left at the advance. *)
Theorem line_wrap (b : build) (f : ssfn_font_t) (dst : ssfn_buf_t) (m : memory) (u c : Z) :
  let adv := load8 f (c + 4) in
  valid_input (Some f) dst = true ->
  SSFN_CONSOLEBITMAP_CONTROL b = true ->
  height f <> 0 ->
  lookup f u = Some c ->
  u <> 9 -> u <> 10 -> u <> 13 ->
  abs_width dst <> 0 ->
  exists d' m' log,
    ssfn_putc b (Some f) dst m u = Ret SSFN_OK d' m' log /\
    buf.x d' = (if sint (buf.x dst + adv) >? abs_width dst
                then adv else sint (buf.x dst + adv)) /\
    (sint (buf.x dst + adv) > abs_width dst -> forall e, In e log -> st_x e = st_l e).
Proof.
  intros adv Hv Hc Hh Hl H9 H10 H13 Hw.
  pose proof (load8_range f (c + 4)) as Ha. fold adv in Ha.
  assert (Hadvance : exists d,
    advance f dst u (Some c) (abs_width dst) (height f) = Some d /\
    buf.x d = (if sint (buf.x dst + adv) >? abs_width dst then 0 else buf.x dst)).
  { unfold advance, wrap_cursor. fold adv.
    replace (abs_width dst =? 0) with false by (symmetry; apply Z.eqb_neq; assumption).
    replace (u =? 9) with false by (symmetry; apply Z.eqb_neq; assumption).
    replace (u =? 10) with false by (symmetry; apply Z.eqb_neq; assumption).
    cbn [negb].
    destruct (sint (buf.x dst + adv) >? abs_width dst); eexists; split; reflexivity. }
  destruct Hadvance as (d & Hd & Hxd).
  destruct (scroll_on_overflow d (height f) (last_line dst (height f)) m) as [d1 m1] eqn:Hs.
  pose proof (scroll_on_overflow_x _ _ _ _ _ _ Hs) as Hx1.
  eexists. eexists. eexists. split; [|split].
  - unfold ssfn_putc. rewrite Hv, Hc, Hl. cbn [negb].
    replace (height f =? 0) with false by (symmetry; apply Z.eqb_neq; assumption).
    rewrite Hd, Hs. unfold finish. rewrite Hc.
    replace (u =? 10) with false by (symmetry; apply Z.eqb_neq; assumption).
    replace (u =? 13) with false by (symmetry; apply Z.eqb_neq; assumption).
    cbn [orb andb]. reflexivity.
  - cbn [buf.set_y buf.set_x buf.x]. fold adv. rewrite Hx1, Hxd.
    destruct (sint (buf.x dst + adv) >? abs_width dst); [|reflexivity].
    rewrite sint_small by lia. reflexivity.
  - intros Hwrap e He.
    assert (Hx0 : buf.x d1 = 0).
    { rewrite Hx1, Hxd.
      replace (sint (buf.x dst + adv) >? abs_width dst) with true
        by (symmetry; apply Z.gtb_lt; lia). reflexivity. }
    refine (glyph_inv (pixel b) f d1 (abs_width d1) (buf.p d1 / sizeof (pixel b))
              (load8 f (c + 2)) (fun e => st_x e = st_l e) _ _ _ c e eq_refl He).
    + intros _ j p Hj _. cbn [st_x st_l]. rewrite Hx0.
      pose proof (load8_range f (c + 2)). apply sint_small. lia.
    + intros l p Hl' _ _. cbn [st_x st_l]. rewrite Hx0. apply sint_small. lia.
    + intros _ l p Hl' _ _. cbn [st_x st_l]. rewrite Hx0. apply sint_small. lia.
Qed.

Lemma line_wrap_witness :
  exists d' m' log,
    ssfn_putc truecolor_console (Some (font_A 8 0 [1])) (screen 12 0 5 0) ramp 65
      = Ret SSFN_OK d' m' log /\
    buf.x d' = (if sint (buf.x (screen 12 0 5 0) + load8 (font_A 8 0 [1]) (50 + 4))
                   >? abs_width (screen 12 0 5 0)
                then load8 (font_A 8 0 [1]) (50 + 4)
                else sint (buf.x (screen 12 0 5 0) + load8 (font_A 8 0 [1]) (50 + 4))) /\
    (sint (buf.x (screen 12 0 5 0) + load8 (font_A 8 0 [1]) (50 + 4))
     > abs_width (screen 12 0 5 0) ->
     forall e, In e log -> st_x e = st_l e).
Proof.
  apply (line_wrap truecolor_console (font_A 8 0 [1]) (screen 12 0 5 0) ramp 65 50).
  - vm_compute; reflexivity.
  - reflexivity.
  - vm_compute; discriminate.
  - vm_compute; reflexivity.
  - discriminate.
  - discriminate.
  - discriminate.
  - vm_compute; discriminate.
Defined.


(** ** The stores of a glyph, one by one *)

Lemma sint_range (z : Z) : -2147483648 <= sint z < 2147483648.
Proof. unfold sint. pose proof (Z.mod_pos_bound (z + 2147483648) 4294967296). lia. Qed.

Lemma visible_rows_le (dst : ssfn_buf_t) (n : nat) : forall y,
  (visible_rows dst n y <= n)%nat.
Proof.
  induction n as [|n IH]; intros y; cbn [visible_rows]; [lia|].
  destruct (in_height dst y); [|lia]. specialize (IH (y + 1)). lia.
Qed.

Lemma visible_rows_in (dst : ssfn_buf_t) (n : nat) : forall y r,
  0 <= r < Z.of_nat (visible_rows dst n y) -> in_height dst (y + r) = true.
Proof.
  induction n as [|n IH]; intros y r; cbn [visible_rows]; [lia|].
  destruct (in_height dst y) eqn:Hy; [|cbn; lia].
  intros Hr. destruct (Z.eq_dec r 0) as [-> | Hn].
  - rewrite Z.add_0_r. exact Hy.
  - replace (y + r) with (y + 1 + (r - 1)) by ring. apply IH. lia.
Qed.

Section Anatomy.
Variable px : SSFN_PIXEL.
Variable font : ssfn_font_t.
Variable dst : ssfn_buf_t.
Variables w s chr : Z.

Local Abbreviation S' := (s * sizeof px).

Lemma in_fill_row (n : nat) : forall cw p j e,
  In e (fill_row px dst w n cw p j) ->
  exists c, j <= c < cw /\ in_width dst w c = true /\
    e = mkstore FillRow c (sint (buf.x dst + c)) (p + (c - j) * sizeof px).
Proof.
  induction n as [|n IH]; intros cw p j e; cbn [fill_row]; [contradiction|].
  destruct (j <? cw) eqn:Hlt; [|contradiction].
  destruct (in_width dst w j) eqn:Hin; [|contradiction].
  apply Z.ltb_lt in Hlt. cbn [andb In].
  intros [<- | H].
  - exists j. split; [lia|]. split; [assumption|]. f_equal. ring.
  - destruct (IH cw (p + sizeof px) (j + 1) e H) as (c & Hc & Hw & ->).
    exists c. split; [lia|]. split; [assumption|]. f_equal. ring.
Qed.

Lemma fill_rows_anatomy (n : nat) : forall lim cw y o y' o' log,
  fill_rows px dst w s n lim cw y o = (y', o', log) ->
  y <= y' /\ o' = o + (y' - y) * S' /\
  forall e, In e log ->
    exists r c, y <= r < y' /\ in_height dst r = true /\
      0 <= c < cw /\ in_width dst w c = true /\
      e = mkstore FillRow c (sint (buf.x dst + c)) (o + (r - y) * S' + c * sizeof px).
Proof.
  induction n as [|n IH]; intros lim cw y o y' o' log; cbn [fill_rows].
  - intros [= <- <- <-]. split; [lia|]. split; [ring|]. contradiction.
  - destruct (y <? lim) eqn:Hlt; cbn [andb];
      [|intros [= <- <- <-]; split; [lia|]; split; [ring|]; contradiction].
    destruct (in_height dst y) eqn:Hh;
      [|intros [= <- <- <-]; split; [lia|]; split; [ring|]; contradiction].
    destruct (fill_rows px dst w s n lim cw (y + 1) (o + s * sizeof px))
      as [[y1 o1] log1] eqn:Hrec.
    intros [= <- <- <-].
    destruct (IH lim cw (y + 1) (o + s * sizeof px) y1 o1 log1 Hrec) as (Hy & Ho & Hlog).
    split; [lia|]. split; [rewrite Ho; ring|].
    intros e He. apply in_app_or in He. destruct He as [He | He].
    + apply in_fill_row in He. destruct He as (c & Hc & Hw & ->).
      exists y, c. split; [lia|]. split; [assumption|]. split; [assumption|].
      split; [assumption|]. f_equal. ring.
    + destruct (Hlog e He) as (r & c & Hr & Hh' & Hc & Hw & ->).
      exists r, c. split; [lia|]. split; [assumption|]. split; [assumption|].
      split; [assumption|]. f_equal. ring.
Qed.

Lemma in_bit_rows (k base o : Z) (rows : nat) (e : store) :
  0 <= k ->
  In e (bit_rows px font dst w s k base o rows) ->
  exists r l, 0 <= r < Z.of_nat rows /\ 0 <= l < k /\
    0 <= sint (buf.x dst + l) /\ in_width dst w l = true /\
    (Z.testbit (load8 font (base + r * (k / 8) + l / 8)) (l mod 8) = false -> buf.bg dst <> 0) /\
    e = mkstore (if Z.testbit (load8 font (base + r * (k / 8) + l / 8)) (l mod 8)
                 then SetBit else ClearBit)
                l (sint (buf.x dst + l)) (o + r * S' + l * sizeof px).
Proof.
  intros Hk He. unfold bit_rows in He. apply in_flat_map in He.
  destruct He as (r & Hr & He). apply in_zrange in Hr.
  unfold bit_row in He. apply in_flat_map in He.
  destruct He as (l & Hl & He). apply in_zrange in Hl.
  rewrite Z2Nat.id in Hl by assumption.
  exists r, l. split; [lia|]. split; [lia|].
  unfold bit_pixel in He.
  destruct (0 <=? sint (buf.x dst + l)) eqn:H0; [|contradiction].
  destruct (in_width dst w l) eqn:Hw; [|contradiction].
  apply Z.leb_le in H0. cbn [andb] in He.
  split; [assumption|]. split; [reflexivity|].
  destruct (Z.testbit (load8 font (base + r * (k / 8) + l / 8)) (l mod 8)).
  - destruct He as [<- | []]. split; [discriminate | reflexivity].
  - destruct (buf.bg dst =? 0) eqn:Hbg; [contradiction|].
    apply Z.eqb_neq in Hbg. destruct He as [<- | []]. split; [intros _; assumption | reflexivity].
Qed.

Hypothesis s_range : 0 <= s < 65536.

Lemma fragment_anatomy (idx y o y2 o2 : Z) (log : list store) :
  drawn font chr idx ->
  row_state px dst s y o ->
  fragment px font dst w s chr (reference font chr idx)
           (fragment_offs font chr (reference font chr idx)) y o = (y2, o2, log) ->
  row_state px dst s y2 o2 /\
  forall e, In e log -> fill_store px font dst w s chr e \/ bit_store px font dst w s chr e.
Proof.
  intros Hdr (Hy & Hy511 & Ho). unfold fragment.
  set (ptr := reference font chr idx).
  set (frg := fragment_offs font chr ptr).
  pose proof (load8_range font frg) as Hd.
  pose proof (load8_range font (frg + 1)) as Hrows.
  pose proof (load8_range font (ptr + 1)) as Hlim.
  destruct (row_width_bytes (load8 font frg) Hd) as (Hk & Hk8 & Hkm).
  rewrite Hk.
  set (k := (Z.land (load8 font frg) 31 + 1) * 8) in *.
  (* the rows above the fragment *)
  assert (Hpre : forall y1 o1 log1,
    (if negb (buf.bg dst =? 0)
     then fill_rows px dst w s (Z.to_nat (load8 font (ptr + 1) - y))
            (load8 font (ptr + 1)) (load8 font (chr + 2)) y o
     else (load8 font (ptr + 1),
           o + sint (sint (load8 font (ptr + 1) - y) * s) * sizeof px, []))
    = (y1, o1, log1) ->
    row_state px dst s y1 o1 /\ (buf.bg dst = 0 -> y1 = load8 font (ptr + 1)) /\
    forall e, In e log1 -> fill_store px font dst w s chr e).
  { intros y1 o1 log1. destruct (buf.bg dst =? 0) eqn:Hbg; cbn [negb].
    - apply Z.eqb_eq in Hbg. specialize (Hy511 Hbg). intros [= <- <- <-].
      split; [|split; [reflexivity | contradiction]].
      split; [lia|]. split; [lia|].
      rewrite (sint_small (load8 font (ptr + 1) - y)) by lia.
      rewrite sint_small by nia. rewrite Ho. ring.
    - apply Z.eqb_neq in Hbg. intros Hfill.
      destruct (fill_rows_anatomy _ _ _ _ _ _ _ _ Hfill) as (Hy1 & Ho1 & Hlog).
      split; [|split; [intros; contradiction|]].
      + split; [lia|]. split; [intros; contradiction|]. rewrite Ho1, Ho. ring.
      + intros e He. destruct (Hlog e He) as (r & c & Hr & Hh & Hc & Hw & ->).
        split; [assumption|]. exists r, c. split; [lia|]. split; [assumption|].
        split; [assumption|]. split; [assumption|]. f_equal.
        unfold pixel_at. rewrite Ho. ring. }
  destruct (if negb (buf.bg dst =? 0) then _ else _) as [[y1 o1] log1].
  destruct (Hpre y1 o1 log1 eq_refl) as ((Hy1 & Hy1b & Ho1) & Htop & Hlog1).
  rewrite (bitmap_rows_from_start px font dst w s k (load8 font (frg + 1) + 1) (frg + 2) y1 o1)
    by lia.
  set (vis := visible_rows dst (Z.to_nat (load8 font (frg + 1) + 1)) y1).
  pose proof (visible_rows_le dst (Z.to_nat (load8 font (frg + 1) + 1)) y1) as Hvis.
  fold vis in Hvis.
  intros [= <- <- <-]. split.
  - split; [lia|]. split; [|rewrite Ho1; ring].
    intros Hbg. rewrite (Htop Hbg). lia.
  - intros e He. apply in_app_or in He. destruct He as [He | He]; [left; auto|].
    right. apply in_bit_rows in He; [|lia].
    destruct He as (r & l & Hr & Hl & H0 & Hw & Hbit & He).
    exists idx, y1, r, l.
    split; [split; [assumption|]; fold ptr; fold frg; fold k; lia|].
    split; [assumption|]. split; [exact Htop|].
    split; [apply (visible_rows_in dst (Z.to_nat (load8 font (frg + 1) + 1)) y1 r); fold vis; lia|].
    split; [assumption|]. split; [assumption|].
    unfold fragment_bit. fold ptr. fold frg. fold k.
    split; [assumption|].
    rewrite He. f_equal. unfold pixel_at. rewrite Ho1. ring.
Qed.

Lemma fragments_anatomy (n : nat) : forall idx y o y2 o2 log,
  0 <= idx -> idx + Z.of_nat n <= load8 font (chr + 1) ->
  row_state px dst s y o ->
  fragments px font dst w s n chr (reference font chr idx) y o = (y2, o2, log) ->
  row_state px dst s y2 o2 /\
  forall e, In e log -> fill_store px font dst w s chr e \/ bit_store px font dst w s chr e.
Proof.
  induction n as [|n IH]; intros idx y o y2 o2 log Hidx Hn Hst; cbn [fragments].
  - intros [= <- <- <-]. split; [assumption | contradiction].
  - assert (Hnext : reference font chr idx
                    + (if negb (Z.land (load8 font chr) 64 =? 0) then 6 else 5)
                    = reference font chr (idx + 1)).
    { unfold reference, reference_size. ring. }
    rewrite Hnext.
    destruct ((load8 font (reference font chr idx) =? 255)
              && (load8 font (reference font chr idx + 1) =? 255)) eqn:Hsent;
      [apply IH; [lia | lia | assumption]|].
    destruct (negb (Z.land (load8 font (fragment_offs font chr (reference font chr idx))) 224
                    =? 128)) eqn:Htag;
      [apply IH; [lia | lia | assumption]|].
    assert (Hdr : drawn font chr idx).
    { split; [lia|]. unfold skipped. rewrite Hsent, Htag. reflexivity. }
    destruct (fragment px font dst w s chr (reference font chr idx)
                (fragment_offs font chr (reference font chr idx)) y o)
      as [[y1 o1] log1] eqn:Hfr.
    destruct (fragment_anatomy idx y o y1 o1 log1 Hdr Hst Hfr) as (Hst1 & Hlog1).
    destruct (fragments px font dst w s n chr (reference font chr (idx + 1)) y1 o1)
      as [[y3 o3] log3] eqn:Hrest.
    intros [= <- <- <-].
    destruct (IH (idx + 1) y1 o1 y3 o3 log3 ltac:(lia) ltac:(lia) Hst1 Hrest) as (Hst3 & Hlog3).
    split; [assumption|].
    intros e He. apply in_app_or in He. destruct He as [He | He]; auto.
Qed.

Lemma glyph_anatomy (e : store) :
  In e (glyph px font dst w s chr) ->
  fill_store px font dst w s chr e \/ bit_store px font dst w s chr e.
Proof.
  unfold glyph. fold (pixel_origin px dst).
  pose proof (load8_range font (chr + 1)) as Hn.
  assert (Hst : row_state px dst s 0 (pixel_origin px dst)).
  { split; [lia|]. split; [lia|]. ring. }
  replace (chr + 6) with (reference font chr 0) by (unfold reference; ring).
  destruct (fragments px font dst w s (Z.to_nat (load8 font (chr + 1))) chr
              (reference font chr 0) 0 (pixel_origin px dst)) as [[y o1] log] eqn:Hfr.
  assert (Hcnt : 0 + Z.of_nat (Z.to_nat (load8 font (chr + 1))) <= load8 font (chr + 1))
    by (rewrite Z2Nat.id; lia).
  destruct (fragments_anatomy _ 0 0 _ y o1 log (Z.le_refl 0) Hcnt Hst Hfr)
    as ((Hy & _ & Ho1) & Hlog).
  destruct (buf.bg dst =? 0) eqn:Hbg; cbn [negb]; [apply Hlog|].
  apply Z.eqb_neq in Hbg.
  intros He. apply in_app_or in He. destruct He as [He | He]; [auto|].
  left.
  destruct (fill_rows px dst w s (Z.to_nat (load8 font (chr + 3) - y))
              (load8 font (chr + 3)) (load8 font (chr + 2)) y o1) as [[y' o'] log'] eqn:Hfill.
  destruct (fill_rows_anatomy _ _ _ _ _ _ _ _ Hfill) as (_ & _ & Hlog').
  cbn [snd] in He. destruct (Hlog' e He) as (r & c & Hr & Hh & Hc & Hw & ->).
  split; [assumption|]. exists r, c. split; [lia|]. split; [assumption|].
  split; [assumption|]. split; [assumption|]. f_equal.
  unfold pixel_at. rewrite Ho1. ring.
Qed.
End Anatomy.

(** ** Where the stores of a call land *)

Lemma pitch_pixels (px : SSFN_PIXEL) (p : Z) :
  0 <= p < 65536 -> 0 <= p / sizeof px < 65536.
Proof.
  intros Hp. destruct px; cbn [sizeof]; Z.div_mod_to_equations; lia.
Qed.

Lemma advance_x_range (f : ssfn_font_t) (dst d : ssfn_buf_t) (u : Z) (chr : option Z) (w i : Z) :
  advance f dst u chr w i = Some d ->
  -2147483648 <= buf.x dst < 2147483648 -> -2147483648 <= buf.x d < 2147483648.
Proof.
  unfold advance, wrap_cursor. intros H Hx.
  pose proof (sint_range (buf.x dst - Z.rem (buf.x dst) (load8 f (match chr with Some c => c | None => 0 end + 4)))) as Hs.
  destruct chr as [c|].
  - destruct (negb (w =? 0)).
    + destruct (u =? 9).
      * destruct (load8 f (c + 4) =? 0); [discriminate|].
        destruct (sint _ >? w); destruct (u =? 10); injection H as <-; cbn; lia.
      * destruct (sint _ >? w); destruct (u =? 10); injection H as <-; cbn; lia.
    + destruct (u =? 10); injection H as <-; cbn; lia.
  - destruct (u =? 10); injection H as <-; cbn; lia.
Qed.

Lemma advance_x_nonneg (f : ssfn_font_t) (dst d : ssfn_buf_t) (u : Z) (chr : option Z) (w i : Z) :
  advance f dst u chr w i = Some d ->
  0 <= buf.x dst < 2147483648 -> 0 <= buf.x d <= buf.x dst.
Proof.
  unfold advance, wrap_cursor. intros H Hx.
  assert (Htab : forall c, load8 f (c + 4) <> 0 ->
            0 <= sint (buf.x dst - Z.rem (buf.x dst) (load8 f (c + 4))) <= buf.x dst).
  { intros c Hadv. pose proof (load8_range f (c + 4)) as Hr.
    pose proof (Z.rem_bound_pos (buf.x dst) (load8 f (c + 4)) ltac:(lia) ltac:(lia)) as Hb.
    assert (Z.rem (buf.x dst) (load8 f (c + 4)) <= buf.x dst).
    { rewrite Z.rem_mod_nonneg by lia. apply Z.mod_le; lia. }
    rewrite sint_small by lia. lia. }
  destruct chr as [c|].
  - destruct (negb (w =? 0)).
    + destruct (u =? 9).
      * destruct (load8 f (c + 4) =? 0) eqn:Hadv; [discriminate|].
        apply Z.eqb_neq in Hadv. specialize (Htab c Hadv).
        destruct (sint _ >? w); destruct (u =? 10); injection H as <-; cbn; lia.
      * destruct (sint _ >? w); destruct (u =? 10); injection H as <-; cbn; lia.
    + destruct (u =? 10); injection H as <-; cbn; lia.
  - destruct (u =? 10); injection H as <-; cbn; lia.
Qed.

Lemma frame_of_fields (d d' : ssfn_buf_t) :
  frame_of d = frame_of d' ->
  buf.ptr d = buf.ptr d' /\ buf.p d = buf.p d' /\ buf.h d = buf.h d'.
Proof. unfold frame_of. intros [= -> _ -> -> _ _]. auto. Qed.

(** A call that returns a status has gone through the control block (if
    compiled in), which left a context [d1] and a memory [m1]; its stores
    are those of the fill loops and of the bitmap loop on [d1], and its
    memory is [m1] with the stores done. *)
Lemma ssfn_putc_stores (b : build) (f : ssfn_font_t) (dst : ssfn_buf_t) (m : memory) (u : Z)
    (status : Z) (d' : ssfn_buf_t) (m' : memory) (log : list store) :
  0 <= buf.p dst < 65536 ->
  ssfn_putc b (Some f) dst m u = Ret status d' m' log ->
  exists d1 m1,
    frame_of d1 = frame_of dst /\
    (if SSFN_CONSOLEBITMAP_CONTROL b && valid_input (Some f) dst
     then exists d,
            advance f dst u (lookup f u) (abs_width dst) (height f) = Some d /\
            scroll_on_overflow d (height f) (last_line dst (height f)) m = (d1, m1)
     else d1 = dst /\ m1 = m) /\
    m' = commit (pixel b) d1 log m1 /\
    forall e, In e log ->
      exists c, lookup f u = Some c /\
        (fill_store (pixel b) f d1 (abs_width dst) (buf.p dst / sizeof (pixel b)) c e \/
         bit_store (pixel b) f d1 (abs_width dst) (buf.p dst / sizeof (pixel b)) c e).
Proof.
  intros Hp Hret.
  destruct (valid_input (Some f) dst) eqn:Hv.
  2:{ rewrite ssfn_putc_invalid in Hret by assumption.
      injection Hret as _ _ <- <-. exists dst, m.
      rewrite Bool.andb_false_r. repeat split; contradiction. }
  destruct (ssfn_putc_blit _ _ _ _ _ _ _ _ _ Hv Hret) as (d1 & m1 & Hfr & Hctl & Hlog).
  exists d1, m1. split; [exact Hfr|]. rewrite Bool.andb_true_r. split; [exact Hctl|].
  destruct (frame_of_fields _ _ Hfr) as (_ & Hpp & _).
  rewrite <- (frame_of_abs_width _ _ Hfr), <- Hpp.
  destruct Hlog as [(-> & ->) | (c & Hl & Hlog & ->)]; [split; [reflexivity | contradiction]|].
  split; [reflexivity|].
  intros e He. exists c. split; [assumption|]. subst log.
  apply glyph_anatomy; [|assumption].
  apply pitch_pixels. rewrite Hpp. assumption.
Qed.

(** The context the blitter starts from has the caller's [x], moved left
    if at all, when the caller's is not negative. *)
Lemma blit_context_x (b : build) (f : ssfn_font_t) (dst d1 : ssfn_buf_t) (m m1 : memory) (u : Z) :
  (if SSFN_CONSOLEBITMAP_CONTROL b && valid_input (Some f) dst
   then exists d,
          advance f dst u (lookup f u) (abs_width dst) (height f) = Some d /\
          scroll_on_overflow d (height f) (last_line dst (height f)) m = (d1, m1)
   else d1 = dst /\ m1 = m) ->
  (SSFN_CONSOLEBITMAP_CONTROL b = false -> d1 = dst /\ m1 = m) /\
  (-2147483648 <= buf.x dst < 2147483648 -> -2147483648 <= buf.x d1 < 2147483648) /\
  (0 <= buf.x dst < 2147483648 -> 0 <= buf.x d1 <= buf.x dst).
Proof.
  destruct (SSFN_CONSOLEBITMAP_CONTROL b && valid_input (Some f) dst) eqn:Hc.
  - intros (d & Ha & Hs). apply Bool.andb_true_iff in Hc. destruct Hc as (Hc & _).
    rewrite (scroll_on_overflow_x _ _ _ _ _ _ Hs).
    split; [rewrite Hc; discriminate|]. split.
    + apply (advance_x_range _ _ _ _ _ _ _ Ha).
    + apply (advance_x_nonneg _ _ _ _ _ _ _ Ha).
  - intros (-> & ->). repeat split; lia.
Qed.

(** ** Clipping against the width *)




(** ** Transparent background *)

(** C9: when the background color is 0, the blitter of lines 297-323
    stores the foreground color and nothing else, each store on a pixel
    that lies under a set bit of one of the glyph's bitmap fragments, and
    every byte outside those pixels has after the call the value it had
    when the blitter started.  The blitter starts from the caller's
    context and memory when the control block is not compiled in, and from
    what the control block leaves otherwise, which is the caller's memory
    unless it scrolls. *)
Theorem transparent_keeps_pixels (b : build) (f : ssfn_font_t) (dst : ssfn_buf_t) (m : memory)
    (u status : Z) (d' : ssfn_buf_t) (m' : memory) (log : list store) :
  buf.bg dst = 0 ->
  0 <= buf.p dst < 65536 ->
  valid_input (Some f) dst = true ->
  ssfn_putc b (Some f) dst m u = Ret status d' m' log ->
  exists d1 m1,
    frame_of d1 = frame_of dst /\
    (if SSFN_CONSOLEBITMAP_CONTROL b
     then exists d,
            advance f dst u (lookup f u) (abs_width dst) (height f) = Some d /\
            scroll_on_overflow d (height f) (last_line dst (height f)) m = (d1, m1) /\
            (last_line dst (height f) <= 0 \/ buf.y d <= last_line dst (height f) -> m1 = m)
     else d1 = dst /\ m1 = m) /\
    (forall e, In e log ->
       st_paint e = SetBit /\
       exists c, lookup f u = Some c /\
         foreground (pixel b) f d1 (buf.p dst / sizeof (pixel b)) c (st_p e)) /\
    (forall a,
       (forall c p, lookup f u = Some c ->
          foreground (pixel b) f d1 (buf.p dst / sizeof (pixel b)) c p ->
          ~ (p <= a < p + sizeof (pixel b))) ->
       m' a = m1 a).
Proof.
  intros Hbg Hp Hv Hret.
  destruct (ssfn_putc_stores _ _ _ _ _ _ _ _ _ Hp Hret) as (d1 & m1 & Hfr & Hctl & Hm & Hlog).
  rewrite Hv, Bool.andb_true_r in Hctl.
  assert (Hbg1 : buf.bg d1 = 0) by (rewrite (frame_of_bg _ _ Hfr); assumption).
  assert (Hfg : forall e, In e log ->
            st_paint e = SetBit /\
            exists c, lookup f u = Some c /\
              foreground (pixel b) f d1 (buf.p dst / sizeof (pixel b)) c (st_p e)).
  { intros e He. destruct (Hlog e He) as (c & Hl & [(Hne & _) | Hbit]); [contradiction|].
    destruct Hbit as (idx & top & r & l & Hin & _ & Htop & _ & _ & _ & Hclear & ->).
    destruct (fragment_bit f c idx r l) eqn:Hb; [|exfalso; apply Hclear; auto].
    cbn [st_paint st_p]. split; [reflexivity|].
    exists c. split; [assumption|]. exists idx, r, l.
    split; [assumption|]. split; [assumption|]. rewrite (Htop Hbg1). reflexivity. }
  exists d1, m1. split; [exact Hfr|]. split.
  { destruct (SSFN_CONSOLEBITMAP_CONTROL b); [|exact Hctl].
    destruct Hctl as (d & Ha & Hs). exists d. split; [exact Ha|]. split; [exact Hs|].
    intros Hno. unfold scroll_on_overflow in Hs.
    replace ((last_line dst (height f) >? 0) && (buf.y d >? last_line dst (height f)))
      with false in Hs.
    - injection Hs as _ <-. reflexivity.
    - symmetry. apply Bool.andb_false_iff.
      destruct Hno; [left | right]; rewrite Z.gtb_ltb; apply Z.ltb_ge; assumption. }
  split; [exact Hfg|].
  intros a Ha. rewrite Hm. apply commit_frame.
  intros e He. destruct (Hfg e He) as (_ & c & Hl & Hf).
  unfold covers. apply (Ha c (st_p e) Hl Hf).
Qed.

Lemma transparent_keeps_pixels_witness :
  exists d1 m1,
    frame_of d1 = frame_of (screen 0 0 5 0) /\
    (if SSFN_CONSOLEBITMAP_CONTROL truecolor_console
     then exists d,
            advance (font_A 8 1 [5; 2]) (screen 0 0 5 0) 65 (lookup (font_A 8 1 [5; 2]) 65)
              (abs_width (screen 0 0 5 0)) (height (font_A 8 1 [5; 2])) = Some d /\
            scroll_on_overflow d (height (font_A 8 1 [5; 2]))
              (last_line (screen 0 0 5 0) (height (font_A 8 1 [5; 2]))) ramp = (d1, m1) /\
            (last_line (screen 0 0 5 0) (height (font_A 8 1 [5; 2])) <= 0 \/
             buf.y d <= last_line (screen 0 0 5 0) (height (font_A 8 1 [5; 2])) -> m1 = ramp)
     else d1 = screen 0 0 5 0 /\ m1 = ramp) /\
    (forall e,
       In e [mkstore SetBit 0 0 4096; mkstore SetBit 2 2 4104; mkstore SetBit 1 1 4164] ->
       st_paint e = SetBit /\
       exists c, lookup (font_A 8 1 [5; 2]) 65 = Some c /\
         foreground (pixel truecolor_console) (font_A 8 1 [5; 2]) d1
           (buf.p (screen 0 0 5 0) / sizeof (pixel truecolor_console)) c (st_p e)) /\
    (forall a,
       (forall c p, lookup (font_A 8 1 [5; 2]) 65 = Some c ->
          foreground (pixel truecolor_console) (font_A 8 1 [5; 2]) d1
            (buf.p (screen 0 0 5 0) / sizeof (pixel truecolor_console)) c p ->
          ~ (p <= a < p + sizeof (pixel truecolor_console))) ->
       commit TRUECOLOR (screen 0 0 5 0)
         [mkstore SetBit 0 0 4096; mkstore SetBit 2 2 4104; mkstore SetBit 1 1 4164] ramp a
       = m1 a).
Proof.
  apply (transparent_keeps_pixels truecolor_console (font_A 8 1 [5; 2]) (screen 0 0 5 0) ramp 65
           SSFN_OK (screen 8 0 5 0)
           (commit TRUECOLOR (screen 0 0 5 0)
              [mkstore SetBit 0 0 4096; mkstore SetBit 2 2 4104; mkstore SetBit 1 1 4164] ramp)
           [mkstore SetBit 0 0 4096; mkstore SetBit 2 2 4104; mkstore SetBit 1 1 4164]).
  - reflexivity.
  - simpl. lia.
  - vm_compute. reflexivity.
  - reflexivity.
Defined.

(** ** Skip markers of the character table *)

(** The counter never goes back: a record is only found for a code point
    at or after the counter the scan is resumed with. *)
Lemma scan_counter (n : nat) : forall (f : ssfn_font_t) (u ptr i c : Z),
  scan n f u ptr i = Some c -> i <= u.
Proof.
  induction n as [|n IH]; intros f u ptr i c; cbn [scan]; [discriminate|].
  destruct (i <? 1114112); [|discriminate].
  destruct (scan_entry f u ptr i) as [c'|ptr' i'] eqn:He.
  - intros _. apply scan_entry_found in He. lia.
  - intros Hs. apply scan_entry_grows in He. apply IH in Hs. lia.
Qed.

Lemma scan_entry_record (f : ssfn_font_t) (u ptr : Z) :
  load8 f ptr < 128 -> scan_entry f u ptr u = Found ptr.
Proof.
  intros Hb. unfold scan_entry; cbv zeta.
  pose proof (load8_range f ptr) as Hr.
  pose proof (top_bit_tests _ Hr) as Ht.
  replace (128 <=? load8 f ptr) with false in Ht by (symmetry; apply Z.leb_gt; assumption).
  apply Bool.orb_false_iff in Ht. destruct Ht as (-> & ->).
  replace (load8 f ptr =? 255) with false by (symmetry; apply Z.eqb_neq; lia).
  rewrite Z.eqb_refl. reflexivity.
Qed.

Lemma long_skip_value (b0 b1 : Z) :
  0 <= b0 < 256 -> 0 <= b1 < 256 ->
  0 <= Z.lor (Z.shiftl (Z.land b0 0x3F) 8) b1 < 0x4000.
Proof.
  intros H0 H1.
  assert (Hl : 0 <= Z.land b0 0x3F < 64).
  { split; [apply Z.land_nonneg; lia|].
    change 0x3F with (Z.ones 6). rewrite Z.land_ones by lia.
    apply Z.mod_pos_bound. lia. }
  rewrite Z.shiftl_mul_pow2 by lia.
  rewrite lor_high_low by (change (2 ^ 8) with 256; lia). change (2 ^ 8) with 256. lia.
Qed.

(** C5, as the code has it: on a byte [b0] with top bits [11] other than
    [0xFF], with [j = ((b0 & 0x3F) << 8) | b1] the value of the marker, the
    loop body adds [j] to the code point counter and the [i++] of the loop
    adds one more before the next entry is read, two bytes further.  The
    marker stands for [j + 1] code points: none of [i .. i + j] has a
    glyph, and a record that follows the marker is the glyph of code point
    [i + j + 1]. *)
Theorem long_skip_marker (f : ssfn_font_t) (ptr i : Z) (n : nat) :
  Z.land (load8 f ptr) 0xC0 = 0xC0 ->
  load8 f ptr <> 0xFF ->
  0 <= i < 0x110000 ->
  let j := Z.lor (Z.shiftl (Z.land (load8 f ptr) 0x3F) 8) (load8 f (ptr + 1)) in
  0 <= j < 0x4000 /\
  (forall u, scan (S n) f u ptr i = scan n f u (ptr + 2) (i + j + 1)) /\
  (forall u, i <= u <= i + j -> scan (S n) f u ptr i = None) /\
  (i + j + 1 < 0x110000 -> load8 f (ptr + 2) < 128 ->
   scan (S (S n)) f (i + j + 1) ptr i = Some (ptr + 2) /\
   forall u, u <> i + j + 1 -> scan (S (S n)) f u ptr i <> Some (ptr + 2)).
Proof.
  intros Htop Hff Hi j.
  assert (Hj : 0 <= j < 0x4000)
    by (apply long_skip_value; apply load8_range).
  assert (E : forall u, scan_entry f u ptr i = Next (ptr + 2) (i + j)).
  { intros u. unfold scan_entry; cbv zeta.
    destruct (load8 f ptr =? 255) eqn:E; [apply Z.eqb_eq in E; contradiction|].
    rewrite Htop. reflexivity. }
  assert (Hstep : forall k u, scan (S k) f u ptr i = scan k f u (ptr + 2) (i + j + 1)).
  { intros k u. cbn [scan]. rewrite E.
    replace (i <? 1114112) with true by (symmetry; apply Z.ltb_lt; lia).
    reflexivity. }
  split; [exact Hj|]. split; [apply Hstep|]. split.
  - intros u Hu. rewrite Hstep.
    destruct (scan n f u (ptr + 2) (i + j + 1)) as [c|] eqn:Hs; [|reflexivity].
    apply scan_counter in Hs. lia.
  - intros Hlt Hrec. split.
    + rewrite Hstep. cbn [scan].
      replace (i + j + 1 <? 1114112) with true by (symmetry; apply Z.ltb_lt; lia).
      rewrite scan_entry_record by assumption. reflexivity.
    + intros u Hu. rewrite Hstep. cbn [scan].
      replace (i + j + 1 <? 1114112) with true by (symmetry; apply Z.ltb_lt; lia).
      destruct (scan_entry f u (ptr + 2) (i + j + 1)) as [c|ptr' i'] eqn:He.
      * apply scan_entry_found in He. lia.
      * intros Hs. pose proof (scan_entry_grows _ _ _ _ _ _ He) as Hg.
        apply scan_entry_forward in He.
        apply scan_some in Hs; [|lia]. lia.
Qed.

Lemma long_skip_marker_witness :
  0 <= 5 < 0x4000 /\
  (forall u, scan 3 long_skip_font u 48 0 = scan 2 long_skip_font u (48 + 2) (0 + 5 + 1)) /\
  (forall u, 0 <= u <= 0 + 5 -> scan 3 long_skip_font u 48 0 = None) /\
  (0 + 5 + 1 < 0x110000 -> load8 long_skip_font (48 + 2) < 128 ->
   scan 4 long_skip_font (0 + 5 + 1) 48 0 = Some (48 + 2) /\
   forall u, u <> 0 + 5 + 1 -> scan 4 long_skip_font u 48 0 <> Some (48 + 2)).
Proof.
  apply (long_skip_marker long_skip_font 48 0 2%nat).
  - vm_compute; reflexivity.
  - vm_compute; discriminate.
  - lia.
Defined.

(** The marker [0xC0 0x05] at the head of a table has value 5; the record
    that follows it is the glyph of code point 6, and code point 5 has no
    glyph. *)
Lemma long_skip_counterexample :
  load8 long_skip_font (characters_offs long_skip_font) = 0xC0 /\
  load8 long_skip_font (characters_offs long_skip_font + 1) = 5 /\
  Z.lor (Z.shiftl (Z.land 0xC0 0x3F) 8) 5 = 5 /\
  load8 long_skip_font (characters_offs long_skip_font + 2) < 128 /\
  lookup long_skip_font 5 = None /\
  lookup long_skip_font 6 = Some (characters_offs long_skip_font + 2).
Proof. repeat split; vm_compute; reflexivity. Qed.

(** ** Tables of skip markers only *)

Lemma marker_byte_bits (b : Z) :
  0 <= b < 256 ->
  (192 <= b -> Z.land b 0xC0 = 0xC0 /\ Z.land b 0x3F = b - 192) /\
  (128 <= b < 192 -> Z.land b 0xC0 = 0x80 /\ Z.land b 0x3F = b - 128).
Proof.
  intros Hb.
  assert (H : forallb (fun b =>
                (if 192 <=? b then (Z.land b 0xC0 =? 0xC0) && (Z.land b 0x3F =? b - 192)
                 else true)
                && (if (128 <=? b) && (b <? 192)
                    then (Z.land b 0xC0 =? 0x80) && (Z.land b 0x3F =? b - 128)
                    else true)) (zrange 0 256) = true)
    by (vm_compute; reflexivity).
  rewrite forallb_forall in H. specialize (H b (zrange_in 256 0 b ltac:(lia))).
  apply Bool.andb_true_iff in H. destruct H as (H1 & H2). split.
  - intros Hge. replace (192 <=? b) with true in H1 by (symmetry; apply Z.leb_le; lia).
    apply Bool.andb_true_iff in H1. destruct H1 as (Ha & Hc).
    apply Z.eqb_eq in Ha, Hc. auto.
  - intros Hr. replace (128 <=? b) with true in H2 by (symmetry; apply Z.leb_le; lia).
    replace (b <? 192) with true in H2 by (symmetry; apply Z.ltb_lt; lia).
    apply Bool.andb_true_iff in H2. destruct H2 as (Ha & Hc).
    apply Z.eqb_eq in Ha, Hc. auto.
Qed.

Lemma holds_app (f : memory) (l1 l2 : list Z) : forall a,
  holds f a (l1 ++ l2) -> holds f a l1 /\ holds f (a + Z.of_nat (length l1)) l2.
Proof.
  induction l1 as [|b l1 IH]; intros a; cbn [app holds length].
  - rewrite Z.add_0_r. auto.
  - intros (Hb & Hr). destruct (IH (a + 1) Hr) as (H1 & H2).
    split; [split; assumption|].
    replace (a + Z.of_nat (S (length l1))) with (a + 1 + Z.of_nat (length l1)) by lia.
    exact H2.
Qed.

(** What the loop body does on the bytes of a marker. *)
Lemma scan_entry_marker (f : ssfn_font_t) (u ptr i : Z) (k : marker) :
  marker_ok k -> holds f ptr (marker_bytes k) ->
  scan_entry f u ptr i
  = Next (ptr + Z.of_nat (length (marker_bytes k))) (i + marker_skips k - 1).
Proof.
  intros Hok Hh. unfold scan_entry; cbv zeta.
  destruct k as [|j|j]; cbn [marker_bytes holds marker_ok marker_skips length] in *.
  - destruct Hh as (-> & _). cbn. f_equal; ring.
  - destruct Hh as (H0 & H1 & _).
    assert (Hq : 0 <= j / 256 < 63) by (Z.div_mod_to_equations; lia).
    assert (Hm : 0 <= j mod 256 < 256) by (apply Z.mod_pos_bound; lia).
    destruct (marker_byte_bits (192 + j / 256) ltac:(lia)) as ((Ha & Hc) & _); [lia|].
    rewrite H0, H1.
    replace (192 + j / 256 =? 255) with false by (symmetry; apply Z.eqb_neq; lia).
    rewrite Ha, Hc. cbn [Z.eqb Pos.eqb].
    rewrite Z.shiftl_mul_pow2 by lia.
    rewrite lor_high_low by (change (2 ^ 8) with 256; lia).
    change (2 ^ 8) with 256.
    f_equal; try lia; Z.div_mod_to_equations; lia.
  - destruct Hh as (H0 & _).
    destruct (marker_byte_bits (128 + j) ltac:(lia)) as (_ & Hs).
    destruct (Hs ltac:(lia)) as (Ha & Hc).
    rewrite H0.
    replace (128 + j =? 255) with false by (symmetry; apply Z.eqb_neq; lia).
    rewrite Ha, Hc. cbn [Z.eqb Pos.eqb]. f_equal; lia.
Qed.

Lemma marker_skips_pos (k : marker) : marker_ok k -> 0 < marker_skips k.
Proof. destruct k; cbn; lia. Qed.

Lemma scan_markers (f : ssfn_font_t) (u : Z) (ms : list marker) : forall (n : nat) (ptr i : Z),
  Forall marker_ok ms ->
  holds f ptr (flat_map marker_bytes ms) ->
  0x110000 <= i + markers_skip ms ->
  scan n f u ptr i = None.
Proof.
  induction ms as [|k ms IH]; intros n ptr i Hok Hh Hsum.
  - cbn [markers_skip fold_right] in Hsum.
    destruct n; cbn [scan]; [reflexivity|].
    replace (i <? 1114112) with false by (symmetry; apply Z.ltb_ge; lia). reflexivity.
  - destruct n; cbn [scan]; [reflexivity|].
    destruct (i <? 1114112); [|reflexivity].
    inversion Hok as [|? ? Hk Hrest]; subst.
    cbn [flat_map] in Hh. apply holds_app in Hh. destruct Hh as (Hhk & Hhr).
    rewrite (scan_entry_marker f u ptr i k Hk Hhk).
    apply IH; [assumption | assumption|].
    cbn [markers_skip fold_right] in Hsum. fold (markers_skip ms) in Hsum. lia.
Qed.

(** X3: a character table that is a sequence of skip markers passing over
    [0x110000] code points or more holds no glyph: the scan returns
    nothing for any code point, whatever follows the markers in the
    image. *)
Theorem lookup_markers_only (f : ssfn_font_t) (ms : list marker) (u : Z) :
  Forall marker_ok ms ->
  holds f (characters_offs f) (flat_map marker_bytes ms) ->
  0x110000 <= markers_skip ms ->
  lookup f u = None.
Proof.
  intros Hok Hh Hsum. unfold lookup. apply (scan_markers f u ms); [assumption | assumption | lia].
Qed.

Lemma lookup_markers_only_witness : lookup marker_font 65 = None.
Proof.
  apply (lookup_markers_only marker_font
           (SkipShort 9 :: SkipLong 300 :: repeat SkipBlock 17) 65).
  - repeat constructor; cbn; lia.
  - vm_compute. repeat split.
  - vm_compute. discriminate.
Defined.

(** ** The three ways a call returns *)

(** X5: the status of a returning call is decided by three tests, in
    this order, and each fixes what the call leaves behind.  Invalid input
    gives [SSFN_ERR_INVINP] with the caller's context and memory.
    Otherwise the control block, if compiled in, runs first and leaves a
    context [d1] and a memory [m1], the caller's memory unless it scrolls;
    then a carriage return or newline under the control block gives
    [SSFN_OK] with [x = 0] and memory [m1], a code point without a glyph
    gives [SSFN_ERR_NOGLYPH] with [d1] and [m1] as they are, and a code
    point with a glyph gives [SSFN_OK] with the stores of the blitter done
    on [m1].  No other error code of the header is ever returned. *)
Theorem status_cases (b : build) (src : option ssfn_font_t) (dst : ssfn_buf_t) (m : memory)
    (u st : Z) (d' : ssfn_buf_t) (m' : memory) (log : list store) :
  ssfn_putc b src dst m u = Ret st d' m' log ->
  (valid_input src dst = false /\
   st = SSFN_ERR_INVINP /\ d' = dst /\ m' = m /\ log = []) \/
  (valid_input src dst = true /\
   exists f d1 m1, src = Some f /\
     (if SSFN_CONSOLEBITMAP_CONTROL b
      then exists d,
             advance f dst u (lookup f u) (abs_width dst) (height f) = Some d /\
             scroll_on_overflow d (height f) (last_line dst (height f)) m = (d1, m1) /\
             (last_line dst (height f) <= 0 \/ buf.y d <= last_line dst (height f) -> m1 = m)
      else d1 = dst /\ m1 = m) /\
     if SSFN_CONSOLEBITMAP_CONTROL b && ((u =? 13) || (u =? 10))
     then st = SSFN_OK /\ d' = buf.set_x d1 0 /\ m' = m1 /\ log = []
     else match lookup f u with
          | None => st = SSFN_ERR_NOGLYPH /\ d' = d1 /\ m' = m1 /\ log = []
          | Some c =>
            st = SSFN_OK /\
            log = glyph (pixel b) f d1 (abs_width dst) (buf.p dst / sizeof (pixel b)) c /\
            m' = commit (pixel b) d1 log m1 /\
            buf.x d' = sint (buf.x d1 + load8 f (c + 4)) /\
            buf.y d' = sint (buf.y d1 + load8 f (c + 5))
          end).
Proof.
  intros H.
  destruct (valid_input src dst) eqn:Hv.
  2:{ left. rewrite ssfn_putc_invalid in H by assumption.
      injection H as <- <- <- <-. auto. }
  right. split; [reflexivity|].
  destruct src as [f|]; [|discriminate].
  assert (Hfin : forall d1 m1,
    frame_of d1 = frame_of dst ->
    finish b f u (lookup f u) d1 m1 = Ret st d' m' log ->
    if SSFN_CONSOLEBITMAP_CONTROL b && ((u =? 13) || (u =? 10))
    then st = SSFN_OK /\ d' = buf.set_x d1 0 /\ m' = m1 /\ log = []
    else match lookup f u with
         | None => st = SSFN_ERR_NOGLYPH /\ d' = d1 /\ m' = m1 /\ log = []
         | Some c =>
           st = SSFN_OK /\
           log = glyph (pixel b) f d1 (abs_width dst) (buf.p dst / sizeof (pixel b)) c /\
           m' = commit (pixel b) d1 log m1 /\
           buf.x d' = sint (buf.x d1 + load8 f (c + 4)) /\
           buf.y d' = sint (buf.y d1 + load8 f (c + 5))
         end).
  { intros d1 m1 Hfr. unfold finish.
    destruct (frame_of_fields _ _ Hfr) as (_ & Hpp & _).
    rewrite <- (frame_of_abs_width _ _ Hfr), <- Hpp.
    destruct (SSFN_CONSOLEBITMAP_CONTROL b && ((u =? 13) || (u =? 10))).
    - intros [= <- <- <- <-]. auto.
    - destruct (lookup f u); intros [= <- <- <- <-]; auto. }
  unfold ssfn_putc in H. rewrite Hv in H. cbn [negb] in H.
  destruct (SSFN_CONSOLEBITMAP_CONTROL b) eqn:Hc.
  - destruct (height f =? 0); [discriminate|].
    destruct (advance f dst u (lookup f u) (abs_width dst) (height f)) as [d|] eqn:Ha;
      [|discriminate].
    destruct (scroll_on_overflow d (height f) (last_line dst (height f)) m) as [d1 m1] eqn:Hs.
    exists f, d1, m1. split; [reflexivity|]. split.
    + exists d. split; [exact Ha|]. split; [exact Hs|].
      intros Hno. unfold scroll_on_overflow in Hs.
      replace ((last_line dst (height f) >? 0) && (buf.y d >? last_line dst (height f)))
        with false in Hs.
      * injection Hs as _ <-. reflexivity.
      * symmetry. apply Bool.andb_false_iff.
        destruct Hno; [left | right]; rewrite Z.gtb_ltb; apply Z.ltb_ge; assumption.
    + apply Hfin; [|exact H].
      rewrite (scroll_on_overflow_frame _ _ _ _ _ _ Hs). apply (advance_frame _ _ _ _ _ _ _ Ha).
  - exists f, dst, m. split; [reflexivity|]. split; [auto|].
    apply Hfin; [reflexivity | exact H].
Qed.

Lemma status_cases_witness :
  (valid_input (Some bare_font) (buf.mk 4096 16 40 64 0 30 1 0) = false /\
   SSFN_ERR_NOGLYPH = SSFN_ERR_INVINP /\
   buf.mk 4096 16 40 64 0 16 1 0 = buf.mk 4096 16 40 64 0 30 1 0 /\
   scroll 16 (buf.mk 4096 16 40 64 0 30 1 0) 16 16 0 ramp = ramp /\ @nil store = []) \/
  (valid_input (Some bare_font) (buf.mk 4096 16 40 64 0 30 1 0) = true /\
   exists f d1 m1, Some bare_font = Some f /\
     (if SSFN_CONSOLEBITMAP_CONTROL truecolor_console
      then exists d,
             advance f (buf.mk 4096 16 40 64 0 30 1 0) 65 (lookup f 65)
               (abs_width (buf.mk 4096 16 40 64 0 30 1 0)) (height f) = Some d /\
             scroll_on_overflow d (height f)
               (last_line (buf.mk 4096 16 40 64 0 30 1 0) (height f)) ramp = (d1, m1) /\
             (last_line (buf.mk 4096 16 40 64 0 30 1 0) (height f) <= 0 \/
              buf.y d <= last_line (buf.mk 4096 16 40 64 0 30 1 0) (height f) -> m1 = ramp)
      else d1 = buf.mk 4096 16 40 64 0 30 1 0 /\ m1 = ramp) /\
     if SSFN_CONSOLEBITMAP_CONTROL truecolor_console && ((65 =? 13) || (65 =? 10))
     then SSFN_ERR_NOGLYPH = SSFN_OK /\ buf.mk 4096 16 40 64 0 16 1 0 = buf.set_x d1 0 /\
          scroll 16 (buf.mk 4096 16 40 64 0 30 1 0) 16 16 0 ramp = m1 /\ @nil store = []
     else match lookup f 65 with
          | None => SSFN_ERR_NOGLYPH = SSFN_ERR_NOGLYPH /\
                    buf.mk 4096 16 40 64 0 16 1 0 = d1 /\
                    scroll 16 (buf.mk 4096 16 40 64 0 30 1 0) 16 16 0 ramp = m1 /\
                    @nil store = []
          | Some c =>
            SSFN_ERR_NOGLYPH = SSFN_OK /\
            [] = glyph (pixel truecolor_console) f d1
                   (abs_width (buf.mk 4096 16 40 64 0 30 1 0))
                   (buf.p (buf.mk 4096 16 40 64 0 30 1 0) / sizeof (pixel truecolor_console)) c /\
            scroll 16 (buf.mk 4096 16 40 64 0 30 1 0) 16 16 0 ramp
            = commit (pixel truecolor_console) d1 [] m1 /\
            buf.x (buf.mk 4096 16 40 64 0 16 1 0) = sint (buf.x d1 + load8 f (c + 4)) /\
            buf.y (buf.mk 4096 16 40 64 0 16 1 0) = sint (buf.y d1 + load8 f (c + 5))
          end).
Proof.
  apply (status_cases truecolor_console (Some bare_font) (buf.mk 4096 16 40 64 0 30 1 0)
           ramp 65 SSFN_ERR_NOGLYPH (buf.mk 4096 16 40 64 0 16 1 0)
           (scroll 16 (buf.mk 4096 16 40 64 0 30 1 0) 16 16 0 ramp) []).
  reflexivity.
Defined.

(** ** The last store to a pixel *)

Lemma commit_app (px : SSFN_PIXEL) (dst : ssfn_buf_t) (l1 l2 : list store) (m : memory) :
  commit px dst (l1 ++ l2) m = commit px dst l2 (commit px dst l1 m).
Proof. unfold commit. apply fold_left_app. Qed.

Lemma commit_last_store (px : SSFN_PIXEL) (dst : ssfn_buf_t) (o : Z)
    (l1 : list store) (e : store) (l2 : list store) (m : memory) :
  (forall e', In e' (l1 ++ e :: l2) -> on_grid px o (st_p e')) ->
  (forall e', In e' l2 -> st_p e' <> st_p e) ->
  load_pixel px (commit px dst (l1 ++ e :: l2) m) (st_p e)
  = color dst (st_paint e) mod 2 ^ (8 * sizeof px).
Proof.
  intros Hgrid Hlast. rewrite commit_app.
  change (commit px dst (e :: l2) (commit px dst l1 m))
    with (commit px dst l2
            (store_pixel px (commit px dst l1 m) (st_p e) (color dst (st_paint e)))).
  rewrite <- (load_store_pixel px (commit px dst l1 m) (st_p e) (color dst (st_paint e))).
  apply load_pixel_ext. intros c Hc. apply commit_frame.
  intros e' He'. unfold covers.
  apply (on_grid_apart px o (st_p e) (st_p e') c).
  - apply Hgrid. apply in_or_app. right. left. reflexivity.
  - apply Hgrid. apply in_or_app. right. right. exact He'.
  - intros Heq. apply (Hlast e' He'). symmetry. exact Heq.
  - exact Hc.
Qed.

Lemma last_store_to (log : list store) (a : Z) :
  (exists e, In e log /\ st_p e = a) ->
  exists l1 e' l2,
    log = l1 ++ e' :: l2 /\ st_p e' = a /\ forall e'', In e'' l2 -> st_p e'' <> a.
Proof.
  induction log as [|e0 rest IH]; intros (e & He & Hp); [contradiction|].
  destruct (Exists_dec (fun e' => st_p e' = a) rest (fun e' => Z.eq_dec (st_p e') a))
    as [Hex | Hno].
  - apply Exists_exists in Hex. destruct (IH Hex) as (l1 & e' & l2 & -> & Hp' & Hl2).
    exists (e0 :: l1), e', l2. auto.
  - assert (Hall : forall e', In e' rest -> st_p e' <> a).
    { intros e' He' Heq. apply Hno. apply Exists_exists. eauto. }
    destruct He as [<- | He]; [|destruct (Hall e He Hp)].
    exists [], e0, rest. auto.
Qed.

(** X12: after a call on valid input, every pixel the blitter stored to
    holds the color of the last store to it, reduced to the pixel type:
    the log of the call splits at that store, no store after it goes to
    the same pixel, and the pixel reads as the foreground color if that
    store was for a set bit and as the background color otherwise. *)
Theorem last_store_wins (b : build) (f : ssfn_font_t) (dst : ssfn_buf_t) (m : memory)
    (u st : Z) (d' : ssfn_buf_t) (m' : memory) (log : list store) :
  valid_input (Some f) dst = true ->
  ssfn_putc b (Some f) dst m u = Ret st d' m' log ->
  forall e, In e log ->
  exists l1 e' l2,
    log = l1 ++ e' :: l2 /\
    st_p e' = st_p e /\
    (forall e'', In e'' l2 -> st_p e'' <> st_p e) /\
    load_pixel (pixel b) m' (st_p e)
    = (match st_paint e' with SetBit => buf.fg dst | _ => buf.bg dst end)
      mod 2 ^ (8 * sizeof (pixel b)).
Proof.
  intros Hv H e He.
  destruct (ssfn_putc_blit _ _ _ _ _ _ _ _ _ Hv H) as (d1 & m1 & Hfr & _ & Hlog).
  destruct Hlog as [(-> & _) | (c & _ & Hl & ->)]; [contradiction|].
  destruct (last_store_to log (st_p e)) as (l1 & e' & l2 & Hsplit & Hp & Hl2); [eauto|].
  exists l1, e', l2. split; [exact Hsplit|]. split; [exact Hp|]. split; [exact Hl2|].
  rewrite <- Hp, Hsplit.
  rewrite (commit_last_store (pixel b) d1 (pixel_origin (pixel b) d1)).
  - unfold color. unfold frame_of in Hfr. injection Hfr as _ _ _ _ -> ->. reflexivity.
  - rewrite <- Hsplit. subst log. apply glyph_grid.
  - rewrite Hp. exact Hl2.
Qed.

Lemma last_store_wins_witness :
  exists l1 e' l2,
    glyph TRUECOLOR wide_font (buf.mk 4096 0 0 64 0 0 5 9) 0 16 50 = l1 ++ e' :: l2 /\
    st_p e' = st_p (mkstore FillRow 16 16 4160) /\
    (forall e'', In e'' l2 -> st_p e'' <> st_p (mkstore FillRow 16 16 4160)) /\
    load_pixel (pixel truecolor_plain)
      (commit TRUECOLOR (buf.mk 4096 0 0 64 0 0 5 9)
         (glyph TRUECOLOR wide_font (buf.mk 4096 0 0 64 0 0 5 9) 0 16 50) ramp)
      (st_p (mkstore FillRow 16 16 4160))
    = (match st_paint e' with
       | SetBit => buf.fg (buf.mk 4096 0 0 64 0 0 5 9)
       | _ => buf.bg (buf.mk 4096 0 0 64 0 0 5 9)
       end) mod 2 ^ (8 * sizeof (pixel truecolor_plain)).
Proof.
  apply (last_store_wins truecolor_plain wide_font (buf.mk 4096 0 0 64 0 0 5 9) ramp 65 SSFN_OK
           (buf.mk 4096 0 0 64 8 0 5 9)
           (commit TRUECOLOR (buf.mk 4096 0 0 64 0 0 5 9)
              (glyph TRUECOLOR wide_font (buf.mk 4096 0 0 64 0 0 5 9) 0 16 50) ramp)
           (glyph TRUECOLOR wide_font (buf.mk 4096 0 0 64 0 0 5 9) 0 16 50)).
  - vm_compute. reflexivity.
  - reflexivity.
  - vm_compute. do 16 right. left. reflexivity.
Defined.

(** The pixel 16 columns right of the cursor on row 0 is, with 16 pixels
    to the line, the first pixel of row 1: the fill of row 0 stores the
    background color there and the bitmap row then stores the foreground
    color, which is what the pixel holds after the call. *)
Example last_store_is_foreground :
  In (mkstore FillRow 16 16 4160) (glyph TRUECOLOR wide_font (buf.mk 4096 0 0 64 0 0 5 9) 0 16 50) /\
  In (mkstore SetBit 0 0 4160) (glyph TRUECOLOR wide_font (buf.mk 4096 0 0 64 0 0 5 9) 0 16 50) /\
  load_pixel TRUECOLOR
    (commit TRUECOLOR (buf.mk 4096 0 0 64 0 0 5 9)
       (glyph TRUECOLOR wide_font (buf.mk 4096 0 0 64 0 0 5 9) 0 16 50) ramp) 4160 = 5.
Proof.
  split; [vm_compute; do 16 right; left; reflexivity|].
  split; [vm_compute; do 20 right; left; reflexivity|].
  vm_compute. reflexivity.
Qed.

(** ** The row the control block hands on *)

(** X16: with the control block and a destination at least two cells
    high, [j = h - i - (h % i)] is a positive multiple of the cell height
    [i] that leaves room for a whole cell, and the row the control block
    hands on is the smaller of [j] and the row [y] the line wrap and the
    newline leave.  A call returning for a line terminator or a missing
    glyph leaves that row in the cursor; a call that draws a glyph draws
    it on that row and then adds the glyph's vertical advance. *)
Theorem overflow_clamps_row (b : build) (f : ssfn_font_t) (dst : ssfn_buf_t) (m : memory)
    (u st : Z) (d' : ssfn_buf_t) (m' : memory) (log : list store) :
  valid_input (Some f) dst = true ->
  SSFN_CONSOLEBITMAP_CONTROL b = true ->
  2 * height f <= buf.h dst < 2147483648 ->
  ssfn_putc b (Some f) dst m u = Ret st d' m' log ->
  0 < last_line dst (height f) /\
  last_line dst (height f) mod height f = 0 /\
  last_line dst (height f) + height f <= buf.h dst /\
  exists d d1 m1,
    advance f dst u (lookup f u) (abs_width dst) (height f) = Some d /\
    scroll_on_overflow d (height f) (last_line dst (height f)) m = (d1, m1) /\
    buf.y d1 = Z.min (buf.y d) (last_line dst (height f)) /\
    buf.y d1 + height f <= buf.h dst /\
    if (u =? 13) || (u =? 10) then buf.y d' = buf.y d1 /\ log = []
    else match lookup f u with
         | None => buf.y d' = buf.y d1 /\ log = []
         | Some c =>
           buf.y d' = sint (buf.y d1 + load8 f (c + 5)) /\
           log = glyph (pixel b) f d1 (abs_width dst) (buf.p dst / sizeof (pixel b)) c /\
           forall e, In e log ->
             exists k, st_p e = buf.ptr dst + sint (buf.y d1 * buf.p dst)
                                + buf.x d1 * sizeof (pixel b) + k * sizeof (pixel b)
         end.
Proof.
  intros Hv Hc Hh H.
  pose proof (load8_range f 11) as Hi. fold (height f) in Hi.
  unfold ssfn_putc in H. rewrite Hv, Hc in H. cbn [negb] in H.
  destruct (height f =? 0) eqn:Hi0; [discriminate|]. apply Z.eqb_neq in Hi0.
  destruct (last_line_fits dst (height f) ltac:(lia) ltac:(lia) ltac:(lia))
    as (Hj & Hfit & Hmul).
  assert (Hpos : 0 < last_line dst (height f)).
  { rewrite Hj. pose proof (Z.mod_pos_bound (buf.h dst) (height f) ltac:(lia)).
    pose proof (Z.div_mod (buf.h dst) (height f) ltac:(lia)) as Hdm.
    assert (2 <= buf.h dst / height f) by (apply Z.div_le_lower_bound; lia).
    assert (height f * 2 <= height f * (buf.h dst / height f))
      by (apply Z.mul_le_mono_nonneg_l; lia).
    lia. }
  split; [exact Hpos|]. split; [exact Hmul|]. split; [exact Hfit|].
  destruct (advance f dst u (lookup f u) (abs_width dst) (height f)) as [d|] eqn:Ha;
    [|discriminate].
  destruct (scroll_on_overflow d (height f) (last_line dst (height f)) m) as [d1 m1] eqn:Hs.
  assert (Hfr : frame_of d1 = frame_of dst).
  { rewrite (scroll_on_overflow_frame _ _ _ _ _ _ Hs). apply (advance_frame _ _ _ _ _ _ _ Ha). }
  destruct (frame_of_fields _ _ Hfr) as (Hptr & Hpp & _).
  assert (Hy : buf.y d1 = Z.min (buf.y d) (last_line dst (height f))).
  { unfold scroll_on_overflow in Hs.
    replace (last_line dst (height f) >? 0) with true in Hs
      by (symmetry; rewrite Z.gtb_ltb; apply Z.ltb_lt; assumption).
    cbn [andb] in Hs.
    destruct (buf.y d >? last_line dst (height f)) eqn:Hgt; injection Hs as <- _.
    - rewrite Z.gtb_ltb in Hgt. apply Z.ltb_lt in Hgt. cbn [buf.set_y buf.y]. lia.
    - rewrite Z.gtb_ltb in Hgt. apply Z.ltb_ge in Hgt. lia. }
  exists d, d1, m1. split; [reflexivity|]. split; [exact Hs|]. split; [exact Hy|].
  split; [lia|].
  unfold finish in H. rewrite Hc in H. cbn [andb] in H.
  destruct ((u =? 13) || (u =? 10)).
  - injection H as _ <- _ <-. auto.
  - destruct (lookup f u) as [c|].
    + injection H as _ <- _ <-. cbn [buf.set_y buf.y].
      rewrite <- (frame_of_abs_width _ _ Hfr), <- Hpp, <- Hptr.
      split; [reflexivity|]. split; [reflexivity|].
      intros e He. apply glyph_grid in He. destruct He as (k & ->).
      exists k. unfold pixel_origin. ring.
    + injection H as _ <- _ <-. auto.
Qed.

Lemma overflow_clamps_row_witness :
  0 < last_line (buf.mk 4096 16 32 64 0 20 5 0) (height (font_A 8 0 [1])) /\
  last_line (buf.mk 4096 16 32 64 0 20 5 0) (height (font_A 8 0 [1]))
    mod height (font_A 8 0 [1]) = 0 /\
  last_line (buf.mk 4096 16 32 64 0 20 5 0) (height (font_A 8 0 [1]))
    + height (font_A 8 0 [1]) <= buf.h (buf.mk 4096 16 32 64 0 20 5 0) /\
  exists d d1 m1,
    advance (font_A 8 0 [1]) (buf.mk 4096 16 32 64 0 20 5 0) 65
      (lookup (font_A 8 0 [1]) 65) (abs_width (buf.mk 4096 16 32 64 0 20 5 0))
      (height (font_A 8 0 [1])) = Some d /\
    scroll_on_overflow d (height (font_A 8 0 [1]))
      (last_line (buf.mk 4096 16 32 64 0 20 5 0) (height (font_A 8 0 [1]))) ramp = (d1, m1) /\
    buf.y d1 = Z.min (buf.y d)
                 (last_line (buf.mk 4096 16 32 64 0 20 5 0) (height (font_A 8 0 [1]))) /\
    buf.y d1 + height (font_A 8 0 [1]) <= buf.h (buf.mk 4096 16 32 64 0 20 5 0) /\
    if (65 =? 13) || (65 =? 10)
    then buf.y (buf.mk 4096 16 32 64 8 16 5 0) = buf.y d1 /\
         [mkstore SetBit 0 0 (4096 + 16 * 64)] = []
    else match lookup (font_A 8 0 [1]) 65 with
         | None => buf.y (buf.mk 4096 16 32 64 8 16 5 0) = buf.y d1 /\
                   [mkstore SetBit 0 0 (4096 + 16 * 64)] = []
         | Some c =>
           buf.y (buf.mk 4096 16 32 64 8 16 5 0)
           = sint (buf.y d1 + load8 (font_A 8 0 [1]) (c + 5)) /\
           [mkstore SetBit 0 0 (4096 + 16 * 64)]
           = glyph (pixel truecolor_console) (font_A 8 0 [1]) d1
               (abs_width (buf.mk 4096 16 32 64 0 20 5 0))
               (buf.p (buf.mk 4096 16 32 64 0 20 5 0) / sizeof (pixel truecolor_console)) c /\
           forall e, In e [mkstore SetBit 0 0 (4096 + 16 * 64)] ->
             exists k, st_p e = buf.ptr (buf.mk 4096 16 32 64 0 20 5 0)
                                + sint (buf.y d1 * buf.p (buf.mk 4096 16 32 64 0 20 5 0))
                                + buf.x d1 * sizeof (pixel truecolor_console)
                                + k * sizeof (pixel truecolor_console)
         end.
Proof.
  apply (overflow_clamps_row truecolor_console (font_A 8 0 [1])
           (buf.mk 4096 16 32 64 0 20 5 0) ramp 65 SSFN_OK (buf.mk 4096 16 32 64 8 16 5 0)
           (commit TRUECOLOR (buf.mk 4096 16 32 64 0 16 5 0)
              [mkstore SetBit 0 0 (4096 + 16 * 64)]
              (scroll 16 (buf.mk 4096 16 32 64 0 20 5 0) 16 16 0 ramp))
           [mkstore SetBit 0 0 (4096 + 16 * 64)]).
  - vm_compute; reflexivity.
  - reflexivity.
  - vm_compute. split; [discriminate | reflexivity].
  - reflexivity.
Defined.

(** ** The left edge of the bitmap loop *)

(** X18: no bit of a bitmap fragment is stored left of the cursor's row
    start.  Every set-bit or clear-bit store of a call goes to the pixel
    [c = ssfn_dst.x + l] columns right of the start of a row at or below
    the cursor's, with [c] not negative, for every cursor [x] of the [int]
    range; [l] is the column in the fragment. *)
Theorem bitmap_left_edge (b : build) (f : ssfn_font_t) (dst : ssfn_buf_t) (m : memory)
    (u st : Z) (d' : ssfn_buf_t) (m' : memory) (log : list store) :
  -2147483648 <= buf.x dst < 2147483648 ->
  0 <= buf.p dst < 65536 ->
  ssfn_putc b (Some f) dst m u = Ret st d' m' log ->
  exists d1,
    frame_of d1 = frame_of dst /\
    (SSFN_CONSOLEBITMAP_CONTROL b = false -> d1 = dst) /\
    forall e, In e log -> st_paint e <> FillRow ->
      exists r c,
        0 <= r /\ 0 <= c /\ c = buf.x d1 + st_l e /\ st_x e = c /\ 0 <= st_l e < 256 /\
        st_p e = buf.ptr dst + sint (buf.y d1 * buf.p dst)
                 + r * (buf.p dst / sizeof (pixel b) * sizeof (pixel b))
                 + c * sizeof (pixel b).
Proof.
  intros Hx Hp Hret.
  destruct (ssfn_putc_stores _ _ _ _ _ _ _ _ _ Hp Hret) as (d1 & m1 & Hfr & Hctl & _ & Hlog).
  destruct (blit_context_x _ _ _ _ _ _ _ Hctl) as (Hplain & Hx1 & _).
  specialize (Hx1 Hx).
  destruct (frame_of_fields _ _ Hfr) as (Hptr & Hpp & _).
  exists d1. split; [exact Hfr|]. split; [intros Hc; apply (Hplain Hc)|].
  intros e He Hpaint. destruct (Hlog e He) as (chr & Hl & [Hfill | Hbit]).
  - destruct Hfill as (_ & r & c & _ & _ & _ & _ & ->). cbn [st_paint] in Hpaint. congruence.
  - destruct Hbit as (idx & top & r & l & (_ & Hr & Hl') & Htop & _ & _ & H0 & _ & _ & ->).
    pose proof (load8_range f (fragment_offs f chr (reference f chr idx))) as Hd.
    destruct (row_width_bytes _ Hd) as (_ & Hk & _).
    assert (Hs : sint (buf.x d1 + l) = buf.x d1 + l).
    { destruct (Z_lt_le_dec (buf.x d1 + l) 2147483648) as [Hlt | Hge];
        [apply sint_small; lia|].
      exfalso. unfold sint in H0.
      replace (buf.x d1 + l + 2147483648)
        with (buf.x d1 + l - 2147483648 + 1 * 4294967296) in H0 by ring.
      rewrite Z.mod_add in H0 by lia. rewrite Z.mod_small in H0 by lia. lia. }
    exists (top + r), (buf.x d1 + l). cbn [st_x st_p st_l].
    split; [lia|]. split; [lia|]. split; [reflexivity|]. split; [assumption|].
    split; [lia|]. unfold pixel_at, pixel_origin. rewrite Hptr, Hpp. ring.
Qed.

Lemma bitmap_left_edge_witness :
  exists d1,
    frame_of d1 = frame_of (screen (-3) 1 5 9) /\
    (SSFN_CONSOLEBITMAP_CONTROL truecolor_plain = false -> d1 = screen (-3) 1 5 9) /\
    forall e,
      In e (glyph TRUECOLOR (font_A 8 0 [255]) (screen (-3) 1 5 9) 16 16 50) ->
      st_paint e <> FillRow ->
      exists r c,
        0 <= r /\ 0 <= c /\ c = buf.x d1 + st_l e /\ st_x e = c /\ 0 <= st_l e < 256 /\
        st_p e = buf.ptr (screen (-3) 1 5 9)
                 + sint (buf.y d1 * buf.p (screen (-3) 1 5 9))
                 + r * (buf.p (screen (-3) 1 5 9) / sizeof (pixel truecolor_plain)
                        * sizeof (pixel truecolor_plain))
                 + c * sizeof (pixel truecolor_plain).
Proof.
  apply (bitmap_left_edge truecolor_plain (font_A 8 0 [255]) (screen (-3) 1 5 9) blank 65
           SSFN_OK (screen 5 1 5 9)
           (commit TRUECOLOR (screen (-3) 1 5 9)
              (glyph TRUECOLOR (font_A 8 0 [255]) (screen (-3) 1 5 9) 16 16 50) blank)
           (glyph TRUECOLOR (font_A 8 0 [255]) (screen (-3) 1 5 9) 16 16 50)).
  - simpl. lia.
  - simpl. lia.
  - reflexivity.
Defined.

(** With the cursor at [x = -3] the first three bits of the row are not
    stored; the fourth is, at column 0 of the cursor's row. *)
Example bitmap_left_edge_example :
  let log := glyph TRUECOLOR (font_A 8 0 [255]) (screen (-3) 1 5 9) 16 16 50 in
  ~ In (mkstore SetBit 0 (-3) (4096 + 64 - 12)) log /\
  ~ In (mkstore SetBit 2 (-1) (4096 + 64 - 4)) log /\
  In (mkstore SetBit 3 0 (4096 + 64)) log.
Proof.
  vm_compute. repeat split; try tauto.
  all: intros H; repeat (destruct H as [H | H]; [discriminate H|]); exact H.
Qed.
